(** * fab-content-filter: the content script's filtering engine

    A shallow embedding of the content script (ElementCache,
    MessageValidator, FabFilter) over a small model of the DOM, the
    extension runtime and the page's event loop, followed by the
    properties of the engine.

    Conventions of the model
    - An element is known by its identity, a number; the document is a
      tree of elements and text nodes; attributes live in one table keyed
      by (element, attribute name), so that an element keeps its attributes
      while it is detached, as in the DOM.
    - Tag names are the lower-case local names of HTML elements.
    - Strings are sequences of code units below 256.
    - Every element is an HTML element: className is a string.
    - The state carries a history of what the engine did (resolutions,
      pairs handed out, resets, passes, badge updates). No function reads
      it; the properties that count calls are stated on it. *)

From Stdlib Require Import Ascii DecimalString.
From stdpp Require Import gmap strings list.

Set Warnings "-register-all,-clear-no-such-hyp".

(** ** Strings as the script uses them *)

Module Str.

(** White space and line terminators of String.prototype.trim among the
    code units below 256: TAB, LF, VT, FF, CR, SPACE and NBSP. *)
Definition js_whitespace (a : Ascii.ascii) : bool :=
  let n := nat_of_ascii a in
  bool_decide (n = 9 ∨ n = 10 ∨ n = 11 ∨ n = 12 ∨ n = 13 ∨ n = 32 ∨ n = 160)%nat.

(** ASCII white space of HTML, which separates the tokens of a class
    attribute: TAB, LF, FF, CR and SPACE. *)
Definition html_whitespace (a : Ascii.ascii) : bool :=
  let n := nat_of_ascii a in
  bool_decide (n = 9 ∨ n = 10 ∨ n = 12 ∨ n = 13 ∨ n = 32)%nat.

Fixpoint trimStart (s : string) : string :=
  match s with
  | String a s' => if js_whitespace a then trimStart s' else s
  | EmptyString => EmptyString
  end.

(** [String.prototype.trim] *)
Definition trim (s : string) : string :=
  String.rev (trimStart (String.rev (trimStart s))).

(** [String.prototype.startsWith] *)
Definition startsWith (s p : string) : bool := String.prefix p s.

(** [String.prototype.includes]: [sub] occurs at some position of [s]. *)
Fixpoint includes (s sub : string) : bool :=
  String.prefix sub s ||
  match s with
  | String _ s' => includes s' sub
  | EmptyString => false
  end.

(** The tokens of a class attribute (DOMTokenList). *)
Fixpoint tokens_go (cur : option string) (s : string) : list string :=
  match s with
  | EmptyString => option_list (String.rev <$> cur)
  | String a s' =>
      if html_whitespace a
      then option_list (String.rev <$> cur) ++ tokens_go None s'
      else tokens_go (Some (String a (default EmptyString cur))) s'
  end.
Definition tokens : string → list string := tokens_go None.

(** [Number.prototype.toString] on an integer (below 1e21 in absolute
    value, where JavaScript prints every digit). *)
Definition decimal (z : Z) : string := NilZero.string_of_int (Z.to_int z).

End Str.

(** ** The document *)

Module Dom.

(** Identity of an element. *)
Abbreviation Element := nat.

Inductive Node : Type :=
| Text (data : string)
| Elem (id : Element) (tag : string) (kids : list Node).

(** Attributes of all elements, attached or detached. *)
Abbreviation Attrs := (gmap (nat * string) string).

Definition first_some {A B} (f : A → option B) : list A → option B :=
  fix go l :=
    match l with
    | [] => None
    | x :: l' => match f x with Some y => Some y | None => go l' end
    end.

(** Elements of a subtree in document order, its root first. *)
Fixpoint elements (n : Node) : list Element :=
  match n with
  | Text _ => []
  | Elem i _ ks => i :: flat_map elements ks
  end.

(** The subtree rooted at element [e]. *)
Fixpoint subtree (e : Element) (n : Node) : option Node :=
  match n with
  | Text _ => None
  | Elem i _ ks =>
      if decide (i = e) then Some n else first_some (subtree e) ks
  end.

(** The ancestors of [e] inside [n], nearest first; [None] when [e] is
    not in [n]. *)
Fixpoint path_to (e : Element) (n : Node) : option (list Element) :=
  match n with
  | Text _ => None
  | Elem i _ ks =>
      if decide (i = e) then Some []
      else (λ p, p ++ [i]) <$> first_some (path_to e) ks
  end.

(** [Node.textContent] *)
Fixpoint textContent (n : Node) : string :=
  match n with
  | Text s => s
  | Elem _ _ ks => String.concat "" (map textContent ks)
  end.

Section WithDocument.
Variable t : Node.   (* the document element and all below it *)

(** [document.contains(e)] *)
Definition contains (e : Element) : bool := bool_decide (e ∈ elements t).

Definition tagName (e : Element) : string :=
  match subtree e t with
  | Some (Elem _ tg _) => tg
  | _ => ""
  end.

Definition ancestors (e : Element) : list Element :=
  default [] (path_to e t).

(** [e.parentElement] *)
Definition parentElement (e : Element) : option Element :=
  head (ancestors e).

(** Elements strictly below [e], in document order. *)
Definition descendants (e : Element) : list Element :=
  match subtree e t with
  | Some (Elem _ _ ks) => flat_map elements ks
  | _ => []
  end.

Definition text_of (e : Element) : string :=
  match subtree e t with
  | Some n => textContent n
  | None => ""
  end.
End WithDocument.

(** *** Attributes *)

Definition getAttribute (A : Attrs) (e : Element) (k : string) : option string :=
  A !! (e, k).
Definition hasAttribute (A : Attrs) (e : Element) (k : string) : bool :=
  bool_decide (is_Some (A !! (e, k))).
Definition setAttribute (A : Attrs) (e : Element) (k v : string) : Attrs :=
  <[(e, k) := v]> A.
Definition removeAttribute (A : Attrs) (e : Element) (k : string) : Attrs :=
  delete (e, k) A.

(** [e.className]: the class attribute, or the empty string. *)
Definition className (A : Attrs) (e : Element) : string :=
  default "" (getAttribute A e "class").

(** [e.classList.contains(tok)] *)
Definition classList_contains (A : Attrs) (e : Element) (tok : string) : bool :=
  bool_decide (tok ∈ Str.tokens (className A e)).

(** *** Selectors

    The compound selectors the script uses: an optional type selector, an
    optional class selector and an optional attribute selector. *)

Inductive AttrOp := StartsWith | Includes | Equals.

Record Selector := {
  sel_tag : option string;
  sel_class : option string;
  sel_attr : option (string * AttrOp * string)
}.

Definition attr_test (op : AttrOp) (v x : string) : bool :=
  match op with
  | StartsWith => Str.startsWith v x
  | Includes => Str.includes v x
  | Equals => bool_decide (v = x)
  end.

Definition matches (t : Node) (A : Attrs) (sel : Selector) (e : Element) : bool :=
  match sel_tag sel with
  | Some tg => bool_decide (tagName t e = tg)
  | None => true
  end
  && match sel_class sel with
     | Some c => classList_contains A e c
     | None => true
     end
  && match sel_attr sel with
     | Some (k, op, x) =>
         match getAttribute A e k with
         | Some v => attr_test op v x
         | None => false
         end
     | None => true
     end.

(** The node a query starts from: the document, or an element. *)
Inductive QueryRoot := Document | InElement (e : Element).

(** Candidates of a query: every element of the document, or the
    elements strictly below the element asked. *)
Definition candidates (t : Node) (r : QueryRoot) : list Element :=
  match r with
  | Document => elements t
  | InElement e => descendants t e
  end.

(** [root.querySelectorAll(sel)] *)
Definition querySelectorAll (t : Node) (A : Attrs) (r : QueryRoot)
    (sel : Selector) : list Element :=
  filter (λ e, matches t A sel e) (candidates t r).

(** [root.querySelector(sel)] *)
Definition querySelector (t : Node) (A : Attrs) (r : QueryRoot)
    (sel : Selector) : option Element :=
  head (querySelectorAll t A r sel).

(** [e.closest(sel)]: [e] itself or its nearest ancestor that matches. *)
Definition closest (t : Node) (A : Attrs) (e : Element) (sel : Selector)
    : option Element :=
  head (filter (λ x, matches t A sel x) (e :: ancestors t e)).

End Dom.

(** ** Values carried by runtime messages *)

Module Js.

Inductive Value : Type :=
| Undefined
| Null
| Bool (b : bool)
| Num (z : Z)
| Str (s : string)
| Arr (items : list Value)
| Obj (props : list (string * Value)).

(** ToBoolean *)
Definition truthy (v : Value) : bool :=
  match v with
  | Undefined | Null => false
  | Bool b => b
  | Num z => negb (z =? 0)%Z
  | Str s => negb (bool_decide (s = ""))
  | Arr _ | Obj _ => true
  end.

Definition typeof (v : Value) : string :=
  match v with
  | Undefined => "undefined"
  | Null | Arr _ | Obj _ => "object"
  | Bool _ => "boolean"
  | Num _ => "number"
  | Str _ => "string"
  end.

Fixpoint assoc (k : string) (ps : list (string * Value)) : Value :=
  match ps with
  | [] => Undefined
  | (k', v) :: ps' => if decide (k' = k) then v else assoc k ps'
  end.

(** [v.k] for the property names the script reads (action, usernames,
    showCount), none of which an array or a primitive has. *)
Definition prop (v : Value) (k : string) : Value :=
  match v with
  | Obj ps => assoc k ps
  | _ => Undefined
  end.

(** [v === s] for a string literal [s]. *)
Definition is_str (v : Value) (s : string) : bool :=
  match v with
  | Str x => bool_decide (x = s)
  | _ => false
  end.

(** [l.includes(v)] for an array [l] of string literals. *)
Definition includes (l : list string) (v : Value) : bool :=
  existsb (is_str v) l.

(** The strings among the members of an array. *)
Definition strings (v : Value) : list string :=
  match v with
  | Arr items => omap (λ x, match x with Str s => Some s | _ => None end) items
  | _ => []
  end.

End Js.

(** ** The page, the browser and the engine: one state *)

Module Engine.
Import Dom.

(** The updateBadge message: { action: 'updateBadge', text, color }. *)
Record BadgeMessage := { text : string; color : string }.

(** What a run leaves behind, for the properties that count calls. *)
Inductive Event :=
| Resolve (link : Element)            (* findItemContainer(link) was called *)
| Yield (link parent : Element)       (* findElementsInNode handed out the pair *)
| Reset                               (* resetAndRefilter began *)
| Pass (nodes : list Element)         (* a pass over the pending mutations began *)
| Badge (m : BadgeMessage).           (* updateBadge called sendMessageSafely *)

Record State := {
  tree : Node;                               (* the document *)
  attrs : Attrs;                             (* attributes of its elements *)
  runtime_ok : bool;                         (* chrome.runtime?.id is set *)
  clock : nat;                               (* milliseconds *)
  timers : list (nat * nat);                 (* pending timeouts: identifier and due time *)
  next_timer : nat;                          (* identifier of the next timeout *)
  frames : nat;                              (* callbacks waiting for the next animation frame *)
  outbox : list BadgeMessage;                (* messages handed to chrome.runtime.sendMessage *)
  console : list string;                     (* console.error lines *)
  live : bool;                               (* observer and message listener are registered *)
  filteredUsernames : gset string;           (* this.filteredUsernames *)
  showBlockedCount : bool;                   (* this.showBlockedCount *)
  blockedCount : Z;                          (* this.blockedCount *)
  processedElements : gset nat;              (* this.elementCache.processedElements *)
  rm_timers : list nat;                      (* this.resourceManager.timers *)
  pendingMutations : list nat;               (* this.pendingMutations, in insertion order *)
  mutationTimeout : option nat;              (* this.mutationTimeout *)
  trace : list Event                         (* history of the run (ghost) *)
}.

Definition set_tree (v : Node) (s : State) : State :=
  {| tree := v;
     attrs := attrs s;
     runtime_ok := runtime_ok s;
     clock := clock s;
     timers := timers s;
     next_timer := next_timer s;
     frames := frames s;
     outbox := outbox s;
     console := console s;
     live := live s;
     filteredUsernames := filteredUsernames s;
     showBlockedCount := showBlockedCount s;
     blockedCount := blockedCount s;
     processedElements := processedElements s;
     rm_timers := rm_timers s;
     pendingMutations := pendingMutations s;
     mutationTimeout := mutationTimeout s;
     trace := trace s |}.
Definition set_attrs (v : Attrs) (s : State) : State :=
  {| tree := tree s;
     attrs := v;
     runtime_ok := runtime_ok s;
     clock := clock s;
     timers := timers s;
     next_timer := next_timer s;
     frames := frames s;
     outbox := outbox s;
     console := console s;
     live := live s;
     filteredUsernames := filteredUsernames s;
     showBlockedCount := showBlockedCount s;
     blockedCount := blockedCount s;
     processedElements := processedElements s;
     rm_timers := rm_timers s;
     pendingMutations := pendingMutations s;
     mutationTimeout := mutationTimeout s;
     trace := trace s |}.
Definition set_runtime_ok (v : bool) (s : State) : State :=
  {| tree := tree s;
     attrs := attrs s;
     runtime_ok := v;
     clock := clock s;
     timers := timers s;
     next_timer := next_timer s;
     frames := frames s;
     outbox := outbox s;
     console := console s;
     live := live s;
     filteredUsernames := filteredUsernames s;
     showBlockedCount := showBlockedCount s;
     blockedCount := blockedCount s;
     processedElements := processedElements s;
     rm_timers := rm_timers s;
     pendingMutations := pendingMutations s;
     mutationTimeout := mutationTimeout s;
     trace := trace s |}.
Definition set_clock (v : nat) (s : State) : State :=
  {| tree := tree s;
     attrs := attrs s;
     runtime_ok := runtime_ok s;
     clock := v;
     timers := timers s;
     next_timer := next_timer s;
     frames := frames s;
     outbox := outbox s;
     console := console s;
     live := live s;
     filteredUsernames := filteredUsernames s;
     showBlockedCount := showBlockedCount s;
     blockedCount := blockedCount s;
     processedElements := processedElements s;
     rm_timers := rm_timers s;
     pendingMutations := pendingMutations s;
     mutationTimeout := mutationTimeout s;
     trace := trace s |}.
Definition set_timers (v : list (nat * nat)) (s : State) : State :=
  {| tree := tree s;
     attrs := attrs s;
     runtime_ok := runtime_ok s;
     clock := clock s;
     timers := v;
     next_timer := next_timer s;
     frames := frames s;
     outbox := outbox s;
     console := console s;
     live := live s;
     filteredUsernames := filteredUsernames s;
     showBlockedCount := showBlockedCount s;
     blockedCount := blockedCount s;
     processedElements := processedElements s;
     rm_timers := rm_timers s;
     pendingMutations := pendingMutations s;
     mutationTimeout := mutationTimeout s;
     trace := trace s |}.
Definition set_next_timer (v : nat) (s : State) : State :=
  {| tree := tree s;
     attrs := attrs s;
     runtime_ok := runtime_ok s;
     clock := clock s;
     timers := timers s;
     next_timer := v;
     frames := frames s;
     outbox := outbox s;
     console := console s;
     live := live s;
     filteredUsernames := filteredUsernames s;
     showBlockedCount := showBlockedCount s;
     blockedCount := blockedCount s;
     processedElements := processedElements s;
     rm_timers := rm_timers s;
     pendingMutations := pendingMutations s;
     mutationTimeout := mutationTimeout s;
     trace := trace s |}.
Definition set_frames (v : nat) (s : State) : State :=
  {| tree := tree s;
     attrs := attrs s;
     runtime_ok := runtime_ok s;
     clock := clock s;
     timers := timers s;
     next_timer := next_timer s;
     frames := v;
     outbox := outbox s;
     console := console s;
     live := live s;
     filteredUsernames := filteredUsernames s;
     showBlockedCount := showBlockedCount s;
     blockedCount := blockedCount s;
     processedElements := processedElements s;
     rm_timers := rm_timers s;
     pendingMutations := pendingMutations s;
     mutationTimeout := mutationTimeout s;
     trace := trace s |}.
Definition set_outbox (v : list BadgeMessage) (s : State) : State :=
  {| tree := tree s;
     attrs := attrs s;
     runtime_ok := runtime_ok s;
     clock := clock s;
     timers := timers s;
     next_timer := next_timer s;
     frames := frames s;
     outbox := v;
     console := console s;
     live := live s;
     filteredUsernames := filteredUsernames s;
     showBlockedCount := showBlockedCount s;
     blockedCount := blockedCount s;
     processedElements := processedElements s;
     rm_timers := rm_timers s;
     pendingMutations := pendingMutations s;
     mutationTimeout := mutationTimeout s;
     trace := trace s |}.
Definition set_console (v : list string) (s : State) : State :=
  {| tree := tree s;
     attrs := attrs s;
     runtime_ok := runtime_ok s;
     clock := clock s;
     timers := timers s;
     next_timer := next_timer s;
     frames := frames s;
     outbox := outbox s;
     console := v;
     live := live s;
     filteredUsernames := filteredUsernames s;
     showBlockedCount := showBlockedCount s;
     blockedCount := blockedCount s;
     processedElements := processedElements s;
     rm_timers := rm_timers s;
     pendingMutations := pendingMutations s;
     mutationTimeout := mutationTimeout s;
     trace := trace s |}.
Definition set_live (v : bool) (s : State) : State :=
  {| tree := tree s;
     attrs := attrs s;
     runtime_ok := runtime_ok s;
     clock := clock s;
     timers := timers s;
     next_timer := next_timer s;
     frames := frames s;
     outbox := outbox s;
     console := console s;
     live := v;
     filteredUsernames := filteredUsernames s;
     showBlockedCount := showBlockedCount s;
     blockedCount := blockedCount s;
     processedElements := processedElements s;
     rm_timers := rm_timers s;
     pendingMutations := pendingMutations s;
     mutationTimeout := mutationTimeout s;
     trace := trace s |}.
Definition set_filteredUsernames (v : gset string) (s : State) : State :=
  {| tree := tree s;
     attrs := attrs s;
     runtime_ok := runtime_ok s;
     clock := clock s;
     timers := timers s;
     next_timer := next_timer s;
     frames := frames s;
     outbox := outbox s;
     console := console s;
     live := live s;
     filteredUsernames := v;
     showBlockedCount := showBlockedCount s;
     blockedCount := blockedCount s;
     processedElements := processedElements s;
     rm_timers := rm_timers s;
     pendingMutations := pendingMutations s;
     mutationTimeout := mutationTimeout s;
     trace := trace s |}.
Definition set_showBlockedCount (v : bool) (s : State) : State :=
  {| tree := tree s;
     attrs := attrs s;
     runtime_ok := runtime_ok s;
     clock := clock s;
     timers := timers s;
     next_timer := next_timer s;
     frames := frames s;
     outbox := outbox s;
     console := console s;
     live := live s;
     filteredUsernames := filteredUsernames s;
     showBlockedCount := v;
     blockedCount := blockedCount s;
     processedElements := processedElements s;
     rm_timers := rm_timers s;
     pendingMutations := pendingMutations s;
     mutationTimeout := mutationTimeout s;
     trace := trace s |}.
Definition set_blockedCount (v : Z) (s : State) : State :=
  {| tree := tree s;
     attrs := attrs s;
     runtime_ok := runtime_ok s;
     clock := clock s;
     timers := timers s;
     next_timer := next_timer s;
     frames := frames s;
     outbox := outbox s;
     console := console s;
     live := live s;
     filteredUsernames := filteredUsernames s;
     showBlockedCount := showBlockedCount s;
     blockedCount := v;
     processedElements := processedElements s;
     rm_timers := rm_timers s;
     pendingMutations := pendingMutations s;
     mutationTimeout := mutationTimeout s;
     trace := trace s |}.
Definition set_processedElements (v : gset nat) (s : State) : State :=
  {| tree := tree s;
     attrs := attrs s;
     runtime_ok := runtime_ok s;
     clock := clock s;
     timers := timers s;
     next_timer := next_timer s;
     frames := frames s;
     outbox := outbox s;
     console := console s;
     live := live s;
     filteredUsernames := filteredUsernames s;
     showBlockedCount := showBlockedCount s;
     blockedCount := blockedCount s;
     processedElements := v;
     rm_timers := rm_timers s;
     pendingMutations := pendingMutations s;
     mutationTimeout := mutationTimeout s;
     trace := trace s |}.
Definition set_rm_timers (v : list nat) (s : State) : State :=
  {| tree := tree s;
     attrs := attrs s;
     runtime_ok := runtime_ok s;
     clock := clock s;
     timers := timers s;
     next_timer := next_timer s;
     frames := frames s;
     outbox := outbox s;
     console := console s;
     live := live s;
     filteredUsernames := filteredUsernames s;
     showBlockedCount := showBlockedCount s;
     blockedCount := blockedCount s;
     processedElements := processedElements s;
     rm_timers := v;
     pendingMutations := pendingMutations s;
     mutationTimeout := mutationTimeout s;
     trace := trace s |}.
Definition set_pendingMutations (v : list nat) (s : State) : State :=
  {| tree := tree s;
     attrs := attrs s;
     runtime_ok := runtime_ok s;
     clock := clock s;
     timers := timers s;
     next_timer := next_timer s;
     frames := frames s;
     outbox := outbox s;
     console := console s;
     live := live s;
     filteredUsernames := filteredUsernames s;
     showBlockedCount := showBlockedCount s;
     blockedCount := blockedCount s;
     processedElements := processedElements s;
     rm_timers := rm_timers s;
     pendingMutations := v;
     mutationTimeout := mutationTimeout s;
     trace := trace s |}.
Definition set_mutationTimeout (v : option nat) (s : State) : State :=
  {| tree := tree s;
     attrs := attrs s;
     runtime_ok := runtime_ok s;
     clock := clock s;
     timers := timers s;
     next_timer := next_timer s;
     frames := frames s;
     outbox := outbox s;
     console := console s;
     live := live s;
     filteredUsernames := filteredUsernames s;
     showBlockedCount := showBlockedCount s;
     blockedCount := blockedCount s;
     processedElements := processedElements s;
     rm_timers := rm_timers s;
     pendingMutations := pendingMutations s;
     mutationTimeout := v;
     trace := trace s |}.
Definition set_trace (v : list Event) (s : State) : State :=
  {| tree := tree s;
     attrs := attrs s;
     runtime_ok := runtime_ok s;
     clock := clock s;
     timers := timers s;
     next_timer := next_timer s;
     frames := frames s;
     outbox := outbox s;
     console := console s;
     live := live s;
     filteredUsernames := filteredUsernames s;
     showBlockedCount := showBlockedCount s;
     blockedCount := blockedCount s;
     processedElements := processedElements s;
     rm_timers := rm_timers s;
     pendingMutations := pendingMutations s;
     mutationTimeout := mutationTimeout s;
     trace := v |}.

Definition log (ev : Event) (s : State) : State :=
  set_trace (trace s ++ [ev]) s.

(** *** ElementCache *)

Definition sellerLinkSelector : Selector :=
  {| sel_tag := Some "a"; sel_class := None;
     sel_attr := Some ("href", StartsWith, "/sellers/") |}.
(** a[href^="/listings/"] *)
Definition listingLinkSelector : Selector :=
  {| sel_tag := Some "a"; sel_class := None;
     sel_attr := Some ("href", StartsWith, "/listings/") |}.
(** img *)
Definition imgSelector : Selector :=
  {| sel_tag := Some "img"; sel_class := None; sel_attr := None |}.
(** [class*="fabkit-Surface-root"] *)
Definition surfaceSelector : Selector :=
  {| sel_tag := None; sel_class := None;
     sel_attr := Some ("class", Includes, "fabkit-Surface-root") |}.
(** div[class*="fabkit-Stack"] *)
Definition stackSelector : Selector :=
  {| sel_tag := Some "div"; sel_class := None;
     sel_attr := Some ("class", Includes, "fabkit-Stack") |}.
(** .fabkit-Typography-ellipsisWrapper *)
Definition usernameSelector : Selector :=
  {| sel_tag := None; sel_class := Some "fabkit-Typography-ellipsisWrapper";
     sel_attr := None |}.
(** [data-filtered-processed="true"] *)
Definition processedSelector : Selector :=
  {| sel_tag := None; sel_class := None;
     sel_attr := Some ("data-filtered-processed", Equals, "true") |}.
(** [data-filtered="true"] *)
Definition filteredSelector : Selector :=
  {| sel_tag := None; sel_class := None;
     sel_attr := Some ("data-filtered", Equals, "true") |}.

Definition isProcessed (s : State) (element : Element) : bool :=
  bool_decide (element ∈ processedElements s).

Definition markProcessed (element : Element) (s : State) : State :=
  set_processedElements ({[element]} ∪ processedElements s) s.

Section FindItemContainer.
Variables (t : Node) (A : Attrs).

(** The test of one turn of the first loop of findItemContainer. *)
Definition isProductCard (current : Element) : bool :=
  let hasProductLink := querySelector t A (InElement current) listingLinkSelector in
  let hasImage := querySelector t A (InElement current) imgSelector in
  let hasFabkitClasses :=
    negb (bool_decide (className A current = ""))
    && Str.includes (className A current) "fabkit-" in
  bool_decide (is_Some hasProductLink) && bool_decide (is_Some hasImage)
  && (hasFabkitClasses
      || bool_decide (is_Some (querySelector t A (InElement current) surfaceSelector))).

(** Strategy 1: [while (current && maxDepth > 0)]. *)
Fixpoint strategy1 (current : option Element) (maxDepth : nat) : option Element :=
  match current, maxDepth with
  | Some c, S d =>
      if isProductCard c then Some c
      else strategy1 (parentElement t c) d
  | _, _ => None
  end.

(** Strategy 2, the loop
    [while (parent && parent.classList.contains('fabkit-Stack-root'))];
    the fuel is the number of ancestors still above. *)
Fixpoint outermostStack (fuel : nat) (productContainer : Element)
    (parent : option Element) : Element :=
  match fuel, parent with
  | S f, Some p =>
      if classList_contains A p "fabkit-Stack-root"
      then outermostStack f p (parentElement t p)
      else productContainer
  | _, _ => productContainer
  end.

Definition strategy2 (sellerLink : Element) : option Element :=
  match closest t A sellerLink stackSelector with
  | Some stackContainer =>
      let productContainer :=
        outermostStack (length (ancestors t stackContainer)) stackContainer
          (parentElement t stackContainer) in
      let hasProductLink :=
        querySelector t A (InElement productContainer) listingLinkSelector in
      let hasImage := querySelector t A (InElement productContainer) imgSelector in
      if bool_decide (is_Some hasProductLink) && bool_decide (is_Some hasImage)
      then Some productContainer
      else None
  | None => None
  end.

Definition findItemContainer (sellerLink : Element) : option Element :=
  match strategy1 (parentElement t sellerLink) 10 with
  | Some c => Some c
  | None => strategy2 sellerLink
  end.
End FindItemContainer.

(** One turn of the loop over the links in findElementsInNode. *)
Definition scanLink (acc : list (Element * Element) * State) (link : Element)
    : list (Element * Element) * State :=
  let '(elements, s) := acc in
  if isProcessed s link then acc
  else
    let s := log (Resolve link) s in
    match findItemContainer (tree s) (attrs s) link with
    | Some parent =>
        if negb (hasAttribute (attrs s) parent "data-filtered-processed")
        then
          let s := markProcessed link s in
          let s := set_attrs
                     (setAttribute (attrs s) parent "data-filtered-processed" "true") s in
          (elements ++ [(link, parent)], log (Yield link parent) s)
        else (elements, s)
    | None => (elements, s)
    end.

(** [findElementsInNode(node)]: the search root is the node when it is an
    element, the document otherwise. *)
Definition findElementsInNode (node : QueryRoot) (s : State)
    : list (Element * Element) * State :=
  let links := querySelectorAll (tree s) (attrs s) node sellerLinkSelector in
  foldl scanLink ([], s) links.

(** *** FabFilter *)

(** [new FabFilter()] on a page. *)
Definition construct (t : Node) (A : Attrs) (rt : bool) : State :=
  {| tree := t; attrs := A; runtime_ok := rt; clock := 0; timers := [];
     next_timer := 1; frames := 0; outbox := []; console := []; live := false;
     filteredUsernames := ∅; showBlockedCount := false; blockedCount := 0;
     processedElements := ∅; rm_timers := []; pendingMutations := [];
     mutationTimeout := None; trace := [] |}.

Definition sendMessageSafely (message : BadgeMessage) (s : State) : State :=
  if runtime_ok s then set_outbox (outbox s ++ [message]) s else s.

Definition badgeMessage (s : State) : BadgeMessage :=
  if showBlockedCount s then
    {| text := if bool_decide (0 < blockedCount s)%Z
               then Str.decimal (blockedCount s) else "";
       color := if bool_decide (0 < blockedCount s)%Z
                then "#f44336" else "#4CAF50" |}
  else {| text := ""; color := "#4CAF50" |}.

Definition updateBadge (s : State) : State :=
  sendMessageSafely (badgeMessage s) (log (Badge (badgeMessage s)) s).

(** The seller's name of a link: the trimmed text of its username
    element, when it has one. *)
Definition sellerName (t : Node) (A : Attrs) (link : Element) : option string :=
  usernameWrapper ← querySelector t A (InElement link) usernameSelector;
  Some (Str.trim (text_of t usernameWrapper)).

Definition filterElement (s : State) (el : Element * Element) : State :=
  let '(link, parent) := el in
  match querySelector (tree s) (attrs s) (InElement link) usernameSelector with
  | None => s
  | Some usernameWrapper =>
      let username := Str.trim (text_of (tree s) usernameWrapper) in
      if bool_decide (username = "") then s
      else
        let shouldFilter := bool_decide (username ∈ filteredUsernames s) in
        let isCurrentlyFiltered := hasAttribute (attrs s) parent "data-filtered" in
        if shouldFilter && negb isCurrentlyFiltered then
          set_blockedCount (blockedCount s + 1)
            (set_attrs (setAttribute (attrs s) parent "data-filtered" "true") s)
        else if negb shouldFilter && isCurrentlyFiltered then
          set_blockedCount (blockedCount s - 1)
            (set_attrs (removeAttribute (attrs s) parent "data-filtered") s)
        else s
  end.

(** The scan of one search root: discovery, then the filter on each
    pair found. *)
Definition scan (node : QueryRoot) (s : State) : State :=
  let '(elements, s) := findElementsInNode node s in
  foldl filterElement s elements.

Definition filterExistingContent (s : State) : State :=
  updateBadge (scan Document s).

Definition clearMarkers (s : State) (element : Element) : State :=
  set_attrs
    (removeAttribute (removeAttribute (attrs s) element "data-filtered")
       element "data-filtered-processed") s.

Definition resetAndRefilter (s : State) : State :=
  let s := log Reset s in
  let s := set_blockedCount 0 s in
  let s := set_processedElements ∅ s in
  let allProcessed := querySelectorAll (tree s) (attrs s) Document processedSelector in
  let s := foldl clearMarkers s allProcessed in
  let filtered := querySelectorAll (tree s) (attrs s) Document filteredSelector in
  let s := foldl clearMarkers s filtered in
  filterExistingContent s.

(** *** MessageValidator

    [validate] returns true or throws; a throw is [inl] of the error's
    message. *)
Definition validate (message : Js.Value) : string + bool :=
  let allowedActions := ["updateFilters"; "updateShowCount"] in
  if negb (Js.truthy message) || negb (bool_decide (Js.typeof message = "object"))
  then inl "Invalid message format"
  else if negb (Js.includes allowedActions (Js.prop message "action"))
  then inl "Invalid action"
  else if Js.is_str (Js.prop message "action") "updateFilters" then
    match Js.prop message "usernames" with
    | Js.Arr usernames =>
        if forallb (λ username, bool_decide (Js.typeof username = "string")) usernames
        then inr true
        else inl "Invalid username type"
    | _ => inl "Invalid usernames format"
    end
  else if Js.is_str (Js.prop message "action") "updateShowCount" then
    if negb (bool_decide (Js.typeof (Js.prop message "showCount") = "boolean"))
    then inl "Invalid showCount format"
    else inr true
  else inr true.

Definition console_error (line : string) (s : State) : State :=
  set_console (console s ++ [line]) s.

(** [handleMessage]: the body of the try block, and the catch. Of the
    set built from message.usernames only the strings can be found by
    has(username); of message.showCount only its truth is read. *)
Definition handleMessage (message : Js.Value) (s : State) : State :=
  match validate message with
  | inl error => console_error ("Invalid message received: " +:+ error) s
  | inr _ =>
      if Js.is_str (Js.prop message "action") "updateFilters" then
        resetAndRefilter
          (set_filteredUsernames
             (list_to_set (Js.strings (Js.prop message "usernames"))) s)
      else if Js.is_str (Js.prop message "action") "updateShowCount" then
        updateBadge
          (set_showBlockedCount (Js.truthy (Js.prop message "showCount")) s)
      else s
  end.

(** *** The mutation observer *)

(** A node of a mutation record: an element, or a node of another type
    (text, comment). *)
Inductive AddedNode := ElementNode (e : Element) | OtherNode.

Record MutationRecord := { mtype : string; addedNodes : list AddedNode }.

(** [this.pendingMutations.add(node)] *)
Definition pending_add (node : Element) (s : State) : State :=
  if bool_decide (node ∈ pendingMutations s) then s
  else set_pendingMutations (pendingMutations s ++ [node]) s.

Definition collectAdded (s : State) (node : AddedNode) : State :=
  match node with
  | ElementNode e => pending_add e s
  | OtherNode => s
  end.

Definition collectRecord (s : State) (mutation : MutationRecord) : State :=
  if bool_decide (mtype mutation = "childList")
  then foldl collectAdded s (addedNodes mutation)
  else s.

(** [clearTimeout(id)] *)
Definition clearTimeout (id : nat) (s : State) : State :=
  set_timers (filter (λ tm, tm.1 ≠ id) (timers s)) s.

(** [this.resourceManager.setTimeout(fn, delay)]; the only function the
    engine ever defers is processPendingMutations. *)
Definition setTimeout (delay : nat) (s : State) : nat * State :=
  let timer := next_timer s in
  let s := set_next_timer (S timer) s in
  let s := set_timers (timers s ++ [(timer, clock s + delay)]) s in
  (timer, set_rm_timers (rm_timers s ++ [timer]) s).

(** The callback given to the MutationObserver. *)
Definition observerCallback (mutations : list MutationRecord) (s : State) : State :=
  let s := foldl collectRecord s mutations in
  if bool_decide (0 < length (pendingMutations s)) then
    let s := match mutationTimeout s with
             | Some id => clearTimeout id s
             | None => s
             end in
    let '(timer, s) := setTimeout 100 s in
    set_mutationTimeout (Some timer) s
  else s.

(** [processPendingMutations]: asks for an animation frame. *)
Definition processPendingMutations (s : State) : State :=
  if bool_decide (length (pendingMutations s) = 0) then s
  else set_frames (S (frames s)) s.

Definition processNode (s : State) (node : Element) : State :=
  if negb (contains (tree s) node) then s
  else scan (InElement node) s.

(** The function given to requestAnimationFrame. *)
Definition processingPass (s : State) : State :=
  let nodesToProcess := pendingMutations s in
  let s := log (Pass nodesToProcess) s in
  let s := set_pendingMutations [] s in
  let s := foldl processNode s nodesToProcess in
  updateBadge s.

(** *** initialize

    [usernames] and [showCount] are what the settings store holds. *)
Definition initialize (usernames : list string) (showCount : bool) (s : State) : State :=
  if negb (runtime_ok s) then s
  else
    let s := set_filteredUsernames (list_to_set usernames) s in
    let s := set_showBlockedCount showCount s in
    let s := filterExistingContent s in
    let s := set_live true s in
    updateBadge s.

(** ** The browser's side: what can happen to a live engine *)

(** A timeout fires: it leaves the table and its function runs. *)
Definition fireTimer (id : nat) (s : State) : State :=
  processPendingMutations (clearTimeout id s).

(** An animation frame: the callbacks asked for so far run. *)
Definition animationFrame (s : State) : State :=
  Nat.iter (frames s) processingPass (set_frames 0 s).

(** Time passes. *)
Definition advance (dt : nat) (s : State) : State :=
  set_clock (clock s + dt) s.



(** *** Runs

    The engine's two marker attributes are its own: the page may change
    the document and every other attribute, but it never writes a marker
    attribute. *)
Definition marker (k : string) : Prop :=
  k = "data-filtered" ∨ k = "data-filtered-processed".

(** What the page may do to the document between two steps of the
    engine: any change of the tree and of the page's attributes. *)
Definition page_changes (s : State) (t' : Node) (A' : Attrs) : Prop :=
  NoDup (elements t')
  ∧ ∀ e k, marker k → A' !! (e, k) = attrs s !! (e, k).

(** The same, for a page that never takes a hidden element out of the
    document. *)
Definition page_keeps_hidden (s : State) (t' : Node) (A' : Attrs) : Prop :=
  page_changes s t' A'
  ∧ ∀ e, e ∈ elements (tree s) →
         hasAttribute (attrs s) e "data-filtered" = true → e ∈ elements t'.

Section Runs.
Variable page : State → Node → Attrs → Prop.

Inductive step : State → State → Prop :=
| step_page s t' A' :
    page s t' A' → step s (set_attrs A' (set_tree t' s))
| step_observe s mutations :
    step s (observerCallback mutations s)
| step_tick s dt :
    step s (advance dt s)
| step_timer s id due :
    (id, due) ∈ timers s → due ≤ clock s → step s (fireTimer id s)
| step_frame s :
    step s (animationFrame s)
| step_message s message :
    step s (handleMessage message s)
| step_invalidated s :
    step s (set_runtime_ok false s).

(** The states of a page load: a document free of marker attributes,
    the engine constructed and initialized on it, then any steps
    while the engine's observer and listener are registered. *)
Inductive reachable : State → Prop :=
| reach_init t A rt usernames showCount :
    NoDup (elements t) →
    (∀ e k, marker k → A !! (e, k) = None) →
    reachable (initialize usernames showCount (construct t A rt))
| reach_step s s' :
    reachable s → live s = true → step s s' → reachable s'.
End Runs.





End Engine.

(** ** The specification's words, to compare the code with *)

Module Spec.
Import Dom Engine.

(** *** Inbound messages: the two recognized shapes *)

Definition array_of_strings (v : Js.Value) : bool :=
  match v with
  | Js.Arr items =>
      forallb (λ x, match x with Js.Str _ => true | _ => false end) items
  | _ => false
  end.

Definition boolean (v : Js.Value) : bool :=
  match v with Js.Bool _ => true | _ => false end.

(** action updateFilters with usernames an array of strings, or action
    updateShowCount with showCount a boolean. *)
Definition recognized (message : Js.Value) : bool :=
  match message with
  | Js.Obj fields =>
      Js.is_str (Js.assoc "action" fields) "updateFilters"
      && array_of_strings (Js.assoc "usernames" fields)
      || Js.is_str (Js.assoc "action" fields) "updateShowCount"
         && boolean (Js.assoc "showCount" fields)
  | _ => false
  end.

(** *** Container resolution *)

Section Resolution.
Variables (t : Node) (A : Attrs).

Definition contains_listing_and_image (c : Element) : bool :=
  bool_decide (querySelectorAll t A (InElement c) listingLinkSelector ≠ [])
  && bool_decide (querySelectorAll t A (InElement c) imgSelector ≠ []).

(** The element carries a card class marker itself. *)
Definition card_marker (c : Element) : bool :=
  Str.includes (className A c) "fabkit-".

(** The element has a descendant with a surface class marker. *)
Definition surface_below (c : Element) : bool :=
  bool_decide (querySelectorAll t A (InElement c) surfaceSelector ≠ []).

Definition qualifies (c : Element) : bool :=
  contains_listing_and_image c && (card_marker c || surface_below c).

Definition stack_marker (c : Element) : bool :=
  matches t A stackSelector c.

Definition stack_container (c : Element) : bool :=
  classList_contains A c "fabkit-Stack-root".

Fixpoint take_while (P : Element → bool) (l : list Element) : list Element :=
  match l with
  | x :: l' => if P x then x :: take_while P l' else []
  | [] => []
  end.

(** First the nearest qualifying ancestor among ten levels; failing
    that, from the nearest ancestor with a stack marker, the outermost
    of the stack containers directly above it, if it contains a
    listing link and an image. *)
Definition resolve (link : Element) : option Element :=
  match head (filter (λ c, qualifies c) (take 10 (ancestors t link))) with
  | Some c => Some c
  | None =>
      match head (filter (λ c, stack_marker c) (ancestors t link)) with
      | Some nearest =>
          let outermost :=
            default nearest (last (take_while stack_container (ancestors t nearest))) in
          if contains_listing_and_image outermost then Some outermost else None
      | None => None
      end
  end.
End Resolution.

(** *** Cards and their sellers *)

(** The seller links of the document that resolve to a container, each
    with its container, in document order. *)
Definition resolved (t : Node) (A : Attrs) : list (Element * Element) :=
  omap (λ link, pair link <$> findItemContainer t A link)
    (querySelectorAll t A Document sellerLinkSelector).

(** Of the pairs with the same container, the first. *)
Fixpoint first_of_each (seen : list Element) (pairs : list (Element * Element))
    : list (Element * Element) :=
  match pairs with
  | [] => []
  | (link, c) :: rest =>
      if bool_decide (c ∈ seen) then first_of_each seen rest
      else (link, c) :: first_of_each (c :: seen) rest
  end.

(** The cards of a document: its containers, each with the seller link
    that leads to it first. *)
Definition cards (t : Node) (A : Attrs) : list (Element * Element) :=
  first_of_each [] (resolved t A).

(** The card's seller is in the set. *)
Definition seller_in (U : gset string) (t : Node) (A : Attrs)
    (card : Element * Element) : bool :=
  match sellerName t A card.1 with
  | Some name => bool_decide (name ∈ U)
  | None => false
  end.

(** The card's seller has a name, and it is in the set. *)
Definition named_seller_in (U : gset string) (t : Node) (A : Attrs)
    (card : Element * Element) : bool :=
  match sellerName t A card.1 with
  | Some name => negb (bool_decide (name = "")) && bool_decide (name ∈ U)
  | None => false
  end.

(** The elements of the document that carry the hidden marker. *)
Definition hidden (s : State) : list Element :=
  filter (λ e, hasAttribute (attrs s) e "data-filtered") (elements (tree s)).


End Spec.

(** ** Documents and states used as examples *)

Module Sample.
Import Dom Engine.

(** A product card: a container holding a listing link with an image
    and a seller link with the seller's name. *)
Definition card (base : nat) (seller : string) : Node :=
  Elem base "div"
    [ Elem (base + 1) "a" [Elem (base + 2) "img" []];
      Elem (base + 3) "a" [Elem (base + 4) "span" [Text seller]] ].

Definition card_attrs (base : nat) : list (nat * string * string) :=
  [ (base, "class", "fabkit-Stack-root fabkit-Card");
    (base + 1, "href", "/listings/item");
    (base + 3, "href", "/sellers/profile");
    (base + 4, "class", "fabkit-Typography-ellipsisWrapper") ].

Definition page (cards : list Node) : Node :=
  Elem 0 "html" [Elem 1 "body" cards].

(** Three cards, of alice, bob and carol. *)
Definition three_cards : Node :=
  page [card 10 " alice "; card 20 "bob"; card 30 "carol"].
Definition three_cards_attrs : gmap (nat * string) string :=
  list_to_map (card_attrs 10 ++ card_attrs 20 ++ card_attrs 30).

(** One card whose seller name is blank. *)
Definition blank_card : Node := page [card 10 "  "].
Definition blank_card_attrs : gmap (nat * string) string :=
  list_to_map (card_attrs 10).

(** A card whose seller link lies eleven levels deep: ten nested
    containers without a listing link or an image, the third a stack, the
    fourth to the tenth stack containers, inside a stack container that
    also holds the listing link and the image. *)
Fixpoint nest (depth base : nat) (inner : Node) : Node :=
  match depth with
  | 0 => inner
  | S d => Elem (base + depth) "div" [nest d base inner]
  end.

Definition deep_card : Node :=
  page [ Elem 200 "div"
           [ Elem 201 "a" [Elem 202 "img" []];
             nest 10 100 (Elem 13 "a" [Elem 14 "span" [Text "dave"]]) ] ].

Definition deep_card_attrs : gmap (nat * string) string :=
  list_to_map
    ([ (200, "class", "fabkit-Stack-root"); (201, "href", "/listings/item");
       (13, "href", "/sellers/profile");
       (14, "class", "fabkit-Typography-ellipsisWrapper");
       (103, "class", "fabkit-Stack-column") ]
     ++ ((λ e, (e, "class", "fabkit-Stack-root")) <$> seq 104 7)).

Definition updateFilters (usernames : list string) : Js.Value :=
  Js.Obj [("action", Js.Str "updateFilters");
          ("usernames", Js.Arr (Js.Str <$> usernames))].

Definition updateShowCount (flag : bool) : Js.Value :=
  Js.Obj [("action", Js.Str "updateShowCount"); ("showCount", Js.Bool flag)].

(** Five more cards, which the page adds one by one, 20 ms apart. *)
Definition more_cards : list (nat * string) :=
  [(40, "bob"); (50, "dan"); (60, "bob"); (70, "eve"); (80, "bob")].

Definition grown (n : nat) : Node :=
  page ([card 10 " alice "; card 20 "bob"; card 30 "carol"]
        ++ ((λ c, card c.1 c.2) <$> take n more_cards)).

Definition grown_attrs (A : gmap (nat * string) string) : gmap (nat * string) string :=
  list_to_map (flat_map (λ c, card_attrs c.1) more_cards) ∪ A.


(** A seller link outside any card, inside two nested containers that
    the page adds one after the other. *)
Definition lone_link : Node :=
  page [Elem 5 "div" [Elem 7 "div" [Elem 6 "a" [Text "seller"]]]].
Definition lone_link_attrs : gmap (nat * string) string :=
  list_to_map [((6, "href"), "/sellers/profile")].
Definition lone_link_records : list MutationRecord :=
  [ {| mtype := "childList"; addedNodes := [ElementNode 5] |};
    {| mtype := "childList"; addedNodes := [ElementNode 7] |} ].

End Sample.

(** ** Notions the proofs share *)

Module Frame.
Import Dom Engine.

(** Two attribute tables that differ on marker attributes only. *)
Definition same_page_attrs (A A' : Attrs) : Prop :=
  ∀ e k, ¬ marker k → A !! (e, k) = A' !! (e, k).

(** A selector that reads no marker attribute. *)
Definition page_selector (sel : Selector) : Prop :=
  match sel_attr sel with
  | Some (k, _, _) => ¬ marker k
  | None => True
  end.

(** The fields that neither discovery nor the filter touches. *)
Definition rest_view (s : State) :=
  (tree s, runtime_ok s, clock s, timers s, next_timer s, frames s, outbox s,
   console s, live s, filteredUsernames s, showBlockedCount s, rm_timers s,
   pendingMutations s, mutationTimeout s).

(** The loop of findElementsInNode over a list of links. *)
Definition discover (links : list Element) (s : State)
    : list (Element * Element) * State :=
  foldl scanLink ([], s) links.

(** The pair of a link and the container it resolves to. *)
Definition resolution (t : Node) (A : Attrs) (link : Element)
    : option (Element * Element) :=
  pair link <$> findItemContainer t A link.

(** Every element that carries the hidden marker also carries the seen
    marker, with the value the engine writes. *)
Definition hidden_are_seen (A : Attrs) : Prop :=
  ∀ e, hasAttribute A e "data-filtered" = true →
       A !! (e, "data-filtered-processed") = Some "true".

(** What discovery does from a state [s]: the pairs it hands out and the
    state it leaves. *)
Record discovery (s : State) (els : list (Element * Element)) (s' : State)
    : Prop := {
  disc_rest : rest_view s' = rest_view s;
  disc_count : blockedCount s' = blockedCount s;
  disc_attrs : ∀ e k,
    attrs s' !! (e, k)
    = if bool_decide (k = "data-filtered-processed" ∧ e ∈ els.*2)
      then Some "true" else attrs s !! (e, k);
  disc_nodup : NoDup els.*2;
  disc_fresh : ∀ p, p ∈ els.*2 →
    hasAttribute (attrs s) p "data-filtered-processed" = false;
  disc_found : ∀ l p, (l, p) ∈ els →
    findItemContainer (tree s) (attrs s) l = Some p;
  disc_processed :
    processedElements s' = list_to_set els.*1 ∪ processedElements s
}.

(** filterElement hides the container of this pair. *)
Definition hides (s : State) (el : Element * Element) : bool :=
  Spec.named_seller_in (filteredUsernames s) (tree s) (attrs s) el.

(** The fields the count of hidden elements is about. *)
Definition core_view (s : State) := (tree s, attrs s, blockedCount s).

(** The count is the number of hidden elements of the document: the
    invariant, with what makes it inductive. *)
Definition counted (s : State) : Prop :=
  NoDup (elements (tree s))
  ∧ hidden_are_seen (attrs s)
  ∧ (∀ e, hasAttribute (attrs s) e "data-filtered" = true → e ∈ elements (tree s))
  ∧ blockedCount s = Z.of_nat (length (Spec.hidden s)).

(** The count is not negative: the invariant, with what makes it
    inductive. *)
Definition not_negative (s : State) : Prop :=
  hidden_are_seen (attrs s) ∧ (0 ≤ blockedCount s)%Z.

(** Every marker attribute has the value the engine writes. *)
Definition markers_true (A : Attrs) : Prop :=
  ∀ e k v, marker k → A !! (e, k) = Some v → v = "true".

(** The events discovery leaves. *)
Definition scan_event (ev : Event) : Prop :=
  match ev with
  | Resolve _ | Yield _ _ => True
  | _ => False
  end.


(** The fields the history of resolutions is about. *)
Definition engine_view (s : State) :=
  (tree s, attrs s, blockedCount s, processedElements s, trace s).

(** A history in which, between two resets, no link is resolved after it
    was handed out and no container is handed out twice; with what makes
    it inductive: a link handed out since the last reset is processed, and
    a container handed out since then carries the seen marker. *)
Definition traced (tr : list Event) (P : gset nat) (A : Attrs) : Prop :=
  (∀ tr1 l p tr2 tr3,
     tr = tr1 ++ Yield l p :: tr2 ++ Resolve l :: tr3 → Reset ∈ tr2)
  ∧ (∀ tr1 l p tr2 l' tr3,
       tr = tr1 ++ Yield l p :: tr2 ++ Yield l' p :: tr3 → Reset ∈ tr2)
  ∧ (∀ tr1 l p tr2, tr = tr1 ++ Yield l p :: tr2 → Reset ∉ tr2 → l ∈ P)
  ∧ (∀ tr1 l p tr2,
       tr = tr1 ++ Yield l p :: tr2 → Reset ∉ tr2 →
       hasAttribute A p "data-filtered-processed" = true).

Definition traced_state (s : State) : Prop :=
  traced (trace s) (processedElements s) (attrs s).

#[export] Instance BadgeMessage_eq_dec : EqDecision BadgeMessage.
Proof. solve_decision. Defined.

#[export] Instance Event_eq_dec : EqDecision Event.
Proof. solve_decision. Defined.

#[export] Instance marker_dec (k : string) : Decision (marker k).
Proof. unfold marker. apply _. Defined.

(** No attribute of the list is a marker attribute. *)
Definition page_attrs_only (l : list (nat * string * string)) : bool :=
  forallb (λ x, negb (bool_decide (marker x.1.2))) l.

End Frame.

(** ** More of the content script *)

Module Script.
Import Dom Engine.

(** injectStyles: the rule of the style element it appends to the head,
    [[data-filtered="true"] { display: none !important; }]. *)
Definition hiddenRule : Selector * (string * string) :=
  (filteredSelector, ("display", "none !important")).

(** The elements of the document the rule applies to. *)
Definition ruled_out (s : State) : list Element :=
  querySelectorAll (tree s) (attrs s) Document hiddenRule.1.

(** The debounce is in order: no timeout is pending, or one, which is the
    one mutationTimeout names, is due within 100 ms and is in the resource
    manager's list; and the pending set holds no node twice. *)
Definition debounce_in_order (s : State) : Prop :=
  (timers s = []
   ∨ ∃ id due, timers s = [(id, due)] ∧ mutationTimeout s = Some id
               ∧ due ≤ clock s + 100 ∧ id ∈ rm_timers s)
  ∧ NoDup (pendingMutations s).

(** What the debounce reads and writes. *)
Definition debounce_view (s : State) :=
  (clock s, timers s, next_timer s, rm_timers s, mutationTimeout s,
   pendingMutations s).

(** A record that adds no element. *)
Definition adds_no_element (mutation : MutationRecord) : Prop :=
  mtype mutation ≠ "childList"
  ∨ ∀ e, ElementNode e ∉ addedNodes mutation.

(** What sendMessageSafely reads and writes. *)
Definition silent_view (s : State) := (runtime_ok s, outbox s).

(** A link that discovery has settled: it is processed, or it resolves to
    no container, or to one that carries the seen marker. *)
Definition settled (s : State) (link : Element) : Prop :=
  link ∈ processedElements s
  ∨ findItemContainer (tree s) (attrs s) link = None
  ∨ ∃ p, findItemContainer (tree s) (attrs s) link = Some p
         ∧ hasAttribute (attrs s) p "data-filtered-processed" = true.

(** What a scan can change besides the history. *)
Definition scan_view (s : State) :=
  (Frame.rest_view s, attrs s, blockedCount s, processedElements s).

End Script.

(** ** The browser's tabs *)

Module Chrome.

(** A tab as the extension sees it: its identifier, and its URL when the
    extension may read it. *)
Record Tab := { id : nat; url : option string }.

(** [url?.includes(part)], as a condition. *)
Definition url_includes (tab : Tab) (part : string) : bool :=
  match url tab with
  | Some u => Str.includes u part
  | None => false
  end.

End Chrome.

(** ** The background script: the badge of each tab *)

Module Background.
Import Chrome.

(** A call of chrome.action, with the text or colour and the tabId given. *)
Inductive Call :=
| SetBadgeText (text : Js.Value) (tabId : option nat)
| SetBadgeBackgroundColor (color : Js.Value) (tabId : option nat).

Record State := {
  tabBadgeStates : gmap nat (Js.Value * Js.Value);   (* tabId to { text, color } *)
  calls : list Call;                                 (* calls of chrome.action, oldest first *)
  console : list string                              (* console.error lines *)
}.

Definition set_tabBadgeStates (v : gmap nat (Js.Value * Js.Value)) (s : State) : State :=
  {| tabBadgeStates := v; calls := calls s; console := console s |}.
Definition call (c : Call) (s : State) : State :=
  {| tabBadgeStates := tabBadgeStates s; calls := calls s ++ [c];
     console := console s |}.
Definition console_error (line : string) (s : State) : State :=
  {| tabBadgeStates := tabBadgeStates s; calls := calls s;
     console := console s ++ [line] |}.

(** The script as it is loaded: no tab known, nothing called. *)
Definition loaded : State :=
  {| tabBadgeStates := ∅; calls := []; console := [] |}.

(** [MessageValidator.validate]: true, or [inl] of the message of the
    error thrown. *)
Definition validate (message : Js.Value) : string + bool :=
  let allowedActions := ["updateBadge"] in
  if negb (Js.truthy message) || negb (bool_decide (Js.typeof message = "object"))
  then inl "Invalid message format"
  else if negb (Js.includes allowedActions (Js.prop message "action"))
  then inl "Invalid action"
  else if Js.is_str (Js.prop message "action") "updateBadge" then
    if negb (bool_decide (Js.typeof (Js.prop message "text") = "string"))
    then inl "Invalid badge text"
    else if Js.truthy (Js.prop message "color")
            && negb (bool_decide (Js.typeof (Js.prop message "color") = "string"))
    then inl "Invalid badge color"
    else inr true
  else inr true.

Definition updateBadgeForTab (tabId : nat) (text color : Js.Value) (s : State) : State :=
  let s := set_tabBadgeStates (<[tabId := (text, color)]> (tabBadgeStates s)) s in
  let s := call (SetBadgeText text (Some tabId)) s in
  if Js.truthy color then call (SetBadgeBackgroundColor color (Some tabId)) s
  else s.

(** The listener of chrome.runtime.onMessage; [sender] is sender.tab. *)
Definition onMessage (message : Js.Value) (sender : option Tab) (s : State) : State :=
  match validate message with
  | inl error => console_error ("Invalid message received: " +:+ error) s
  | inr _ =>
      match sender with
      | Some tab =>
          if Js.is_str (Js.prop message "action") "updateBadge"
          then updateBadgeForTab (id tab) (Js.prop message "text")
                 (Js.prop message "color") s
          else s
      | None => s
      end
  end.

(** The listener of chrome.tabs.onRemoved. *)
Definition onRemoved (tabId : nat) (s : State) : State :=
  set_tabBadgeStates (delete tabId (tabBadgeStates s)) s.

(** The listener of chrome.tabs.onUpdated; [status] is changeInfo.status. *)
Definition onUpdated (tabId : nat) (status : option string) (tab : Tab) (s : State)
    : State :=
  if bool_decide (status = Some "loading") && negb (url_includes tab "fab.com")
  then set_tabBadgeStates (delete tabId (tabBadgeStates s))
         (call (SetBadgeText (Js.Str "") (Some tabId)) s)
  else s.

(** The listener of chrome.runtime.onInstalled. *)
Definition onInstalled (s : State) : State :=
  call (SetBadgeBackgroundColor (Js.Str "#f44336") None) s.

(** What the browser tells the script. *)
Inductive Event :=
| Message (message : Js.Value) (sender : option Tab)
| Removed (tabId : nat)
| Updated (tabId : nat) (status : option string) (tab : Tab)
| Installed.

Definition handle (s : State) (ev : Event) : State :=
  match ev with
  | Message message sender => onMessage message sender s
  | Removed tabId => onRemoved tabId s
  | Updated tabId status tab => onUpdated tabId status tab s
  | Installed => onInstalled s
  end.

Definition run (events : list Event) : State := foldl handle loaded events.

(** The object updateBadge of the content script gives sendMessageSafely. *)
Definition badge_value (m : Engine.BadgeMessage) : Js.Value :=
  Js.Obj [("action", Js.Str "updateBadge"); ("text", Js.Str (Engine.text m));
          ("color", Js.Str (Engine.color m))].

(** The text of the last setBadgeText for a tab, and the colour of the
    last setBadgeBackgroundColor for it. *)
Definition text_calls (tabId : nat) (l : list Call) : list Js.Value :=
  omap (λ c, match c with
             | SetBadgeText text (Some i) =>
                 if bool_decide (i = tabId) then Some text else None
             | _ => None
             end) l.
Definition color_calls (tabId : nat) (l : list Call) : list Js.Value :=
  omap (λ c, match c with
             | SetBadgeBackgroundColor color (Some i) =>
                 if bool_decide (i = tabId) then Some color else None
             | _ => None
             end) l.

(** The shapes the validator is written for: an object whose action is
    updateBadge, whose text is a string and whose color, if it is not
    falsy, is a string. *)
Definition recognized (message : Js.Value) : bool :=
  match message with
  | Js.Obj fields =>
      Js.is_str (Js.assoc "action" fields) "updateBadge"
      && match Js.assoc "text" fields with Js.Str _ => true | _ => false end
      && match Js.assoc "color" fields with
         | Js.Str _ => true
         | color => negb (Js.truthy color)
         end
  | _ => false
  end.

(** A call chrome.action accepts: the text a string, the colour a string
    that is not empty. *)
Definition well_typed (c : Call) : Prop :=
  match c with
  | SetBadgeText (Js.Str _) _ => True
  | SetBadgeBackgroundColor (Js.Str color) _ => color ≠ ""
  | _ => False
  end.

End Background.

(** ** The popup *)

Module Popup.
Import Chrome.

(** *** InputValidator *)

(** The characters of the class [[a-zA-Z0-9_\-\. ]]. *)
Definition validChar (a : Ascii.ascii) : bool :=
  let n := nat_of_ascii a in
  bool_decide (97 ≤ n ≤ 122 ∨ 65 ≤ n ≤ 90 ∨ 48 ≤ n ≤ 57
               ∨ n = 95 ∨ n = 45 ∨ n = 46 ∨ n = 32)%nat.

Fixpoint every (P : Ascii.ascii → bool) (s : string) : bool :=
  match s with
  | String a s' => P a && every P s'
  | EmptyString => true
  end.

(** [/^[a-zA-Z0-9_\-\. ]+$/.test(s)] *)
Definition validPattern (s : string) : bool :=
  negb (bool_decide (s = "")) && every validChar s.

(** [sanitizeUsername]: the sanitized name, or [inl] of the message of
    the error thrown. *)
Definition sanitizeUsername (username : Js.Value) : string + string :=
  match username with
  | Js.Str username =>
      let username := Str.trim username in
      if bool_decide (username = "") then inl "Username cannot be empty"
      else
        let maxLength := 100 in
        if bool_decide (maxLength < String.length username)
        then inl ("Username cannot exceed " +:+ Str.decimal (Z.of_nat maxLength)
                  +:+ " characters")
        else if negb (validPattern username)
        then inl "Username can only contain letters, numbers, underscores, hyphens, spaces, and dots"
        else inr username
  | _ => inl "Username must be a string"
  end.

(** [array.map(f)] for an [f] that may throw: the first error leaves. *)
Fixpoint map_throwing {X Y} (f : X → string + Y) (l : list X) : string + list Y :=
  match l with
  | [] => inr []
  | x :: l' =>
      match f x with
      | inl error => inl error
      | inr y =>
          match map_throwing f l' with
          | inl error => inl error
          | inr ys => inr (y :: ys)
          end
      end
  end.

(** [sanitizeJSON] on what JSON.parse made of the text, [None] when it
    threw a SyntaxError. The result is the usernames field of the object
    returned, or [inl] of the message of the error thrown. *)
Definition sanitizeJSON (parsed : option Js.Value) : string + list string :=
  match parsed with
  | None => inl "Invalid JSON format"
  | Some parsed =>
      if negb (Js.truthy parsed) || negb (bool_decide (Js.typeof parsed = "object"))
      then inl "Invalid JSON structure"
      else
        match Js.prop parsed "usernames" with
        | Js.Arr usernames =>
            map_throwing sanitizeUsername
              (filter (λ u, Js.typeof u = "string") usernames)
        | _ => inl "JSON must contain a usernames array"
        end
  end.

(** *** The popup's page, the browser, and the script's variables *)

(** The function a timeout runs: the one showStatus gives, or the one
    exportList gives. *)
Inductive Callback := HideStatus | RevokeObjectURL (url : nat).

(** A download: the object URL, the file name, and the value whose JSON
    text (JSON.stringify with an indentation of 2) the blob holds. *)
Record Download := { href : nat; download : string; content : Js.Value }.

Record State := {
  stored_usernames : option (list string); (* chrome.storage.sync: filteredUsernames *)
  stored_showCount : option bool;          (* chrome.storage.sync: showBlockedCount *)
  get_error : option string;               (* the error storage.sync.get rejects with, if it does *)
  set_error : option string;               (* the error storage.sync.set rejects with, if it does *)
  query_error : option string;             (* the error tabs.query rejects with, if it does *)
  send_error : option string;              (* the error tabs.sendMessage rejects with, if it does *)
  runtime_ok : bool;                       (* chrome.runtime?.id is set *)
  active_tab : option Tab;                 (* the active tab of the current window *)
  today : string;                          (* new Date().toISOString().split('T')[0] *)
  sent : list (nat * Js.Value);            (* calls of chrome.tabs.sendMessage: tab id, message *)
  downloads : list Download;               (* the downloads started *)
  object_urls : list nat;                  (* the object URLs created and not revoked *)
  next_url : nat;                          (* the next object URL *)
  usernameInput : string;                  (* usernameInput.value *)
  inputError : string;                     (* inputError.textContent *)
  usernameList : list string;              (* the items of usernameList, by the username of each *)
  usernameCount : string;                  (* usernameCount.textContent *)
  emptyMessage_show : bool;                (* emptyMessage has the class show *)
  showCountCheckbox : bool;                (* showCountCheckbox.checked *)
  fileInput : string;                      (* fileInput.value *)
  status_text : string;                    (* status.textContent *)
  status_class : string;                   (* status.className *)
  statusTimer : option nat;                (* statusTimer *)
  clock : nat;                             (* milliseconds *)
  timers : list (nat * nat * Callback);    (* pending timeouts: identifier, due time, function *)
  next_timer : nat;                        (* identifier of the next timeout *)
  rm_timers : list nat;                    (* resourceManager.timers *)
  console : list string                    (* console.error lines *)
}.

Definition set_stored_usernames (v : option (list string)) (s : State)
    : State :=
  {| stored_usernames := v; stored_showCount := stored_showCount s;
     get_error := get_error s; set_error := set_error s;
     query_error := query_error s; send_error := send_error s;
     runtime_ok := runtime_ok s; active_tab := active_tab s; today := today s;
     sent := sent s; downloads := downloads s; object_urls := object_urls s;
     next_url := next_url s; usernameInput := usernameInput s;
     inputError := inputError s; usernameList := usernameList s;
     usernameCount := usernameCount s;
     emptyMessage_show := emptyMessage_show s;
     showCountCheckbox := showCountCheckbox s; fileInput := fileInput s;
     status_text := status_text s; status_class := status_class s;
     statusTimer := statusTimer s; clock := clock s; timers := timers s;
     next_timer := next_timer s; rm_timers := rm_timers s;
     console := console s |}.
Definition set_stored_showCount (v : option bool) (s : State) : State :=
  {| stored_usernames := stored_usernames s; stored_showCount := v;
     get_error := get_error s; set_error := set_error s;
     query_error := query_error s; send_error := send_error s;
     runtime_ok := runtime_ok s; active_tab := active_tab s; today := today s;
     sent := sent s; downloads := downloads s; object_urls := object_urls s;
     next_url := next_url s; usernameInput := usernameInput s;
     inputError := inputError s; usernameList := usernameList s;
     usernameCount := usernameCount s;
     emptyMessage_show := emptyMessage_show s;
     showCountCheckbox := showCountCheckbox s; fileInput := fileInput s;
     status_text := status_text s; status_class := status_class s;
     statusTimer := statusTimer s; clock := clock s; timers := timers s;
     next_timer := next_timer s; rm_timers := rm_timers s;
     console := console s |}.
Definition set_get_error (v : option string) (s : State) : State :=
  {| stored_usernames := stored_usernames s;
     stored_showCount := stored_showCount s; get_error := v;
     set_error := set_error s; query_error := query_error s;
     send_error := send_error s; runtime_ok := runtime_ok s;
     active_tab := active_tab s; today := today s; sent := sent s;
     downloads := downloads s; object_urls := object_urls s;
     next_url := next_url s; usernameInput := usernameInput s;
     inputError := inputError s; usernameList := usernameList s;
     usernameCount := usernameCount s;
     emptyMessage_show := emptyMessage_show s;
     showCountCheckbox := showCountCheckbox s; fileInput := fileInput s;
     status_text := status_text s; status_class := status_class s;
     statusTimer := statusTimer s; clock := clock s; timers := timers s;
     next_timer := next_timer s; rm_timers := rm_timers s;
     console := console s |}.
Definition set_set_error (v : option string) (s : State) : State :=
  {| stored_usernames := stored_usernames s;
     stored_showCount := stored_showCount s; get_error := get_error s;
     set_error := v; query_error := query_error s; send_error := send_error s;
     runtime_ok := runtime_ok s; active_tab := active_tab s; today := today s;
     sent := sent s; downloads := downloads s; object_urls := object_urls s;
     next_url := next_url s; usernameInput := usernameInput s;
     inputError := inputError s; usernameList := usernameList s;
     usernameCount := usernameCount s;
     emptyMessage_show := emptyMessage_show s;
     showCountCheckbox := showCountCheckbox s; fileInput := fileInput s;
     status_text := status_text s; status_class := status_class s;
     statusTimer := statusTimer s; clock := clock s; timers := timers s;
     next_timer := next_timer s; rm_timers := rm_timers s;
     console := console s |}.
Definition set_query_error (v : option string) (s : State) : State :=
  {| stored_usernames := stored_usernames s;
     stored_showCount := stored_showCount s; get_error := get_error s;
     set_error := set_error s; query_error := v; send_error := send_error s;
     runtime_ok := runtime_ok s; active_tab := active_tab s; today := today s;
     sent := sent s; downloads := downloads s; object_urls := object_urls s;
     next_url := next_url s; usernameInput := usernameInput s;
     inputError := inputError s; usernameList := usernameList s;
     usernameCount := usernameCount s;
     emptyMessage_show := emptyMessage_show s;
     showCountCheckbox := showCountCheckbox s; fileInput := fileInput s;
     status_text := status_text s; status_class := status_class s;
     statusTimer := statusTimer s; clock := clock s; timers := timers s;
     next_timer := next_timer s; rm_timers := rm_timers s;
     console := console s |}.
Definition set_send_error (v : option string) (s : State) : State :=
  {| stored_usernames := stored_usernames s;
     stored_showCount := stored_showCount s; get_error := get_error s;
     set_error := set_error s; query_error := query_error s; send_error := v;
     runtime_ok := runtime_ok s; active_tab := active_tab s; today := today s;
     sent := sent s; downloads := downloads s; object_urls := object_urls s;
     next_url := next_url s; usernameInput := usernameInput s;
     inputError := inputError s; usernameList := usernameList s;
     usernameCount := usernameCount s;
     emptyMessage_show := emptyMessage_show s;
     showCountCheckbox := showCountCheckbox s; fileInput := fileInput s;
     status_text := status_text s; status_class := status_class s;
     statusTimer := statusTimer s; clock := clock s; timers := timers s;
     next_timer := next_timer s; rm_timers := rm_timers s;
     console := console s |}.
Definition set_runtime_ok (v : bool) (s : State) : State :=
  {| stored_usernames := stored_usernames s;
     stored_showCount := stored_showCount s; get_error := get_error s;
     set_error := set_error s; query_error := query_error s;
     send_error := send_error s; runtime_ok := v; active_tab := active_tab s;
     today := today s; sent := sent s; downloads := downloads s;
     object_urls := object_urls s; next_url := next_url s;
     usernameInput := usernameInput s; inputError := inputError s;
     usernameList := usernameList s; usernameCount := usernameCount s;
     emptyMessage_show := emptyMessage_show s;
     showCountCheckbox := showCountCheckbox s; fileInput := fileInput s;
     status_text := status_text s; status_class := status_class s;
     statusTimer := statusTimer s; clock := clock s; timers := timers s;
     next_timer := next_timer s; rm_timers := rm_timers s;
     console := console s |}.
Definition set_active_tab (v : option Tab) (s : State) : State :=
  {| stored_usernames := stored_usernames s;
     stored_showCount := stored_showCount s; get_error := get_error s;
     set_error := set_error s; query_error := query_error s;
     send_error := send_error s; runtime_ok := runtime_ok s; active_tab := v;
     today := today s; sent := sent s; downloads := downloads s;
     object_urls := object_urls s; next_url := next_url s;
     usernameInput := usernameInput s; inputError := inputError s;
     usernameList := usernameList s; usernameCount := usernameCount s;
     emptyMessage_show := emptyMessage_show s;
     showCountCheckbox := showCountCheckbox s; fileInput := fileInput s;
     status_text := status_text s; status_class := status_class s;
     statusTimer := statusTimer s; clock := clock s; timers := timers s;
     next_timer := next_timer s; rm_timers := rm_timers s;
     console := console s |}.
Definition set_today (v : string) (s : State) : State :=
  {| stored_usernames := stored_usernames s;
     stored_showCount := stored_showCount s; get_error := get_error s;
     set_error := set_error s; query_error := query_error s;
     send_error := send_error s; runtime_ok := runtime_ok s;
     active_tab := active_tab s; today := v; sent := sent s;
     downloads := downloads s; object_urls := object_urls s;
     next_url := next_url s; usernameInput := usernameInput s;
     inputError := inputError s; usernameList := usernameList s;
     usernameCount := usernameCount s;
     emptyMessage_show := emptyMessage_show s;
     showCountCheckbox := showCountCheckbox s; fileInput := fileInput s;
     status_text := status_text s; status_class := status_class s;
     statusTimer := statusTimer s; clock := clock s; timers := timers s;
     next_timer := next_timer s; rm_timers := rm_timers s;
     console := console s |}.
Definition set_sent (v : list (nat * Js.Value)) (s : State) : State :=
  {| stored_usernames := stored_usernames s;
     stored_showCount := stored_showCount s; get_error := get_error s;
     set_error := set_error s; query_error := query_error s;
     send_error := send_error s; runtime_ok := runtime_ok s;
     active_tab := active_tab s; today := today s; sent := v;
     downloads := downloads s; object_urls := object_urls s;
     next_url := next_url s; usernameInput := usernameInput s;
     inputError := inputError s; usernameList := usernameList s;
     usernameCount := usernameCount s;
     emptyMessage_show := emptyMessage_show s;
     showCountCheckbox := showCountCheckbox s; fileInput := fileInput s;
     status_text := status_text s; status_class := status_class s;
     statusTimer := statusTimer s; clock := clock s; timers := timers s;
     next_timer := next_timer s; rm_timers := rm_timers s;
     console := console s |}.
Definition set_downloads (v : list Download) (s : State) : State :=
  {| stored_usernames := stored_usernames s;
     stored_showCount := stored_showCount s; get_error := get_error s;
     set_error := set_error s; query_error := query_error s;
     send_error := send_error s; runtime_ok := runtime_ok s;
     active_tab := active_tab s; today := today s; sent := sent s;
     downloads := v; object_urls := object_urls s; next_url := next_url s;
     usernameInput := usernameInput s; inputError := inputError s;
     usernameList := usernameList s; usernameCount := usernameCount s;
     emptyMessage_show := emptyMessage_show s;
     showCountCheckbox := showCountCheckbox s; fileInput := fileInput s;
     status_text := status_text s; status_class := status_class s;
     statusTimer := statusTimer s; clock := clock s; timers := timers s;
     next_timer := next_timer s; rm_timers := rm_timers s;
     console := console s |}.
Definition set_object_urls (v : list nat) (s : State) : State :=
  {| stored_usernames := stored_usernames s;
     stored_showCount := stored_showCount s; get_error := get_error s;
     set_error := set_error s; query_error := query_error s;
     send_error := send_error s; runtime_ok := runtime_ok s;
     active_tab := active_tab s; today := today s; sent := sent s;
     downloads := downloads s; object_urls := v; next_url := next_url s;
     usernameInput := usernameInput s; inputError := inputError s;
     usernameList := usernameList s; usernameCount := usernameCount s;
     emptyMessage_show := emptyMessage_show s;
     showCountCheckbox := showCountCheckbox s; fileInput := fileInput s;
     status_text := status_text s; status_class := status_class s;
     statusTimer := statusTimer s; clock := clock s; timers := timers s;
     next_timer := next_timer s; rm_timers := rm_timers s;
     console := console s |}.
Definition set_next_url (v : nat) (s : State) : State :=
  {| stored_usernames := stored_usernames s;
     stored_showCount := stored_showCount s; get_error := get_error s;
     set_error := set_error s; query_error := query_error s;
     send_error := send_error s; runtime_ok := runtime_ok s;
     active_tab := active_tab s; today := today s; sent := sent s;
     downloads := downloads s; object_urls := object_urls s; next_url := v;
     usernameInput := usernameInput s; inputError := inputError s;
     usernameList := usernameList s; usernameCount := usernameCount s;
     emptyMessage_show := emptyMessage_show s;
     showCountCheckbox := showCountCheckbox s; fileInput := fileInput s;
     status_text := status_text s; status_class := status_class s;
     statusTimer := statusTimer s; clock := clock s; timers := timers s;
     next_timer := next_timer s; rm_timers := rm_timers s;
     console := console s |}.
Definition set_usernameInput (v : string) (s : State) : State :=
  {| stored_usernames := stored_usernames s;
     stored_showCount := stored_showCount s; get_error := get_error s;
     set_error := set_error s; query_error := query_error s;
     send_error := send_error s; runtime_ok := runtime_ok s;
     active_tab := active_tab s; today := today s; sent := sent s;
     downloads := downloads s; object_urls := object_urls s;
     next_url := next_url s; usernameInput := v; inputError := inputError s;
     usernameList := usernameList s; usernameCount := usernameCount s;
     emptyMessage_show := emptyMessage_show s;
     showCountCheckbox := showCountCheckbox s; fileInput := fileInput s;
     status_text := status_text s; status_class := status_class s;
     statusTimer := statusTimer s; clock := clock s; timers := timers s;
     next_timer := next_timer s; rm_timers := rm_timers s;
     console := console s |}.
Definition set_inputError (v : string) (s : State) : State :=
  {| stored_usernames := stored_usernames s;
     stored_showCount := stored_showCount s; get_error := get_error s;
     set_error := set_error s; query_error := query_error s;
     send_error := send_error s; runtime_ok := runtime_ok s;
     active_tab := active_tab s; today := today s; sent := sent s;
     downloads := downloads s; object_urls := object_urls s;
     next_url := next_url s; usernameInput := usernameInput s;
     inputError := v; usernameList := usernameList s;
     usernameCount := usernameCount s;
     emptyMessage_show := emptyMessage_show s;
     showCountCheckbox := showCountCheckbox s; fileInput := fileInput s;
     status_text := status_text s; status_class := status_class s;
     statusTimer := statusTimer s; clock := clock s; timers := timers s;
     next_timer := next_timer s; rm_timers := rm_timers s;
     console := console s |}.
Definition set_usernameList (v : list string) (s : State) : State :=
  {| stored_usernames := stored_usernames s;
     stored_showCount := stored_showCount s; get_error := get_error s;
     set_error := set_error s; query_error := query_error s;
     send_error := send_error s; runtime_ok := runtime_ok s;
     active_tab := active_tab s; today := today s; sent := sent s;
     downloads := downloads s; object_urls := object_urls s;
     next_url := next_url s; usernameInput := usernameInput s;
     inputError := inputError s; usernameList := v;
     usernameCount := usernameCount s;
     emptyMessage_show := emptyMessage_show s;
     showCountCheckbox := showCountCheckbox s; fileInput := fileInput s;
     status_text := status_text s; status_class := status_class s;
     statusTimer := statusTimer s; clock := clock s; timers := timers s;
     next_timer := next_timer s; rm_timers := rm_timers s;
     console := console s |}.
Definition set_usernameCount (v : string) (s : State) : State :=
  {| stored_usernames := stored_usernames s;
     stored_showCount := stored_showCount s; get_error := get_error s;
     set_error := set_error s; query_error := query_error s;
     send_error := send_error s; runtime_ok := runtime_ok s;
     active_tab := active_tab s; today := today s; sent := sent s;
     downloads := downloads s; object_urls := object_urls s;
     next_url := next_url s; usernameInput := usernameInput s;
     inputError := inputError s; usernameList := usernameList s;
     usernameCount := v; emptyMessage_show := emptyMessage_show s;
     showCountCheckbox := showCountCheckbox s; fileInput := fileInput s;
     status_text := status_text s; status_class := status_class s;
     statusTimer := statusTimer s; clock := clock s; timers := timers s;
     next_timer := next_timer s; rm_timers := rm_timers s;
     console := console s |}.
Definition set_emptyMessage_show (v : bool) (s : State) : State :=
  {| stored_usernames := stored_usernames s;
     stored_showCount := stored_showCount s; get_error := get_error s;
     set_error := set_error s; query_error := query_error s;
     send_error := send_error s; runtime_ok := runtime_ok s;
     active_tab := active_tab s; today := today s; sent := sent s;
     downloads := downloads s; object_urls := object_urls s;
     next_url := next_url s; usernameInput := usernameInput s;
     inputError := inputError s; usernameList := usernameList s;
     usernameCount := usernameCount s; emptyMessage_show := v;
     showCountCheckbox := showCountCheckbox s; fileInput := fileInput s;
     status_text := status_text s; status_class := status_class s;
     statusTimer := statusTimer s; clock := clock s; timers := timers s;
     next_timer := next_timer s; rm_timers := rm_timers s;
     console := console s |}.
Definition set_showCountCheckbox (v : bool) (s : State) : State :=
  {| stored_usernames := stored_usernames s;
     stored_showCount := stored_showCount s; get_error := get_error s;
     set_error := set_error s; query_error := query_error s;
     send_error := send_error s; runtime_ok := runtime_ok s;
     active_tab := active_tab s; today := today s; sent := sent s;
     downloads := downloads s; object_urls := object_urls s;
     next_url := next_url s; usernameInput := usernameInput s;
     inputError := inputError s; usernameList := usernameList s;
     usernameCount := usernameCount s;
     emptyMessage_show := emptyMessage_show s; showCountCheckbox := v;
     fileInput := fileInput s; status_text := status_text s;
     status_class := status_class s; statusTimer := statusTimer s;
     clock := clock s; timers := timers s; next_timer := next_timer s;
     rm_timers := rm_timers s; console := console s |}.
Definition set_fileInput (v : string) (s : State) : State :=
  {| stored_usernames := stored_usernames s;
     stored_showCount := stored_showCount s; get_error := get_error s;
     set_error := set_error s; query_error := query_error s;
     send_error := send_error s; runtime_ok := runtime_ok s;
     active_tab := active_tab s; today := today s; sent := sent s;
     downloads := downloads s; object_urls := object_urls s;
     next_url := next_url s; usernameInput := usernameInput s;
     inputError := inputError s; usernameList := usernameList s;
     usernameCount := usernameCount s;
     emptyMessage_show := emptyMessage_show s;
     showCountCheckbox := showCountCheckbox s; fileInput := v;
     status_text := status_text s; status_class := status_class s;
     statusTimer := statusTimer s; clock := clock s; timers := timers s;
     next_timer := next_timer s; rm_timers := rm_timers s;
     console := console s |}.
Definition set_status_text (v : string) (s : State) : State :=
  {| stored_usernames := stored_usernames s;
     stored_showCount := stored_showCount s; get_error := get_error s;
     set_error := set_error s; query_error := query_error s;
     send_error := send_error s; runtime_ok := runtime_ok s;
     active_tab := active_tab s; today := today s; sent := sent s;
     downloads := downloads s; object_urls := object_urls s;
     next_url := next_url s; usernameInput := usernameInput s;
     inputError := inputError s; usernameList := usernameList s;
     usernameCount := usernameCount s;
     emptyMessage_show := emptyMessage_show s;
     showCountCheckbox := showCountCheckbox s; fileInput := fileInput s;
     status_text := v; status_class := status_class s;
     statusTimer := statusTimer s; clock := clock s; timers := timers s;
     next_timer := next_timer s; rm_timers := rm_timers s;
     console := console s |}.
Definition set_status_class (v : string) (s : State) : State :=
  {| stored_usernames := stored_usernames s;
     stored_showCount := stored_showCount s; get_error := get_error s;
     set_error := set_error s; query_error := query_error s;
     send_error := send_error s; runtime_ok := runtime_ok s;
     active_tab := active_tab s; today := today s; sent := sent s;
     downloads := downloads s; object_urls := object_urls s;
     next_url := next_url s; usernameInput := usernameInput s;
     inputError := inputError s; usernameList := usernameList s;
     usernameCount := usernameCount s;
     emptyMessage_show := emptyMessage_show s;
     showCountCheckbox := showCountCheckbox s; fileInput := fileInput s;
     status_text := status_text s; status_class := v;
     statusTimer := statusTimer s; clock := clock s; timers := timers s;
     next_timer := next_timer s; rm_timers := rm_timers s;
     console := console s |}.
Definition set_statusTimer (v : option nat) (s : State) : State :=
  {| stored_usernames := stored_usernames s;
     stored_showCount := stored_showCount s; get_error := get_error s;
     set_error := set_error s; query_error := query_error s;
     send_error := send_error s; runtime_ok := runtime_ok s;
     active_tab := active_tab s; today := today s; sent := sent s;
     downloads := downloads s; object_urls := object_urls s;
     next_url := next_url s; usernameInput := usernameInput s;
     inputError := inputError s; usernameList := usernameList s;
     usernameCount := usernameCount s;
     emptyMessage_show := emptyMessage_show s;
     showCountCheckbox := showCountCheckbox s; fileInput := fileInput s;
     status_text := status_text s; status_class := status_class s;
     statusTimer := v; clock := clock s; timers := timers s;
     next_timer := next_timer s; rm_timers := rm_timers s;
     console := console s |}.
Definition set_clock (v : nat) (s : State) : State :=
  {| stored_usernames := stored_usernames s;
     stored_showCount := stored_showCount s; get_error := get_error s;
     set_error := set_error s; query_error := query_error s;
     send_error := send_error s; runtime_ok := runtime_ok s;
     active_tab := active_tab s; today := today s; sent := sent s;
     downloads := downloads s; object_urls := object_urls s;
     next_url := next_url s; usernameInput := usernameInput s;
     inputError := inputError s; usernameList := usernameList s;
     usernameCount := usernameCount s;
     emptyMessage_show := emptyMessage_show s;
     showCountCheckbox := showCountCheckbox s; fileInput := fileInput s;
     status_text := status_text s; status_class := status_class s;
     statusTimer := statusTimer s; clock := v; timers := timers s;
     next_timer := next_timer s; rm_timers := rm_timers s;
     console := console s |}.
Definition set_timers (v : list (nat * nat * Callback)) (s : State) : State :=
  {| stored_usernames := stored_usernames s;
     stored_showCount := stored_showCount s; get_error := get_error s;
     set_error := set_error s; query_error := query_error s;
     send_error := send_error s; runtime_ok := runtime_ok s;
     active_tab := active_tab s; today := today s; sent := sent s;
     downloads := downloads s; object_urls := object_urls s;
     next_url := next_url s; usernameInput := usernameInput s;
     inputError := inputError s; usernameList := usernameList s;
     usernameCount := usernameCount s;
     emptyMessage_show := emptyMessage_show s;
     showCountCheckbox := showCountCheckbox s; fileInput := fileInput s;
     status_text := status_text s; status_class := status_class s;
     statusTimer := statusTimer s; clock := clock s; timers := v;
     next_timer := next_timer s; rm_timers := rm_timers s;
     console := console s |}.
Definition set_next_timer (v : nat) (s : State) : State :=
  {| stored_usernames := stored_usernames s;
     stored_showCount := stored_showCount s; get_error := get_error s;
     set_error := set_error s; query_error := query_error s;
     send_error := send_error s; runtime_ok := runtime_ok s;
     active_tab := active_tab s; today := today s; sent := sent s;
     downloads := downloads s; object_urls := object_urls s;
     next_url := next_url s; usernameInput := usernameInput s;
     inputError := inputError s; usernameList := usernameList s;
     usernameCount := usernameCount s;
     emptyMessage_show := emptyMessage_show s;
     showCountCheckbox := showCountCheckbox s; fileInput := fileInput s;
     status_text := status_text s; status_class := status_class s;
     statusTimer := statusTimer s; clock := clock s; timers := timers s;
     next_timer := v; rm_timers := rm_timers s; console := console s |}.
Definition set_rm_timers (v : list nat) (s : State) : State :=
  {| stored_usernames := stored_usernames s;
     stored_showCount := stored_showCount s; get_error := get_error s;
     set_error := set_error s; query_error := query_error s;
     send_error := send_error s; runtime_ok := runtime_ok s;
     active_tab := active_tab s; today := today s; sent := sent s;
     downloads := downloads s; object_urls := object_urls s;
     next_url := next_url s; usernameInput := usernameInput s;
     inputError := inputError s; usernameList := usernameList s;
     usernameCount := usernameCount s;
     emptyMessage_show := emptyMessage_show s;
     showCountCheckbox := showCountCheckbox s; fileInput := fileInput s;
     status_text := status_text s; status_class := status_class s;
     statusTimer := statusTimer s; clock := clock s; timers := timers s;
     next_timer := next_timer s; rm_timers := v; console := console s |}.
Definition set_console (v : list string) (s : State) : State :=
  {| stored_usernames := stored_usernames s;
     stored_showCount := stored_showCount s; get_error := get_error s;
     set_error := set_error s; query_error := query_error s;
     send_error := send_error s; runtime_ok := runtime_ok s;
     active_tab := active_tab s; today := today s; sent := sent s;
     downloads := downloads s; object_urls := object_urls s;
     next_url := next_url s; usernameInput := usernameInput s;
     inputError := inputError s; usernameList := usernameList s;
     usernameCount := usernameCount s;
     emptyMessage_show := emptyMessage_show s;
     showCountCheckbox := showCountCheckbox s; fileInput := fileInput s;
     status_text := status_text s; status_class := status_class s;
     statusTimer := statusTimer s; clock := clock s; timers := timers s;
     next_timer := next_timer s; rm_timers := rm_timers s; console := v |}.

Definition console_error (line : string) (s : State) : State :=
  set_console (console s ++ [line]) s.

(** The messages to the content script. *)
Definition updateFilters (usernames : list string) : Js.Value :=
  Js.Obj [("action", Js.Str "updateFilters");
          ("usernames", Js.Arr (Js.Str <$> usernames))].
Definition updateShowCount (showCount : bool) : Js.Value :=
  Js.Obj [("action", Js.Str "updateShowCount"); ("showCount", Js.Bool showCount)].

(** [data[STORAGE_KEYS.usernames] || []] *)
Definition saved_usernames (s : State) : list string :=
  default [] (stored_usernames s).

(** *** Timeouts *)

(** [clearTimeout(id)] *)
Definition clearTimeout (id : nat) (s : State) : State :=
  set_timers (filter (λ tm, tm.1.1 ≠ id) (timers s)) s.

(** [resourceManager.setTimeout(fn, delay)] *)
Definition setTimeout (fn : Callback) (delay : nat) (s : State) : nat * State :=
  let timer := next_timer s in
  let s := set_next_timer (S timer) s in
  let s := set_timers (timers s ++ [(timer, clock s + delay, fn)]) s in
  (timer, set_rm_timers (rm_timers s ++ [timer]) s).

(** [classList.remove(tok)] on a class attribute. *)
Definition classList_remove (tok cls : string) : string :=
  String.concat " " (filter (λ t, t ≠ tok) (Str.tokens cls)).

(** *** The status line and the input error *)

Definition clearInputError (s : State) : State := set_inputError "" s.

Definition showInputError (message : string) (s : State) : State :=
  set_inputError message s.

Definition showStatus (message type : string) (s : State) : State :=
  let s := match statusTimer s with
           | Some id => if bool_decide (id = 0) then s else clearTimeout id s
           | None => s
           end in
  let s := set_status_text message s in
  let s := set_status_class ("status show " +:+ type) s in
  let '(timer, s) := setTimeout HideStatus 3000 s in
  set_statusTimer (Some timer) s.

(** What a timeout runs when it fires. *)
Definition runCallback (fn : Callback) (s : State) : State :=
  match fn with
  | HideStatus =>
      set_statusTimer None
        (set_status_class (classList_remove "show" (status_class s)) s)
  | RevokeObjectURL url =>
      set_object_urls (filter (λ u, u ≠ url) (object_urls s)) s
  end.

(** *** The list shown *)

(** [renderUsernames]: an item for each username, made by
    createUsernameElement with the username as its text and in the
    dataset of its remove button. *)
Definition renderUsernames (usernames : list string) (s : State) : State :=
  let s := set_usernameList [] s in
  let s := set_usernameCount (Str.decimal (Z.of_nat (length usernames))) s in
  if bool_decide (length usernames = 0) then set_emptyMessage_show true s
  else
    let s := set_emptyMessage_show false s in
    foldl (λ s username, set_usernameList (usernameList s ++ [username]) s)
      s usernames.

(** *** notifyContentScript *)

(** The errors the popup expects and does not report. *)
Definition expected (message : string) : bool :=
  Str.includes message "Extension context invalidated"
  || Str.includes message "Could not establish connection".

Definition notify_failed (error : string) (s : State) : State :=
  if expected error then s
  else console_error ("Failed to notify content script: " +:+ error) s.

Definition notifyContentScript (message : Js.Value) (s : State) : State :=
  if negb (Js.truthy message) || negb (bool_decide (Js.typeof message = "object"))
     || negb (Js.truthy (Js.prop message "action"))
  then notify_failed "Invalid message format" s
  else if negb (runtime_ok s) then s
  else
    match query_error s with
    | Some error => notify_failed error s
    | None =>
        match active_tab s with
        | Some tab =>
            if match url tab with
               | Some u => negb (bool_decide (u = "")) && Str.includes u "fab.com"
               | None => false
               end
            then
              let s := set_sent (sent s ++ [(id tab, message)]) s in
              match send_error s with
              | Some error => notify_failed error s
              | None => s
              end
            else s
        | None => s
        end
    end.

(** *** The handlers

    Each is taken from its first statement to its last, with no other
    handler of the popup in between. *)

Definition loadData (s : State) : State :=
  match get_error s with
  | Some error =>
      showStatus "Failed to load saved data" "error"
        (console_error ("Failed to load data: " +:+ error) s)
  | None =>
      let usernames := saved_usernames s in
      let showCount := default false (stored_showCount s) in
      renderUsernames usernames (set_showCountCheckbox showCount s)
  end.

Definition addUsername (s : State) : State :=
  let s := clearInputError s in
  match sanitizeUsername (Js.Str (usernameInput s)) with
  | inl error => showInputError error s
  | inr username =>
      match get_error s with
      | Some error => showInputError error s
      | None =>
          let usernames := saved_usernames s in
          if bool_decide (username ∈ usernames)
          then showInputError "Username already in filter list" s
          else
            let usernames := usernames ++ [username] in
            match set_error s with
            | Some error => showInputError error s
            | None =>
                let s := set_stored_usernames (Some usernames) s in
                let s := renderUsernames usernames s in
                let s := set_usernameInput "" s in
                let s := showStatus "Username added to filter" "success" s in
                notifyContentScript (updateFilters usernames) s
            end
      end
  end.

Definition handleKeyPress (key : string) (s : State) : State :=
  if bool_decide (key = "Enter") then addUsername s else s.

(** [usernames.indexOf(username)], when it is not -1. *)
Definition indexOf (usernames : list string) (username : string) : option nat :=
  fst <$> list_find (λ u, u = username) usernames.

Definition removeUsername (username : string) (s : State) : State :=
  let failed error :=
    showStatus "Failed to remove username" "error"
      (console_error ("Failed to remove username: " +:+ error) s) in
  match get_error s with
  | Some error => failed error
  | None =>
      let usernames := saved_usernames s in
      match indexOf usernames username with
      | Some index =>
          let usernames := delete index usernames in
          match set_error s with
          | Some error => failed error
          | None =>
              let s := set_stored_usernames (Some usernames) s in
              let s := renderUsernames usernames s in
              let s := showStatus "Username removed from filter" "success" s in
              notifyContentScript (updateFilters usernames) s
          end
      | None => s
      end
  end.

(** A click on the remove button of the item at [index]. *)
Definition handleRemoveClick (index : nat) (s : State) : State :=
  match usernameList s !! index with
  | Some username => removeUsername username s
  | None => s
  end.

(** [confirmed] is what confirm() returned. *)
Definition clearAll (confirmed : bool) (s : State) : State :=
  if negb confirmed then s
  else
    match set_error s with
    | Some error =>
        showStatus "Failed to clear filters" "error"
          (console_error ("Failed to clear filters: " +:+ error) s)
    | None =>
        let s := set_stored_usernames (Some []) s in
        let s := renderUsernames [] s in
        let s := showStatus "All filters cleared" "success" s in
        notifyContentScript (updateFilters []) s
    end.

(** The value exportList gives JSON.stringify. *)
Definition exportData (usernames : list string) : Js.Value :=
  Js.Obj [("usernames", Js.Arr (Js.Str <$> usernames))].

Definition exportList (s : State) : State :=
  match get_error s with
  | Some error =>
      showStatus "Failed to export filter list" "error"
        (console_error ("Failed to export: " +:+ error) s)
  | None =>
      let usernames := saved_usernames s in
      let url := next_url s in
      let s := set_next_url (S url) s in
      let s := set_object_urls (object_urls s ++ [url]) s in
      let a := {| href := url;
                  download := "fab-filter-usernames-" +:+ today s +:+ ".json";
                  content := exportData usernames |} in
      let s := set_downloads (downloads s ++ [a]) s in
      let s := (setTimeout (RevokeObjectURL url) 100 s).2 in
      showStatus "Filter list exported" "success" s
  end.

(** [[...new Set(l)]]: the members in the order they first occur. *)
Definition unique (l : list string) : list string :=
  foldl (λ seen x, if bool_decide (x ∈ seen) then seen else seen ++ [x]) [] l.

(** [file] is e.target.files[0], by what file.text() gave: [inl] of the
    error it rejected with, or what JSON.parse made of the text. *)
Definition importList (file : option (string + option Js.Value)) (s : State) : State :=
  let failed error s :=
    showStatus (if bool_decide (error = "") then "Failed to import file" else error)
      "error" (console_error ("Import error: " +:+ error) s) in
  match file with
  | None => s
  | Some text =>
      let s :=
        match text with
        | inl error => failed error s
        | inr parsed =>
            match sanitizeJSON parsed with
            | inl error => failed error s
            | inr usernames =>
                let uniqueUsernames := unique usernames in
                match set_error s with
                | Some error => failed error s
                | None =>
                    let s := set_stored_usernames (Some uniqueUsernames) s in
                    let s := renderUsernames uniqueUsernames s in
                    let s := showStatus
                               ("Imported "
                                +:+ Str.decimal (Z.of_nat (length uniqueUsernames))
                                +:+ " usernames") "success" s in
                    notifyContentScript (updateFilters uniqueUsernames) s
                end
            end
        end in
      set_fileInput "" s
  end.

Definition saveShowCountSetting (s : State) : State :=
  let showCount := showCountCheckbox s in
  match set_error s with
  | Some error =>
      showStatus "Failed to save setting" "error"
        (console_error ("Failed to save setting: " +:+ error) s)
  | None =>
      notifyContentScript (updateShowCount showCount)
        (set_stored_showCount (Some showCount) s)
  end.

(** [initialize], without the listeners setupEventListeners registers:
    what they do is in [step] below. *)
Definition initialize (s : State) : State := loadData s.

(** The script as it is loaded into a popup: no status timeout, nothing
    in the resource manager; the browser has no timeout of the page and
    its identifiers are positive; nothing was sent, downloaded or written
    to the console. The page, the store and the tabs are as they are. *)
Definition loaded (s : State) : Prop :=
  statusTimer s = None ∧ rm_timers s = [] ∧ timers s = [] ∧ 0 < next_timer s
  ∧ sent s = [] ∧ downloads s = [] ∧ object_urls s = [] ∧ console s = [].

(** *** What can happen to an open popup *)

(** A timeout fires: it leaves the table and its function runs. *)
Definition fireTimer (id : nat) (fn : Callback) (s : State) : State :=
  runCallback fn (clearTimeout id s).

Inductive step : State → State → Prop :=
| step_input s value :                  (* the user edits the input: input event *)
    step s (clearInputError (set_usernameInput value s))
| step_add s : step s (addUsername s)
| step_key s key : step s (handleKeyPress key s)
| step_remove s index : step s (handleRemoveClick index s)
| step_clear s confirmed : step s (clearAll confirmed s)
| step_export s : step s (exportList s)
| step_import s file value :            (* the user chooses a file: change event *)
    step s (importList file (set_fileInput value s))
| step_toggle s checked :               (* the user ticks the box: change event *)
    step s (saveShowCountSetting (set_showCountCheckbox checked s))
| step_tick s dt : step s (set_clock (clock s + dt) s)
| step_timer s id due fn :
    (id, due, fn) ∈ timers s → due ≤ clock s → step s (fireTimer id fn s)
| step_browser s e1 e2 e3 e4 rt tab date : (* the browser's answers change *)
    step s (set_get_error e1 (set_set_error e2 (set_query_error e3
             (set_send_error e4 (set_runtime_ok rt (set_active_tab tab
                (set_today date s))))))).

(** The states of an open popup, nothing else writing the store. *)
Inductive reachable : State → Prop :=
| reach_open s : loaded s → reachable (initialize s)
| reach_step s s' : reachable s → step s s' → reachable s'.

End Popup.

(** ** What the popup is expected to keep *)

Module Kept.
Import Popup.

(** A name the sanitizer leaves as it is. *)
Definition sanitized (name : string) : Prop :=
  sanitizeUsername (Js.Str name) = inr name.

(** A list as the popup keeps it: no name twice, every name sanitized. *)
Definition well_kept (usernames : list string) : Prop :=
  NoDup usernames ∧ Forall sanitized usernames.

(** The parts of the popup's state the proofs follow. *)
Definition store_view (s : State) := (stored_usernames s, stored_showCount s).
Definition list_view (s : State) :=
  (usernameList s, usernameCount s, emptyMessage_show s).
Definition browser_view (s : State) :=
  (get_error s, set_error s, query_error s, send_error s, runtime_ok s,
   active_tab s, today s).
Definition timer_view (s : State) :=
  (clock s, timers s, next_timer s, statusTimer s, status_class s,
   object_urls s).

(** What renderUsernames leaves of a list. *)
Definition rendered (l : list string) :=
  (l, Str.decimal (Z.of_nat (length l)), bool_decide (l = [])).

(** The list shown is the list stored. *)
Definition shows_store (s : State) : Prop :=
  list_view s = rendered (saved_usernames s).

(** The tab a message of the popup goes to: the active tab, when the
    extension context is valid, the tab can be asked for, and its URL
    contains fab.com. *)
Definition fab_tab (s : State) : option nat :=
  if runtime_ok s && bool_decide (query_error s = None) then
    match active_tab s with
    | Some tab => if Chrome.url_includes tab "fab.com" then Some (Chrome.id tab) else None
    | None => None
    end
  else None.

(** The messages a notification adds to those sent. *)
Definition notified (message : Js.Value) (s : State) : list (nat * Js.Value) :=
  match fab_tab s with
  | Some tabId => [(tabId, message)]
  | None => []
  end.

(** The list was replaced by [l]: stored, shown, and sent to the tab. *)
Definition updated (l : list string) (s s' : State) : Prop :=
  stored_usernames s' = Some l
  ∧ stored_showCount s' = stored_showCount s
  ∧ list_view s' = rendered l
  ∧ browser_view s' = browser_view s
  ∧ sent s' = sent s ++ notified (updateFilters l) s.

(** Nothing of the list changed. *)
Definition unchanged (s s' : State) : Prop :=
  stored_usernames s' = stored_usernames s
  ∧ list_view s' = list_view s
  ∧ browser_view s' = browser_view s.

(** The timeouts are in order: the identifiers pending are distinct,
    positive and below the next one; a pending timeout of the status line
    is the one statusTimer names, it is due within 3000 ms and the status
    line has the class show; the timeout statusTimer names is pending;
    each object URL not yet revoked has its timeout, due within 100 ms. *)
Definition timers_in_order (s : State) : Prop :=
  NoDup (timers s).*1.*1
  ∧ (∀ tm, tm ∈ timers s → 0 < tm.1.1 < next_timer s)
  ∧ 0 < next_timer s
  ∧ (∀ id due, (id, due, HideStatus) ∈ timers s →
       statusTimer s = Some id ∧ due ≤ clock s + 3000
       ∧ "show" ∈ Str.tokens (status_class s))
  ∧ (∀ id, statusTimer s = Some id → ∃ due, (id, due, HideStatus) ∈ timers s)
  ∧ ∀ url, url ∈ object_urls s →
      ∃ id due, (id, due, RevokeObjectURL url) ∈ timers s ∧ due ≤ clock s + 100.

End Kept.

(** ** Examples for the popup and the background script *)

Module Sample2.
Import Chrome.

(** A popup over a tab of fab.com, the store holding bob and carol. *)
Definition fab_tab : Tab := {| id := 7; url := Some "https://www.fab.com/listings" |}.

Definition popup : Popup.State :=
  {| Popup.stored_usernames := Some ["bob"; "carol"];
     Popup.stored_showCount := None;
     Popup.get_error := None; Popup.set_error := None;
     Popup.query_error := None; Popup.send_error := None;
     Popup.runtime_ok := true; Popup.active_tab := Some fab_tab;
     Popup.today := "2025-01-31";
     Popup.sent := []; Popup.downloads := []; Popup.object_urls := [];
     Popup.next_url := 1;
     Popup.usernameInput := ""; Popup.inputError := "";
     Popup.usernameList := []; Popup.usernameCount := "";
     Popup.emptyMessage_show := false; Popup.showCountCheckbox := false;
     Popup.fileInput := ""; Popup.status_text := "";
     Popup.status_class := "status"; Popup.statusTimer := None;
     Popup.clock := 0; Popup.timers := []; Popup.next_timer := 1;
     Popup.rm_timers := []; Popup.console := [] |}.

End Sample2.

(** * Properties *)

Import Dom Engine Frame.

(** ** Messages *)

Section Messages.

Lemma typeof_string (v : Js.Value) :
  bool_decide (Js.typeof v = "string")
  = match v with Js.Str _ => true | _ => false end.
Proof. by destruct v. Qed.

Lemma typeof_boolean (v : Js.Value) :
  bool_decide (Js.typeof v = "boolean") = Spec.boolean v.
Proof. by destruct v. Qed.

Lemma forallb_typeof_string (items : list Js.Value) :
  forallb (λ username, bool_decide (Js.typeof username = "string")) items
  = forallb (λ x, match x with Js.Str _ => true | _ => false end) items.
Proof.
  induction items as [|v items IH]; [done|].
  cbn [forallb]. by rewrite typeof_string, IH.
Qed.

(** The validator accepts exactly the recognized shapes. *)
Lemma validate_recognized (message : Js.Value) :
  validate message = inr true ↔ Spec.recognized message = true.
Proof.
  unfold validate.
  destruct message as [| |b|z|x|items|fields];
    try (cbn; rewrite ?orb_true_r; by split).
  cbn [Js.truthy Js.typeof Js.prop negb orb Spec.recognized Js.includes existsb].
  rewrite bool_decide_eq_true_2 by done. cbn [negb].
  destruct (Js.is_str (Js.assoc "action" fields) "updateFilters") eqn:Ha.
  - cbn [orb negb andb].
    assert (Js.is_str (Js.assoc "action" fields) "updateShowCount" = false) as ->.
    { destruct (Js.assoc "action" fields); try done. cbn in *.
      apply bool_decide_eq_true in Ha as ->. done. }
    rewrite orb_false_r.
    destruct (Js.assoc "usernames" fields) as [| |b|z|x|items|fs]; try done.
    rewrite forallb_typeof_string. unfold Spec.array_of_strings.
    by destruct (forallb _ items).
  - cbn [orb andb].
    destruct (Js.is_str (Js.assoc "action" fields) "updateShowCount") eqn:Hb;
      cbn [negb andb orb]; [|done].
    rewrite typeof_boolean. by destruct (Spec.boolean _).
Qed.

Lemma validate_throws (message : Js.Value) :
  Spec.recognized message = false → ∃ error, validate message = inl error.
Proof.
  intros Hn. destruct (validate message) as [error|b] eqn:Hv; [by eexists|].
  assert (validate message = inr true) as Ht.
  { rewrite Hv. f_equal. revert Hv. unfold validate.
    repeat (case_match; try done); by intros [= <-]. }
  apply validate_recognized in Ht. congruence.
Qed.

End Messages.

(** C6. A message that has neither of the two recognized shapes is
    rejected: the validator throws, the handler catches the error and
    writes it to the console, and that line is the only change of the
    state; the filtered set, the count, every attribute, the set of
    processed links and the pending mutations are as before, no reset
    begins and nothing is sent. The handler returns a state: no error
    leaves it. *)
Theorem unrecognized_message_rejected (message : Js.Value) (s : State) :
  Spec.recognized message = false →
  ∃ error,
    validate message = inl error
    ∧ handleMessage message s
      = console_error ("Invalid message received: " +:+ error) s
    ∧ filteredUsernames (handleMessage message s) = filteredUsernames s
    ∧ blockedCount (handleMessage message s) = blockedCount s
    ∧ attrs (handleMessage message s) = attrs s
    ∧ processedElements (handleMessage message s) = processedElements s
    ∧ pendingMutations (handleMessage message s) = pendingMutations s
    ∧ trace (handleMessage message s) = trace s
    ∧ outbox (handleMessage message s) = outbox s.
Proof.
  intros Hn. destruct (validate_throws message Hn) as [error Hv].
  exists error. unfold handleMessage. rewrite Hv. by repeat split.
Qed.

Lemma unrecognized_message_rejected_witness :
  let s := construct (Elem 0 "html" []) ∅ true in
  let message := Js.Obj [("action", Js.Str "updateFilters"); ("usernames", Js.Str "bob")] in
  ∃ error,
    validate message = inl error
    ∧ handleMessage message s
      = console_error ("Invalid message received: " +:+ error) s
    ∧ filteredUsernames (handleMessage message s) = filteredUsernames s
    ∧ blockedCount (handleMessage message s) = blockedCount s
    ∧ attrs (handleMessage message s) = attrs s
    ∧ processedElements (handleMessage message s) = processedElements s
    ∧ pendingMutations (handleMessage message s) = pendingMutations s
    ∧ trace (handleMessage message s) = trace s
    ∧ outbox (handleMessage message s) = outbox s.
Proof.
  intros s message. apply (unrecognized_message_rejected message s). reflexivity.
Defined.

(** C7. updateBadge hands sendMessageSafely one message: its text is the
    count in decimal when the count is shown and positive, and empty
    otherwise; its colour is the blocked colour in the first case and the
    neutral colour otherwise. With the count shown, a count of 1 gives the
    text 1 in the blocked colour and a count of 0 the empty text in the
    neutral colour. The message reaches the runtime when the extension
    context is valid. *)
Theorem updateBadge_message (s : State) :
  let shown := showBlockedCount s && bool_decide (0 < blockedCount s)%Z in
  let m := {| text := if shown then Str.decimal (blockedCount s) else "";
              color := if shown then "#f44336" else "#4CAF50" |} in
  updateBadge s = sendMessageSafely m (log (Badge m) s)
  ∧ trace (updateBadge s) = trace s ++ [Badge m]
  ∧ outbox (updateBadge s) = (if runtime_ok s then outbox s ++ [m] else outbox s)
  ∧ badgeMessage (set_blockedCount 1 (set_showBlockedCount true s))
    = {| text := "1"; color := "#f44336" |}
  ∧ badgeMessage (set_blockedCount 0 (set_showBlockedCount true s))
    = {| text := ""; color := "#4CAF50" |}.
Proof.
  intros shown m.
  assert (badgeMessage s = m) as Hm.
  { unfold badgeMessage, m, shown. destruct (showBlockedCount s); [|done].
    by destruct (bool_decide _). }
  unfold updateBadge. rewrite Hm. repeat split.
  - unfold sendMessageSafely. cbn. by destruct (runtime_ok s).
  - unfold sendMessageSafely. cbn. by destruct (runtime_ok s).
Qed.

(** C9. A message updateShowCount with a boolean sets the display toggle
    to it and updates the badge, and changes nothing of the filter state:
    the filtered set, the count, the pending mutations, the document, all
    attributes (so every seen and hidden marker) and the set of processed
    links are as before. *)
Theorem updateShowCount_frame (message : Js.Value) (flag : bool) (s : State) :
  Js.prop message "action" = Js.Str "updateShowCount" →
  Js.prop message "showCount" = Js.Bool flag →
  let s' := handleMessage message s in
  s' = updateBadge (set_showBlockedCount flag s)
  ∧ showBlockedCount s' = flag
  ∧ trace s' = trace s ++ [Badge (badgeMessage (set_showBlockedCount flag s))]
  ∧ filteredUsernames s' = filteredUsernames s
  ∧ blockedCount s' = blockedCount s
  ∧ pendingMutations s' = pendingMutations s
  ∧ tree s' = tree s
  ∧ attrs s' = attrs s
  ∧ processedElements s' = processedElements s.
Proof.
  intros Ha Hb s'.
  assert (s' = updateBadge (set_showBlockedCount flag s)) as ->.
  { unfold s', handleMessage.
    assert (validate message = inr true) as ->.
    { apply validate_recognized. destruct message; try done.
      cbn in Ha, Hb. cbn. by rewrite Ha, Hb. }
    rewrite Ha, Hb. by cbn. }
  split; [done|].
  unfold updateBadge, sendMessageSafely. cbn.
  by destruct (runtime_ok s).
Qed.

Lemma updateShowCount_frame_witness :
  let s := construct (Elem 0 "html" []) ∅ true in
  let message := Js.Obj [("action", Js.Str "updateShowCount"); ("showCount", Js.Bool true)] in
  let s' := handleMessage message s in
  s' = updateBadge (set_showBlockedCount true s)
  ∧ showBlockedCount s' = true
  ∧ trace s' = trace s ++ [Badge (badgeMessage (set_showBlockedCount true s))]
  ∧ filteredUsernames s' = filteredUsernames s
  ∧ blockedCount s' = blockedCount s
  ∧ pendingMutations s' = pendingMutations s
  ∧ tree s' = tree s
  ∧ attrs s' = attrs s
  ∧ processedElements s' = processedElements s.
Proof.
  intros s message.
  apply (updateShowCount_frame message true s); reflexivity.
Defined.

(** ** Attributes *)

Section Attributes.
Implicit Types (A : gmap (nat * string) string) (e : nat) (k v : string).

Lemma hasAttribute_true A e k : hasAttribute A e k = true ↔ is_Some (A !! (e, k)).
Proof. unfold hasAttribute. apply bool_decide_eq_true. Qed.

Lemma hasAttribute_false A e k : hasAttribute A e k = false ↔ A !! (e, k) = None.
Proof.
  unfold hasAttribute. rewrite bool_decide_eq_false, eq_None_not_Some. done.
Qed.

Lemma hasAttribute_set A e k v e' k' :
  hasAttribute (setAttribute A e k v) e' k'
  = if decide ((e, k) = (e', k')) then true else hasAttribute A e' k'.
Proof.
  unfold hasAttribute, setAttribute. rewrite lookup_insert.
  case_decide; [|done]. by apply bool_decide_eq_true_2.
Qed.

Lemma hasAttribute_remove A e k e' k' :
  hasAttribute (removeAttribute A e k) e' k'
  = if decide ((e, k) = (e', k')) then false else hasAttribute A e' k'.
Proof.
  unfold hasAttribute, removeAttribute. rewrite lookup_delete.
  case_decide; [|done]. apply bool_decide_eq_false_2. by intros [? ?].
Qed.

Lemma hasAttribute_set_eq A e k v : hasAttribute (setAttribute A e k v) e k = true.
Proof. rewrite hasAttribute_set. by rewrite decide_True. Qed.

Lemma hasAttribute_remove_eq A e k : hasAttribute (removeAttribute A e k) e k = false.
Proof. rewrite hasAttribute_remove. by rewrite decide_True. Qed.

Lemma not_marker_class : ¬ marker "class".
Proof. by intros [?|?]. Qed.
Lemma not_marker_href : ¬ marker "href".
Proof. by intros [?|?]. Qed.
Lemma marker_filtered : marker "data-filtered".
Proof. by left. Qed.
Lemma marker_processed : marker "data-filtered-processed".
Proof. by right. Qed.

End Attributes.

Create HintDb markers.
#[local] Hint Resolve not_marker_class not_marker_href marker_filtered
  marker_processed : markers.

(** ** What does not depend on the marker attributes *)

Section SamePage.
Import Frame.
Variables (t : Node) (A A' : gmap (nat * string) string).
Hypothesis same : same_page_attrs A A'.

Lemma className_same_page e : className A e = className A' e.
Proof. unfold className, getAttribute. by rewrite (same e "class") by auto with markers. Qed.

Lemma classList_contains_same_page e tok :
  classList_contains A e tok = classList_contains A' e tok.
Proof. unfold classList_contains. by rewrite className_same_page. Qed.

Lemma matches_same_page sel e :
  page_selector sel → matches t A sel e = matches t A' sel e.
Proof.
  intros Hsel. unfold matches. f_equal; [f_equal|].
  - destruct (sel_class sel); [|done]. apply classList_contains_same_page.
  - unfold page_selector in Hsel. destruct (sel_attr sel) as [[[k op] x]|]; [|done].
    unfold getAttribute. by rewrite (same e k).
Qed.

Lemma querySelectorAll_same_page r sel :
  page_selector sel → querySelectorAll t A r sel = querySelectorAll t A' r sel.
Proof.
  intros Hsel. unfold querySelectorAll. apply list_filter_iff. intros e.
  by rewrite matches_same_page.
Qed.

Lemma querySelector_same_page r sel :
  page_selector sel → querySelector t A r sel = querySelector t A' r sel.
Proof. intros Hsel. unfold querySelector. by rewrite querySelectorAll_same_page. Qed.

Lemma closest_same_page e sel :
  page_selector sel → closest t A e sel = closest t A' e sel.
Proof.
  intros Hsel. unfold closest. f_equal. apply list_filter_iff. intros x.
  by rewrite matches_same_page.
Qed.

Lemma isProductCard_same_page c : isProductCard t A c = isProductCard t A' c.
Proof.
  unfold isProductCard.
  rewrite !(querySelector_same_page (InElement c)), className_same_page;
    [done|unfold page_selector; cbn; auto with markers..].
Qed.

Lemma strategy1_same_page current maxDepth :
  strategy1 t A current maxDepth = strategy1 t A' current maxDepth.
Proof.
  revert current. induction maxDepth as [|d IH]; intros [c|]; try done.
  cbn. rewrite isProductCard_same_page. by rewrite IH.
Qed.

Lemma outermostStack_same_page fuel c parent :
  outermostStack t A fuel c parent = outermostStack t A' fuel c parent.
Proof.
  revert c parent. induction fuel as [|f IH]; intros c [p|]; try done.
  cbn. rewrite classList_contains_same_page. by rewrite IH.
Qed.

Lemma strategy2_same_page link : strategy2 t A link = strategy2 t A' link.
Proof.
  unfold strategy2.
  rewrite closest_same_page by (unfold page_selector; cbn; auto with markers).
  destruct (closest t A' link stackSelector) as [sc|]; [|done].
  rewrite outermostStack_same_page.
  by rewrite !(querySelector_same_page (InElement _))
    by (unfold page_selector; cbn; auto with markers).
Qed.

Lemma findItemContainer_same_page link :
  findItemContainer t A link = findItemContainer t A' link.
Proof.
  unfold findItemContainer. by rewrite strategy1_same_page, strategy2_same_page.
Qed.

Lemma sellerName_same_page link : sellerName t A link = sellerName t A' link.
Proof.
  unfold sellerName.
  by rewrite querySelector_same_page by (unfold page_selector; cbn; auto).
Qed.
End SamePage.

Section MarkerWrites.
Import Frame.
Implicit Types (A : gmap (nat * string) string).

Lemma same_page_refl A : same_page_attrs A A.
Proof. by intros e k _. Qed.

Lemma same_page_trans A1 A2 A3 :
  same_page_attrs A1 A2 → same_page_attrs A2 A3 → same_page_attrs A1 A3.
Proof. intros H1 H2 e k Hk. by rewrite H1, H2. Qed.

Lemma same_page_sym A1 A2 : same_page_attrs A1 A2 → same_page_attrs A2 A1.
Proof. intros H e k Hk. by rewrite H. Qed.

Lemma same_page_set A e k v : marker k → same_page_attrs A (setAttribute A e k v).
Proof.
  intros Hk e' k' Hk'. unfold setAttribute. rewrite lookup_insert_ne; [done|].
  intros [= -> ->]. done.
Qed.

Lemma same_page_remove A e k : marker k → same_page_attrs A (removeAttribute A e k).
Proof.
  intros Hk e' k' Hk'. unfold removeAttribute. rewrite lookup_delete_ne; [done|].
  intros [= -> ->]. done.
Qed.
End MarkerWrites.

#[local] Hint Resolve same_page_refl same_page_set same_page_remove : markers.

(** ** filterElement *)

Section FilterElement.
Import Frame.

(** filterElement in terms of the seller's name. *)
Lemma filterElement_unfold (s : State) (link parent : nat) :
  filterElement s (link, parent)
  = match sellerName (tree s) (attrs s) link with
    | None => s
    | Some name =>
        if bool_decide (name = "") then s
        else if bool_decide (name ∈ filteredUsernames s)
        then if hasAttribute (attrs s) parent "data-filtered" then s
             else set_blockedCount (blockedCount s + 1)
                    (set_attrs (setAttribute (attrs s) parent "data-filtered" "true") s)
        else if hasAttribute (attrs s) parent "data-filtered"
             then set_blockedCount (blockedCount s - 1)
                    (set_attrs (removeAttribute (attrs s) parent "data-filtered") s)
             else s
    end.
Proof.
  unfold filterElement, sellerName.
  destruct (querySelector _ _ _ _) as [w|]; [|done]. cbn.
  destruct (bool_decide (_ = "")); [done|].
  destruct (bool_decide (_ ∈ _)), (hasAttribute _ _ _); done.
Qed.

Lemma filterElement_tree s el : tree (filterElement s el) = tree s.
Proof.
  destruct el as [link parent]. rewrite filterElement_unfold.
  repeat case_match; done.
Qed.

Lemma filterElement_filteredUsernames s el :
  filteredUsernames (filterElement s el) = filteredUsernames s.
Proof.
  destruct el as [link parent]. rewrite filterElement_unfold.
  repeat case_match; done.
Qed.

Lemma filterElement_same_page s el :
  same_page_attrs (attrs s) (attrs (filterElement s el)).
Proof.
  destruct el as [link parent]. rewrite filterElement_unfold.
  repeat case_match; cbn; auto with markers.
Qed.

Lemma filterElement_sellerName s el link :
  sellerName (tree (filterElement s el)) (attrs (filterElement s el)) link
  = sellerName (tree s) (attrs s) link.
Proof.
  rewrite filterElement_tree. symmetry. apply sellerName_same_page.
  apply filterElement_same_page.
Qed.
End FilterElement.

(** C3. filterElement is idempotent, and it moves the count with the
    marker: applied to a pair, it adds one to the count exactly when it puts
    the hidden marker on the container, takes one off exactly when it
    removes the marker, and otherwise changes nothing at all; on a
    container whose marker already agrees with the membership of the
    seller's name it changes nothing; applied a second time it changes
    nothing. *)
Theorem filterElement_idempotent (s : State) (link parent : nat) :
  let s' := filterElement s (link, parent) in
  let hidden := λ st, hasAttribute (attrs st) parent "data-filtered" in
  filterElement s' (link, parent) = s'
  ∧ blockedCount s' = (blockedCount s + Z.b2z (hidden s') - Z.b2z (hidden s))%Z
  ∧ (hidden s' = hidden s → s' = s)
  ∧ (∀ name, sellerName (tree s) (attrs s) link = Some name →
             hidden s = bool_decide (name ∈ filteredUsernames s) → s' = s).
Proof.
  intros s' hidden.
  split.
  { rewrite filterElement_unfold.
    unfold s'. rewrite filterElement_sellerName, filterElement_filteredUsernames.
    fold s'. unfold s'. rewrite filterElement_unfold.
    destruct (sellerName (tree s) (attrs s) link) as [name|]; [|done].
    destruct (bool_decide (name = "")); [done|].
    destruct (bool_decide (name ∈ filteredUsernames s)) eqn:Hin,
      (hasAttribute (attrs s) parent "data-filtered") eqn:Hh;
      cbn [attrs set_blockedCount set_attrs];
      rewrite ?Hh, ?Hin, ?hasAttribute_set_eq, ?hasAttribute_remove_eq; done. }
  unfold hidden, s'. rewrite filterElement_unfold.
  destruct (sellerName (tree s) (attrs s) link) as [name|];
    [|repeat split; [lia|done..]].
  destruct (bool_decide (name = "")) eqn:Hb.
  { repeat split; [lia|done..]. }
  destruct (bool_decide (name ∈ filteredUsernames s)) eqn:Hin,
    (hasAttribute (attrs s) parent "data-filtered") eqn:Hh;
    cbn [attrs set_blockedCount set_attrs blockedCount];
    rewrite ?Hh, ?hasAttribute_set_eq, ?hasAttribute_remove_eq; cbn;
    (split; [lia|]); (split; [done|]); intros name' [= <-]; by rewrite ?Hin.
Qed.

Lemma filterElement_idempotent_witness :
  let s := scan Document
             (set_filteredUsernames {["bob"]}
                (construct Sample.three_cards Sample.three_cards_attrs true)) in
  hasAttribute (attrs s) 20 "data-filtered" = true
  ∧ filterElement s (23, 20) = s.
Proof.
  intros s. split; [by vm_compute|].
  apply (proj1 (proj2 (proj2 (filterElement_idempotent s 23 20)))).
  by vm_compute.
Defined.

(** C1, amended. For every state of the engine and every pair of a seller
    link and a container, when the link has a username element whose
    trimmed text is not empty, the container carries the hidden marker
    after filterElement exactly when that name is in the filtered set. *)
Theorem filterElement_decides (s : State) (link parent : nat) (name : string) :
  sellerName (tree s) (attrs s) link = Some name →
  name ≠ "" →
  hasAttribute (attrs (filterElement s (link, parent))) parent "data-filtered"
  = bool_decide (name ∈ filteredUsernames s).
Proof.
  intros Hname Hne. rewrite filterElement_unfold, Hname.
  rewrite bool_decide_eq_false_2 by done.
  destruct (bool_decide (name ∈ filteredUsernames s)) eqn:Hin,
    (hasAttribute (attrs s) parent "data-filtered") eqn:Hh;
    cbn [attrs set_blockedCount set_attrs];
    rewrite ?hasAttribute_set_eq, ?hasAttribute_remove_eq; done.
Qed.

Lemma filterElement_decides_witness :
  let s := set_filteredUsernames {["bob"]}
             (construct Sample.three_cards Sample.three_cards_attrs true) in
  hasAttribute (attrs (filterElement s (23, 20))) 20 "data-filtered" = true
  ∧ hasAttribute (attrs (filterElement s (13, 10))) 10 "data-filtered" = false.
Proof.
  intros s. split.
  - rewrite (filterElement_decides s 23 20 "bob"); [by vm_compute|by vm_compute|done].
  - rewrite (filterElement_decides s 13 10 "alice"); [by vm_compute|by vm_compute|done].
Defined.

(** C1 as stated fails for a blank name: the filtered set holds the empty
    string, the card's trimmed name is the empty string, and the card is
    not hidden, neither by filterElement nor at the end of the scan that
    the message updateFilters [""] starts. *)
Lemma filterElement_blank_name :
  let s := set_filteredUsernames (list_to_set [""])
             (construct Sample.blank_card Sample.blank_card_attrs true) in
  let s' := handleMessage (Sample.updateFilters [""])
              (initialize [] false
                 (construct Sample.blank_card Sample.blank_card_attrs true)) in
  ¬ (∀ (link parent : nat) (name : string),
       sellerName (tree s) (attrs s) link = Some name →
       hasAttribute (attrs (filterElement s (link, parent))) parent "data-filtered"
       = bool_decide (name ∈ filteredUsernames s))
  ∧ sellerName (tree s') (attrs s') 13 = Some ""
  ∧ "" ∈ filteredUsernames s'
  ∧ trace s' !! 6%nat = Some (Yield 13 10)
  ∧ hasAttribute (attrs s') 10 "data-filtered" = false.
Proof.
  intros s s'. split.
  - intros H. specialize (H 13 10 "" eq_refl). by vm_compute in H.
  - by vm_compute.
Qed.

(** ** The document tree *)

Section Tree.

(** Induction on a node with the hypothesis for each child. *)
Lemma Node_children_ind (P : Node → Prop) :
  (∀ data, P (Text data)) →
  (∀ i tg ks, Forall P ks → P (Elem i tg ks)) →
  ∀ n, P n.
Proof.
  intros Htext Helem.
  fix IH 1. intros [data|i tg ks]; [apply Htext|].
  apply Helem. induction ks as [|k ks IHks]; constructor; [apply IH|apply IHks].
Qed.

Lemma first_some_Some {A B} (f : A → option B) (l : list A) (y : B) :
  first_some f l = Some y →
  ∃ l1 x l2, l = l1 ++ x :: l2 ∧ f x = Some y ∧ Forall (λ z, f z = None) l1.
Proof.
  induction l as [|x l IH]; [done|]. cbn.
  destruct (f x) as [y'|] eqn:Hx.
  - intros [= ->]. by exists [], x, l.
  - intros (l1 & x' & l2 & -> & Hx' & Hl1)%IH.
    exists (x :: l1), x', l2. repeat split; [done|by constructor].
Qed.

Lemma first_some_None {A B} (f : A → option B) (l : list A) :
  first_some f l = None ↔ Forall (λ z, f z = None) l.
Proof.
  induction l as [|x l IH]; cbn; [by split|].
  destruct (f x) eqn:Hx.
  - split; [done|]. intros H. apply Forall_cons in H as [? _]. congruence.
  - rewrite IH. split; [by constructor|]. by intros [_ ?]%Forall_cons.
Qed.

Lemma elem_of_flat_map_elements (x : nat) (ks : list Node) :
  x ∈ flat_map elements ks ↔ ∃ k, k ∈ ks ∧ x ∈ elements k.
Proof.
  induction ks as [|k ks IH]; cbn.
  - split; [by intros ?%elem_of_nil|]. by intros (k & ?%elem_of_nil & _).
  - rewrite elem_of_app, IH. split.
    + intros [Hx|(k' & Hk' & Hx)]; [exists k|exists k']; split; try done;
        [left|by right].
    + intros (k' & [->|Hk']%elem_of_cons & Hx); [by left|right; by exists k'].
Qed.

(** A path leads to an element of the tree, through elements of the
    tree. *)
Lemma path_to_Some (n : Node) (e : nat) (p : list nat) :
  path_to e n = Some p → e ∈ elements n ∧ ∀ x, x ∈ p → x ∈ elements n.
Proof.
  revert e p. induction n as [data|i tg ks IH] using Node_children_ind;
    intros e p; [done|].
  cbn [path_to elements]. case_decide as Hi.
  - intros [= <-]. subst. split; [left|]. intros x Hx. by apply elem_of_nil in Hx.
  - intros Hp. apply fmap_Some in Hp as (q & Hq & ->).
    apply first_some_Some in Hq as (l1 & k & l2 & -> & Hk & _).
    apply Forall_app in IH as [_ IH]. apply Forall_cons in IH as [IHk _].
    apply IHk in Hk as [He Hq].
    split.
    + right. apply elem_of_flat_map_elements. exists k. split; [|done].
      apply elem_of_app. right. left.
    + intros x [Hx|Hx]%elem_of_app.
      * right. apply elem_of_flat_map_elements. exists k. split; [|by apply Hq].
        apply elem_of_app. right. left.
      * apply list_elem_of_singleton in Hx as ->. left.
Qed.

Lemma path_to_None (n : Node) (e : nat) :
  path_to e n = None ↔ e ∉ elements n.
Proof.
  revert e. induction n as [data|i tg ks IH] using Node_children_ind; intros e.
  { cbn. split; [|done]. intros _ H. by apply elem_of_nil in H. }
  cbn [path_to elements]. case_decide as Hi.
  - subst. split; [done|]. intros H. exfalso. apply H. left.
  - rewrite fmap_None, first_some_None, not_elem_of_cons.
    rewrite elem_of_flat_map_elements. split.
    + intros Hall. split; [done|]. intros (k & Hk & He).
      rewrite Forall_forall in Hall, IH. apply (IH k Hk e); [by apply Hall|done].
    + intros [_ Hno]. rewrite Forall_forall in IH |- *. intros k Hk.
      apply IH; [done|]. intros He. apply Hno. by exists k.
Qed.

Lemma ancestors_cons_path (t : Node) (e p : nat) (rest : list nat) :
  ancestors t e = p :: rest → path_to e t = Some (p :: rest).
Proof. unfold ancestors. destruct (path_to e t); cbn; [by intros ->|done]. Qed.

Lemma ancestors_elements (t : Node) (e x : nat) :
  x ∈ ancestors t e → x ∈ elements t.
Proof.
  unfold ancestors. destruct (path_to e t) as [p|] eqn:Hp; cbn.
  - intros Hx. by apply (path_to_Some _ _ _ Hp).
  - intros Hx. by apply elem_of_nil in Hx.
Qed.

Lemma NoDup_flat_map_cons (k : Node) (ks : list Node) :
  NoDup (flat_map elements (k :: ks)) →
  NoDup (elements k) ∧ NoDup (flat_map elements ks)
  ∧ ∀ x, x ∈ elements k → x ∉ flat_map elements ks.
Proof. cbn. rewrite NoDup_app. tauto. Qed.

(** In a tree without repeated identities the ancestors of an element's
    parent are the element's other ancestors. *)
Lemma path_to_parent (n : Node) (e p : nat) (rest : list nat) :
  NoDup (elements n) → path_to e n = Some (p :: rest) → path_to p n = Some rest.
Proof.
  revert e p rest. induction n as [data|i tg ks IH] using Node_children_ind;
    intros e p rest Hnd; [done|].
  cbn [path_to elements] in *. apply NoDup_cons in Hnd as [Hi Hnd].
  case_decide as Hie; [done|].
  intros Hp. apply fmap_Some in Hp as (q & Hq & Hpq).
  destruct q as [|p' q'].
  { cbn in Hpq. injection Hpq as -> ->. by rewrite decide_True. }
  cbn in Hpq. injection Hpq as <- ->.
  assert (p ∈ flat_map elements ks) as Hpin.
  { apply first_some_Some in Hq as (l1 & k & l2 & -> & Hk & _).
    apply elem_of_flat_map_elements. exists k. split.
    - apply elem_of_app. right. left.
    - apply (path_to_Some _ _ _ Hk). left. }
  rewrite decide_False by (intros ->; done).
  assert (first_some (path_to p) ks = Some q') as ->; [|done].
  clear Hi Hie Hpin. induction ks as [|k ks IHks]; [done|].
  apply Forall_cons in IH as [IHk IH].
  apply NoDup_flat_map_cons in Hnd as (Hk & Hks & Hdisj).
  cbn in Hq |- *. destruct (path_to e k) as [q|] eqn:Hek.
  - injection Hq as ->. by rewrite (IHk _ _ _ Hk Hek).
  - assert (path_to p k = None) as ->.
    { apply path_to_None. intros Hpk. apply (Hdisj _ Hpk).
      apply first_some_Some in Hq as (l1 & k' & l2 & -> & Hk' & _).
      apply elem_of_flat_map_elements. exists k'. split.
      - apply elem_of_app. right. left.
      - apply (path_to_Some _ _ _ Hk'). left. }
    by apply IHks.
Qed.

Lemma ancestors_parent (t : Node) (e p : nat) (rest : list nat) :
  NoDup (elements t) → ancestors t e = p :: rest → ancestors t p = rest.
Proof.
  intros Hnd He%ancestors_cons_path. unfold ancestors.
  by rewrite (path_to_parent _ _ _ _ Hnd He).
Qed.

Lemma subtree_Some (n : Node) (e : nat) (m : Node) :
  subtree e n = Some m →
  (∃ tg ks, m = Elem e tg ks) ∧ ∀ x, x ∈ elements m → x ∈ elements n.
Proof.
  revert e m. induction n as [data|i tg ks IH] using Node_children_ind;
    intros e m; [done|].
  cbn [subtree]. case_decide as Hi.
  - intros [= <-]. subst. split; [by eexists _, _|done].
  - intros Hq. apply first_some_Some in Hq as (l1 & k & l2 & -> & Hk & _).
    apply Forall_app in IH as [_ IH]. apply Forall_cons in IH as [IHk _].
    apply IHk in Hk as [Hm Hsub]. split; [done|].
    intros x Hx. cbn. right. apply elem_of_flat_map_elements. exists k.
    split; [|by apply Hsub]. apply elem_of_app. right. left.
Qed.

Lemma descendants_elements (t : Node) (e x : nat) :
  x ∈ descendants t e → x ∈ elements t.
Proof.
  unfold descendants. destruct (subtree e t) as [[data|i tg ks]|] eqn:Hs;
    try (intros H; by apply elem_of_nil in H).
  intros Hx. apply (subtree_Some _ _ _ Hs). cbn. by right.
Qed.

Lemma candidates_elements (t : Node) (r : QueryRoot) (x : nat) :
  x ∈ candidates t r → x ∈ elements t.
Proof. destruct r; cbn; [done|apply descendants_elements]. Qed.

Lemma querySelectorAll_elements t A r sel (x : nat) :
  x ∈ querySelectorAll t A r sel → x ∈ elements t.
Proof.
  unfold querySelectorAll. intros [_ Hx]%list_elem_of_filter.
  by apply candidates_elements in Hx.
Qed.

End Tree.

(** ** Container resolution *)

Section Resolution.
Variables (t : Node) (A : gmap (nat * string) string).
Hypothesis distinct : NoDup (elements t).

Lemma is_Some_head {X} (l : list X) :
  bool_decide (is_Some (head l)) = bool_decide (l ≠ []).
Proof.
  apply bool_decide_ext. destruct l as [|x l]; cbn.
  - split; [by intros [? ?]|done].
  - split; [done|by eexists].
Qed.

Lemma isProductCard_qualifies (c : nat) :
  isProductCard t A c = Spec.qualifies t A c.
Proof.
  unfold isProductCard, Spec.qualifies, Spec.contains_listing_and_image,
    Spec.card_marker, Spec.surface_below, querySelector.
  rewrite !is_Some_head. do 2 f_equal.
  case_bool_decide as Hc; [|done]. by rewrite Hc.
Qed.

(** The first loop looks at the nearest ancestors, [maxDepth] of them at
    most, and stops at the first that passes the test. *)
Lemma strategy1_ancestors (maxDepth : nat) (e : nat) :
  strategy1 t A (parentElement t e) maxDepth
  = head (filter (λ c, Spec.qualifies t A c) (take maxDepth (ancestors t e))).
Proof.
  revert e. induction maxDepth as [|d IH]; intros e.
  { unfold parentElement. by destruct (ancestors t e). }
  unfold parentElement. destruct (ancestors t e) as [|p rest] eqn:He; [done|].
  cbn [head strategy1 take]. rewrite filter_cons, <-isProductCard_qualifies.
  destruct (isProductCard t A p) eqn:Hp.
  - by rewrite decide_True by exact I.
  - rewrite decide_False by (by intros []).
    rewrite IH. by rewrite (ancestors_parent _ _ _ _ distinct He).
Qed.

Lemma last_cons_default {X} (x d : X) (l : list X) :
  default d (last (x :: l)) = default x (last l).
Proof.
  revert x d. induction l as [|y l IH]; intros x d; [done|].
  rewrite last_cons_cons. by rewrite !IH.
Qed.

(** The second loop climbs while the parent is a stack container, and
    the ancestors still above are fuel enough for it. *)
Lemma outermostStack_ancestors (e : nat) :
  outermostStack t A (length (ancestors t e)) e (parentElement t e)
  = default e (last (Spec.take_while (Spec.stack_container A) (ancestors t e))).
Proof.
  unfold parentElement.
  remember (ancestors t e) as l eqn:Hl. symmetry in Hl.
  revert e Hl. induction l as [|p rest IH]; intros e Hl; [done|].
  cbn [length head outermostStack Spec.take_while].
  unfold Spec.stack_container at 1.
  destruct (classList_contains A p "fabkit-Stack-root"); [|done].
  rewrite last_cons_default.
  pose proof (ancestors_parent _ _ _ _ distinct Hl) as Hp.
  unfold parentElement. rewrite Hp. by apply IH.
Qed.

Lemma closest_of_link (link : nat) :
  matches t A sellerLinkSelector link = true →
  closest t A link stackSelector
  = head (filter (λ c, Spec.stack_marker t A c) (ancestors t link)).
Proof.
  intros Hlink. unfold closest. rewrite filter_cons_False; [done|].
  unfold matches in Hlink |- *. cbn [sel_tag sellerLinkSelector stackSelector] in *.
  apply andb_true_iff in Hlink as [Htag _].
  apply andb_true_iff in Htag as [Htag _].
  apply bool_decide_eq_true in Htag.
  rewrite Htag. rewrite bool_decide_eq_false_2 by done. by intros [].
Qed.

End Resolution.

(** C4. For a seller link of a document, findItemContainer returns what
    the description says: the nearest of the link's first ten ancestors
    that contains a listing link and an image and either carries a card
    class marker or has a descendant with a surface class marker; failing
    that, with the nearest ancestor that has a stack class marker, the
    outermost of the stack containers directly above it (or that ancestor
    itself) if it contains a listing link and an image; and otherwise no
    container. *)
Theorem findItemContainer_resolves (t : Node) (A : gmap (nat * string) string)
    (link : nat) :
  NoDup (elements t) →
  matches t A sellerLinkSelector link = true →
  findItemContainer t A link = Spec.resolve t A link.
Proof.
  intros Hnd Hlink. unfold findItemContainer, Spec.resolve.
  rewrite (strategy1_ancestors _ _ Hnd).
  destruct (head (filter _ (take 10 _))) as [c|]; [done|].
  unfold strategy2. rewrite closest_of_link by done.
  destruct (head (filter _ (ancestors t link))) as [nearest|]; [|done].
  rewrite (outermostStack_ancestors _ _ Hnd).
  unfold Spec.contains_listing_and_image, querySelector.
  by rewrite !is_Some_head.
Qed.

Lemma findItemContainer_resolves_witness :
  NoDup (elements Sample.deep_card)
  ∧ matches Sample.deep_card Sample.deep_card_attrs sellerLinkSelector 13 = true
  ∧ findItemContainer Sample.deep_card Sample.deep_card_attrs 13
    = Spec.resolve Sample.deep_card Sample.deep_card_attrs 13
  ∧ Spec.resolve Sample.deep_card Sample.deep_card_attrs 13 = Some 200
  ∧ Spec.resolve Sample.three_cards Sample.three_cards_attrs 23 = Some 20.
Proof.
  assert (NoDup (elements Sample.deep_card)) as Hnd.
  { apply (bool_decide_unpack _). vm_compute. exact I. }
  assert (matches Sample.deep_card Sample.deep_card_attrs sellerLinkSelector 13 = true)
    as Hlink by (by vm_compute).
  split; [done|]. split; [done|]. split.
  - exact (findItemContainer_resolves _ _ _ Hnd Hlink).
  - by vm_compute.
Defined.

(** ** Discovery and the filter, pass by pass *)

Section Scan.
Import Frame.

Lemma rest_view_tree s s' : rest_view s' = rest_view s → tree s' = tree s.
Proof. unfold rest_view. by intros [= -> _ _ _ _ _ _ _ _ _ _ _ _ _]. Qed.

Lemma rest_view_filteredUsernames s s' :
  rest_view s' = rest_view s → filteredUsernames s' = filteredUsernames s.
Proof. unfold rest_view. by intros [= _ _ _ _ _ _ _ _ _ -> _ _ _ _]. Qed.

Lemma scanLink_unfold els s link :
  scanLink (els, s) link
  = if bool_decide (link ∈ processedElements s) then (els, s)
    else match findItemContainer (tree s) (attrs s) link with
         | Some parent =>
             if hasAttribute (attrs s) parent "data-filtered-processed"
             then (els, log (Resolve link) s)
             else (els ++ [(link, parent)],
                   log (Yield link parent)
                     (set_attrs
                        (setAttribute (attrs s) parent "data-filtered-processed" "true")
                        (markProcessed link (log (Resolve link) s))))
         | None => (els, log (Resolve link) s)
         end.
Proof.
  unfold scanLink, isProcessed. destruct (bool_decide _); [done|].
  cbn [tree attrs log set_trace].
  destruct (findItemContainer _ _ _) as [p|]; [|done].
  by destruct (hasAttribute _ _ _).
Qed.

Lemma discover_snoc links l s :
  discover (links ++ [l]) s = scanLink (discover links s) l.
Proof. unfold discover. by rewrite foldl_app. Qed.

Lemma discovery_same_page s els s' :
  discovery s els s' → same_page_attrs (attrs s) (attrs s').
Proof.
  intros D e k Hk. rewrite (disc_attrs _ _ _ D).
  rewrite bool_decide_eq_false_2; [done|]. intros [-> _]. apply Hk. by right.
Qed.

Lemma discovery_start s : discovery s [] s.
Proof.
  split; try done.
  - intros e k. rewrite bool_decide_eq_false_2; [done|].
    intros [_ H]. by apply elem_of_nil in H.
  - constructor.
  - intros p H. by apply elem_of_nil in H.
  - intros l p H. by apply elem_of_nil in H.
  - cbn. set_solver.
Qed.

Lemma discovery_step s els st link :
  discovery s els st →
  discovery s (scanLink (els, st) link).1 (scanLink (els, st) link).2.
Proof.
  intros D. rewrite scanLink_unfold.
  destruct (bool_decide (link ∈ processedElements st)); [done|].
  pose proof (rest_view_tree _ _ (disc_rest _ _ _ D)) as Ht.
  rewrite Ht.
  rewrite <-(findItemContainer_same_page _ _ _ (discovery_same_page _ _ _ D)).
  assert (∀ ev, discovery s els (log ev st)) as Dlog.
  { intros ev. by destruct D. }
  destruct (findItemContainer (tree s) (attrs s) link) as [p|] eqn:Hp;
    [|apply Dlog].
  destruct (hasAttribute (attrs st) p "data-filtered-processed") eqn:Hseen;
    [apply Dlog|].
  apply hasAttribute_false in Hseen.
  pose proof (disc_attrs _ _ _ D p "data-filtered-processed") as Hattr.
  rewrite Hseen in Hattr. case_bool_decide as Hin; [done|].
  assert (p ∉ els.*2) as Hnotin by (intros ?; by apply Hin).
  cbn [fst snd]. split; cbn [attrs blockedCount processedElements log set_trace
    set_attrs markProcessed set_processedElements trace].
  - apply (disc_rest _ _ _ D).
  - apply (disc_count _ _ _ D).
  - intros e k. unfold setAttribute. rewrite fmap_app. cbn [fmap list_fmap snd].
    destruct (decide ((p, "data-filtered-processed") = (e, k))) as [[= <- <-]|Hne].
    + rewrite lookup_insert_eq. rewrite bool_decide_eq_true_2; [done|].
      split; [done|]. apply elem_of_app. right. left.
    + rewrite lookup_insert_ne by done. rewrite (disc_attrs _ _ _ D).
      apply (f_equal (λ b : bool, if b then _ else _)).
      apply bool_decide_ext. rewrite elem_of_app, list_elem_of_singleton.
      split; [tauto|]. intros [-> [?| ->]]; [done|]. by destruct Hne.
  - rewrite fmap_app. apply NoDup_app. split; [apply (disc_nodup _ _ _ D)|].
    split; [|apply NoDup_singleton].
    intros x Hx Hx'. cbn in Hx'. apply list_elem_of_singleton in Hx' as ->. done.
  - intros x. rewrite fmap_app, elem_of_app. intros [Hx|Hx].
    + by apply (disc_fresh _ _ _ D).
    + cbn in Hx. apply list_elem_of_singleton in Hx as ->.
      by apply hasAttribute_false.
  - intros l q [Hl|Hl]%elem_of_app.
    + by apply (disc_found _ _ _ D).
    + apply list_elem_of_singleton in Hl as [= -> ->]. done.
  - rewrite (disc_processed _ _ _ D). rewrite fmap_app, list_to_set_app_L.
    cbn. set_solver.
Qed.

(** What the loop over the links establishes. *)
Lemma discovery_discover links s :
  discovery s (discover links s).1 (discover links s).2.
Proof.
  induction links as [|l links IH] using rev_ind.
  - apply discovery_start.
  - rewrite discover_snoc. destruct (discover links s) as [els st].
    by apply discovery_step.
Qed.

Lemma discover_links links s l p :
  (l, p) ∈ (discover links s).1 → l ∈ links ∧ l ∉ processedElements s.
Proof.
  induction links as [|x links IH] using rev_ind.
  - intros H. by apply elem_of_nil in H.
  - rewrite discover_snoc.
    pose proof (discovery_discover links s) as D.
    destruct (discover links s) as [els st].
    rewrite scanLink_unfold. cbn [fst snd] in IH, D.
    assert ((l, p) ∈ els → l ∈ links ++ [x] ∧ l ∉ processedElements s) as IH'.
    { intros [? ?]%IH. split; [|done]. apply elem_of_app. by left. }
    case_bool_decide as Hproc; [done|].
    destruct (findItemContainer _ _ _) as [q|]; [|done].
    destruct (hasAttribute _ _ _); [done|].
    cbn [fst]. intros [Hin|Hin]%elem_of_app; [by apply IH'|].
    apply list_elem_of_singleton in Hin as [= -> ->].
    split; [apply elem_of_app; right; left|].
    rewrite (disc_processed _ _ _ D) in Hproc. set_solver.
Qed.

Lemma hides_same s s' el :
  tree s' = tree s → filteredUsernames s' = filteredUsernames s →
  same_page_attrs (attrs s) (attrs s') → hides s' el = hides s el.
Proof.
  intros Ht HU Hsame. unfold hides, Spec.named_seller_in.
  by rewrite Ht, HU, <-(sellerName_same_page _ _ _ Hsame).
Qed.

(** filterElement on a container that is not hidden yet. *)
Lemma filterElement_visible s link parent :
  hasAttribute (attrs s) parent "data-filtered" = false →
  filterElement s (link, parent)
  = if hides s (link, parent)
    then set_blockedCount (blockedCount s + 1)
           (set_attrs (setAttribute (attrs s) parent "data-filtered" "true") s)
    else s.
Proof.
  intros Hvis. rewrite filterElement_unfold, Hvis.
  unfold hides, Spec.named_seller_in. cbn [fst].
  destruct (sellerName _ _ _) as [name|]; [|done].
  destruct (bool_decide (name = "")); [done|].
  by destruct (bool_decide (name ∈ _)).
Qed.

(** The filter over pairs with distinct containers, none of them hidden:
    the count grows by the number of pairs it hides, and the hidden marker
    goes on their containers and nowhere else. *)
Lemma filter_phase els s :
  NoDup els.*2 →
  (∀ p, p ∈ els.*2 → hasAttribute (attrs s) p "data-filtered" = false) →
  let s' := foldl filterElement s els in
  rest_view s' = rest_view s
  ∧ processedElements s' = processedElements s
  ∧ trace s' = trace s
  ∧ blockedCount s' = (blockedCount s + Z.of_nat (length (filter (λ el, hides s el) els)))%Z
  ∧ ∀ e k, attrs s' !! (e, k)
           = if bool_decide (k = "data-filtered"
                             ∧ e ∈ (filter (λ el, hides s el) els).*2)
             then Some "true" else attrs s !! (e, k).
Proof.
  revert s. induction els as [|[l p] els IH]; intros s Hnd Hvis.
  { cbn. repeat split; [lia|]. intros e k.
    rewrite bool_decide_eq_false_2; [done|]. intros [_ H]. by apply elem_of_nil in H. }
  cbn [foldl]. cbn in Hnd. apply NoDup_cons in Hnd as [Hp Hnd].
  rewrite filterElement_visible by (apply Hvis; left).
  rewrite filter_cons.
  destruct (hides s (l, p)) eqn:Hh.
  - rewrite decide_True by exact I.
    set (s1 := set_blockedCount _ _).
    assert (∀ el, hides s1 el = hides s el) as Hsame.
    { intros el. apply hides_same; [done..|]. cbn. auto with markers. }
    specialize (IH s1 Hnd). cbn zeta in IH.
    destruct IH as (Hr & Hpr & Htr & Hc & Ha).
    { intros q Hq. cbn. rewrite hasAttribute_set, decide_False.
      - apply Hvis. by right.
      - intros [= ->]. done. }
    rewrite !(list_filter_iff _ (λ el, hides s el)) in * by
      (intros el; by rewrite Hsame).
    repeat split; try done.
    + rewrite Hc. cbn. lia.
    + intros e k. rewrite Ha. cbn. unfold setAttribute.
      destruct (decide ((p, "data-filtered") = (e, k))) as [[= <- <-]|Hne].
      * rewrite lookup_insert_eq.
        rewrite (bool_decide_eq_true_2 (_ ∧ p ∈ p :: _)); [|split; [done|left]].
        by destruct (bool_decide _).
      * rewrite lookup_insert_ne by done.
        apply (f_equal (λ b : bool, if b then _ else _)).
        apply bool_decide_ext. rewrite elem_of_cons.
        split; [tauto|]. intros [-> [->|?]]; [by destruct Hne|done].
  - rewrite decide_False by (by intros []).
    apply IH; [done|]. intros q Hq. apply Hvis. by right.
Qed.

End Scan.

Section ScanEffect.
Import Frame.

Lemma parentElement_elements t e p : parentElement t e = Some p → p ∈ elements t.
Proof.
  unfold parentElement. intros H. apply (ancestors_elements t e).
  by apply head_Some_elem_of.
Qed.

Lemma strategy1_elements t A current maxDepth c :
  (∀ x, current = Some x → x ∈ elements t) →
  strategy1 t A current maxDepth = Some c → c ∈ elements t.
Proof.
  revert current. induction maxDepth as [|d IH]; intros [x|] Hx; try done.
  cbn. destruct (isProductCard t A x).
  - intros [= <-]. by apply Hx.
  - apply IH. intros y Hy. by apply parentElement_elements in Hy.
Qed.

Lemma outermostStack_elements t A fuel c parent :
  c ∈ elements t → (∀ x, parent = Some x → x ∈ elements t) →
  outermostStack t A fuel c parent ∈ elements t.
Proof.
  revert c parent. induction fuel as [|f IH]; intros c [p|] Hc Hp; try done.
  cbn. destruct (classList_contains A p "fabkit-Stack-root"); [|done].
  apply IH; [by apply Hp|]. intros y Hy. by apply parentElement_elements in Hy.
Qed.

(** The container of a link of the document is an element of the
    document. *)
Lemma findItemContainer_elements t A link c :
  link ∈ elements t → findItemContainer t A link = Some c → c ∈ elements t.
Proof.
  intros Hlink. unfold findItemContainer.
  destruct (strategy1 _ _ _ _) as [c'|] eqn:H1.
  - intros [= <-]. apply (strategy1_elements _ _ _ _ _ (λ x, parentElement_elements t link x) H1).
  - unfold strategy2. destruct (closest t A link stackSelector) as [sc|] eqn:Hsc; [|done].
    case_match; [|done]. intros [= <-].
    assert (sc ∈ elements t) as Hin.
    { unfold closest in Hsc. apply head_Some_elem_of in Hsc.
      apply list_elem_of_filter in Hsc as [_ [->|Hsc]%elem_of_cons]; [done|].
      by apply ancestors_elements in Hsc. }
    apply outermostStack_elements; [done|].
    intros y Hy. by apply parentElement_elements in Hy.
Qed.

Lemma findElementsInNode_discover r s :
  findElementsInNode r s
  = discover (querySelectorAll (tree s) (attrs s) r sellerLinkSelector) s.
Proof. done. Qed.

(** What one scan does to a state in which the hidden elements of the
    document are seen. *)
Lemma scan_effect r s :
  (∀ e, e ∈ elements (tree s) →
        hasAttribute (attrs s) e "data-filtered" = true →
        attrs s !! (e, "data-filtered-processed") = Some "true") →
  let els := (findElementsInNode r s).1 in
  let newly := filter (λ el, hides s el) els in
  let s' := scan r s in
  rest_view s' = rest_view s
  ∧ NoDup els.*2
  ∧ (∀ p, p ∈ els.*2 →
       p ∈ elements (tree s)
       ∧ hasAttribute (attrs s) p "data-filtered-processed" = false
       ∧ hasAttribute (attrs s) p "data-filtered" = false)
  ∧ processedElements s' = list_to_set els.*1 ∪ processedElements s
  ∧ blockedCount s' = (blockedCount s + Z.of_nat (length newly))%Z
  ∧ ∀ e k, attrs s' !! (e, k)
           = if bool_decide (k = "data-filtered-processed" ∧ e ∈ els.*2
                             ∨ k = "data-filtered" ∧ e ∈ newly.*2)
             then Some "true" else attrs s !! (e, k).
Proof.
  intros Hseen els newly s'.
  pose proof (discovery_discover
    (querySelectorAll (tree s) (attrs s) r sellerLinkSelector) s) as D.
  assert (∀ l p, (l, p) ∈ els → p ∈ elements (tree s)) as Hel.
  { intros l p Hin. pose proof Hin as Hin'.
    apply discover_links in Hin as [Hl _].
    apply querySelectorAll_elements in Hl.
    apply (findItemContainer_elements _ (attrs s) l); [done|].
    by apply (disc_found _ _ _ D). }
  subst s' newly els. unfold scan.
  rewrite findElementsInNode_discover in *.
  destruct (discover _ s) as [els st]. cbn [fst snd] in *.
  assert (∀ p, p ∈ els.*2 → hasAttribute (attrs s) p "data-filtered" = false) as Hvis.
  { intros p Hp. destruct (hasAttribute (attrs s) p "data-filtered") eqn:Hh; [|done].
    apply Hseen in Hh.
    - apply (disc_fresh _ _ _ D), hasAttribute_false in Hp. congruence.
    - apply list_elem_of_fmap in Hp as ([l q] & -> & Hin). by apply (Hel l). }
  destruct (filter_phase els st (disc_nodup _ _ _ D)) as (Hr & Hp & Htr & Hc & Ha).
  { intros p Hp. apply hasAttribute_false. rewrite (disc_attrs _ _ _ D).
    rewrite bool_decide_eq_false_2 by (by intros [? _]).
    by apply hasAttribute_false, Hvis. }
  assert (filter (λ el, hides st el) els = filter (λ el, hides s el) els) as Hsame.
  { apply list_filter_iff. intros el. rewrite (hides_same s st).
    - done.
    - apply (rest_view_tree _ _ (disc_rest _ _ _ D)).
    - apply (rest_view_filteredUsernames _ _ (disc_rest _ _ _ D)).
    - apply (discovery_same_page _ _ _ D). }
  rewrite Hsame in *.
  split; [by rewrite Hr, (disc_rest _ _ _ D)|].
  split; [apply (disc_nodup _ _ _ D)|].
  split.
  { intros p Hp'. split; [|split; [by apply (disc_fresh _ _ _ D)|by apply Hvis]].
    apply list_elem_of_fmap in Hp' as ([l q] & -> & Hin). by apply (Hel l). }
  split; [by rewrite Hp, (disc_processed _ _ _ D)|].
  split; [by rewrite Hc, (disc_count _ _ _ D)|].
  intros e k. rewrite Ha, (disc_attrs _ _ _ D).
  repeat case_bool_decide; try done; naive_solver.
Qed.

(** The two loops of resetAndRefilter over the elements they query. *)
Lemma clearMarkers_fold (l : list nat) (s : State) :
  let s' := foldl clearMarkers s l in
  rest_view s' = rest_view s
  ∧ blockedCount s' = blockedCount s
  ∧ processedElements s' = processedElements s
  ∧ trace s' = trace s
  ∧ ∀ e k, attrs s' !! (e, k)
           = if bool_decide (marker k ∧ e ∈ l) then None else attrs s !! (e, k).
Proof.
  revert s. induction l as [|x l IH]; intros s.
  { cbn. repeat split. intros e k. rewrite bool_decide_eq_false_2; [done|].
    intros [_ H]. by apply elem_of_nil in H. }
  cbn [foldl]. specialize (IH (clearMarkers s x)). cbn zeta in IH.
  destruct IH as (Hr & Hc & Hp & Htr & Ha). repeat split; try done.
  intros e k. rewrite Ha. cbn. unfold removeAttribute.
  case_bool_decide as H1; case_bool_decide as H2; try done.
  - exfalso. apply H2. destruct H1 as [? ?]. split; [done|by right].
  - destruct H2 as [Hk [->|Hin]%elem_of_cons]; [|exfalso; by apply H1].
    destruct Hk as [->| ->].
    + rewrite lookup_delete_ne by done. by rewrite lookup_delete_eq.
    + by rewrite lookup_delete_eq.
  - rewrite !lookup_delete_ne; [done|intros [= -> <-]..];
      apply H2; (split; [|left]); [by left|by right].
Qed.

(** Counting the elements that carry a mark after some of them, which
    did not, got it. *)
Lemma length_filter_added (P Q : nat → Prop) `{!∀ x, Decision (P x)}
    `{!∀ x, Decision (Q x)} (l added : list nat) :
  NoDup l → NoDup added →
  (∀ x, x ∈ added → x ∈ l ∧ ¬ P x) →
  (∀ x, Q x ↔ P x ∨ x ∈ added) →
  length (filter Q l) = length (filter P l) + length added.
Proof.
  intros Hl Hadded Hin HQ. rewrite <-length_app. apply Permutation_length.
  apply NoDup_Permutation.
  - by apply NoDup_filter.
  - apply NoDup_app. split; [by apply NoDup_filter|]. split; [|done].
    intros x [HP _]%list_elem_of_filter Hx. by apply Hin in Hx as [_ ?].
  - intros x. rewrite elem_of_app, !list_elem_of_filter, HQ. naive_solver.
Qed.

End ScanEffect.

(** ** The count and the hidden elements *)

Section Count.
Import Frame.

Lemma foldl_invariant {X Y} (P : X → Prop) (f : X → Y → X) (l : list Y) (a : X) :
  P a → (∀ a x, P a → P (f a x)) → P (foldl f a l).
Proof.
  intros Ha Hf. revert a Ha. induction l as [|x l IH]; intros a Ha; [done|].
  cbn. apply IH. by apply Hf.
Qed.

Lemma filter_none {X} (P : X → Prop) `{!∀ x, Decision (P x)} (l : list X) :
  (∀ x, ¬ P x) → filter P l = [].
Proof.
  intros Hno. induction l as [|x l IH]; [done|]. by rewrite filter_cons_False.
Qed.

Lemma counted_core s s' : core_view s' = core_view s → counted s → counted s'.
Proof.
  unfold core_view. intros [= Ht Ha Hc]. unfold counted, Spec.hidden.
  by rewrite Ht, Ha, Hc.
Qed.

Lemma not_negative_core s s' :
  core_view s' = core_view s → not_negative s → not_negative s'.
Proof.
  unfold core_view. intros [= Ht Ha Hc]. unfold not_negative.
  by rewrite Ha, Hc.
Qed.

Lemma core_view_updateBadge s : core_view (updateBadge s) = core_view s.
Proof. unfold updateBadge, sendMessageSafely. cbn. by destruct (runtime_ok s). Qed.

Lemma core_view_observerCallback mutations s :
  core_view (observerCallback mutations s) = core_view s.
Proof.
  unfold observerCallback.
  assert (core_view (foldl collectRecord s mutations) = core_view s) as H.
  { apply (foldl_invariant (λ st, core_view st = core_view s)); [done|].
    intros st m Hst. unfold collectRecord. case_bool_decide; [|done].
    apply (foldl_invariant (λ st, core_view st = core_view s)); [done|].
    intros st' [e|] Hst'; [|done]. unfold collectAdded, pending_add.
    by case_bool_decide. }
  case_bool_decide; [|done].
  destruct (mutationTimeout _); cbn; apply H.
Qed.

Lemma core_view_fireTimer id s : core_view (fireTimer id s) = core_view s.
Proof.
  unfold fireTimer, processPendingMutations. by case_bool_decide.
Qed.

Lemma elem_of_filter_snd (P : nat * nat → Prop) `{!∀ x, Decision (P x)}
    (els : list (nat * nat)) (e : nat) :
  e ∈ (filter P els).*2 → e ∈ els.*2.
Proof.
  intros (el & -> & [_ Hin]%list_elem_of_filter)%list_elem_of_fmap.
  apply list_elem_of_fmap. by exists el.
Qed.

Lemma hidden_are_seen_scan r s :
  hidden_are_seen (attrs s) → hidden_are_seen (attrs (scan r s)).
Proof.
  intros Hseen.
  destruct (scan_effect r s (λ e _, Hseen e)) as (_ & _ & _ & _ & _ & Ha).
  intros e He. apply hasAttribute_true in He. rewrite Ha in He |- *.
  case_bool_decide as H1.
  - destruct H1 as [[? _]|[_ H1]]; [done|].
    rewrite bool_decide_eq_true_2; [done|]. left. split; [done|].
    by apply elem_of_filter_snd in H1.
  - apply hasAttribute_true, Hseen in He. by case_bool_decide.
Qed.

Lemma hasAttribute_filtered_scan r s e :
  hidden_are_seen (attrs s) →
  hasAttribute (attrs (scan r s)) e "data-filtered" = true
  ↔ hasAttribute (attrs s) e "data-filtered" = true
    ∨ e ∈ (filter (λ el, hides s el) (findElementsInNode r s).1).*2.
Proof.
  intros Hseen.
  destruct (scan_effect r s (λ e _, Hseen e)) as (_ & _ & _ & _ & _ & Ha).
  rewrite !hasAttribute_true, Ha. case_bool_decide as H1.
  - destruct H1 as [[? _]|[_ H1]]; [done|]. split; [by right|by eexists].
  - split; [by left|]. intros [?|Hin]; [done|]. destruct H1. by right.
Qed.

Lemma not_negative_scan r s : not_negative s → not_negative (scan r s).
Proof.
  intros [Hseen Hc]. split; [by apply hidden_are_seen_scan|].
  destruct (scan_effect r s (λ e _, Hseen e)) as (_ & _ & _ & _ & -> & _). lia.
Qed.

Lemma counted_scan r s : counted s → counted (scan r s).
Proof.
  intros (Hnd & Hseen & Hatt & Hc).
  pose proof (scan_effect r s (λ e _, Hseen e)) as (Hr & Hnd' & Hfresh & _ & Hc' & _).
  pose proof (rest_view_tree _ _ Hr) as Ht.
  split; [by rewrite Ht|]. split; [by apply hidden_are_seen_scan|]. split.
  { intros e He. apply hasAttribute_filtered_scan in He; [|done].
    rewrite Ht. destruct He as [He|He]; [by apply Hatt|].
    apply Hfresh. by apply elem_of_filter_snd in He. }
  rewrite Hc', Hc. unfold Spec.hidden. rewrite Ht, <-Nat2Z.inj_add. f_equal.
  symmetry. rewrite <-(length_fmap snd (filter _ (findElementsInNode r s).1)).
  apply length_filter_added; [done| | |].
  - eapply sublist_NoDup; [exact Hnd'|]. apply fmap_sublist, sublist_filter.
  - intros x Hx.
    pose proof (elem_of_filter_snd _ _ _ Hx) as Hx'.
    apply Hfresh in Hx' as (? & _ & Hv). split; [done|]. rewrite Hv. by intros [].
  - intros x. rewrite !Is_true_true. by apply hasAttribute_filtered_scan.
Qed.

Lemma counted_processingPass s : counted s → counted (processingPass s).
Proof.
  intros H. unfold processingPass.
  apply (counted_core _ _ (core_view_updateBadge _)).
  apply (foldl_invariant counted); [by apply (counted_core s)|].
  intros st node Hst. unfold processNode. destruct (negb _); [done|].
  by apply counted_scan.
Qed.

Lemma not_negative_processingPass s : not_negative s → not_negative (processingPass s).
Proof.
  intros H. unfold processingPass.
  apply (not_negative_core _ _ (core_view_updateBadge _)).
  apply (foldl_invariant not_negative); [by apply (not_negative_core s)|].
  intros st node Hst. unfold processNode. destruct (negb _); [done|].
  by apply not_negative_scan.
Qed.

Lemma animationFrame_invariant (P : State → Prop) s :
  (∀ st, core_view st = core_view s → P st) →
  (∀ st, P st → P (processingPass st)) → P (animationFrame s).
Proof.
  intros Hcore Hpass. unfold animationFrame.
  induction (frames s) as [|n IH]; cbn; [by apply Hcore|by apply Hpass].
Qed.

(** The state resetAndRefilter scans: the count at zero, no link
    processed, the markers gone from the elements both loops visit. *)
Lemma resetAndRefilter_cleared s :
  ∃ mid,
    resetAndRefilter s = filterExistingContent mid
    ∧ rest_view mid = rest_view s
    ∧ blockedCount mid = 0%Z
    ∧ processedElements mid = ∅
    ∧ trace mid = trace s ++ [Reset]
    ∧ ∃ l1 l2 : list nat,
        (∀ e, e ∈ elements (tree s) →
              attrs s !! (e, "data-filtered-processed") = Some "true" → e ∈ l1)
        ∧ (∀ e, e ∈ elements (tree s) → e ∉ l1 →
                attrs s !! (e, "data-filtered") = Some "true" → e ∈ l2)
        ∧ (∀ e, e ∈ l1 ∨ e ∈ l2 → e ∈ elements (tree s))
        ∧ ∀ e k, attrs mid !! (e, k)
                 = if bool_decide (marker k ∧ (e ∈ l1 ∨ e ∈ l2)) then None
                   else attrs s !! (e, k).
Proof.
  unfold resetAndRefilter. cbn zeta.
  set (s3 := set_processedElements ∅ (set_blockedCount 0 (log Reset s))).
  set (l1 := querySelectorAll (tree s3) (attrs s3) Document processedSelector).
  destruct (clearMarkers_fold l1 s3) as (Hr1 & Hc1 & Hp1 & Ht1 & Ha1).
  set (s4 := foldl clearMarkers s3 l1) in *.
  set (l2 := querySelectorAll (tree s4) (attrs s4) Document filteredSelector).
  destruct (clearMarkers_fold l2 s4) as (Hr2 & Hc2 & Hp2 & Ht2 & Ha2).
  set (s5 := foldl clearMarkers s4 l2) in *.
  exists s5. split; [done|].
  split; [by rewrite Hr2, Hr1|]. split; [by rewrite Hc2, Hc1|].
  split; [by rewrite Hp2, Hp1|]. split; [by rewrite Ht2, Ht1|].
  pose proof (rest_view_tree _ _ Hr1) as Htree.
  exists l1, l2. repeat split.
  - intros e He Hv. apply list_elem_of_filter. split; [|done].
    unfold matches, getAttribute. cbn. rewrite Hv. cbn. exact I.
  - intros e He Hn Hv. apply list_elem_of_filter. split; [|by rewrite Htree].
    unfold matches, getAttribute. cbn. rewrite Ha1.
    rewrite bool_decide_eq_false_2 by (by intros [_ ?]). cbn. rewrite Hv.
    cbn. exact I.
  - intros e [He|He].
    + by apply querySelectorAll_elements in He.
    + apply querySelectorAll_elements in He. by rewrite Htree in He.
  - intros e k. rewrite Ha2, Ha1. cbn.
    repeat case_bool_decide; try done; naive_solver.
Qed.

Lemma hidden_are_seen_cleared s mid (l1 l2 : list nat) :
  hidden_are_seen (attrs s) →
  (∀ e k, attrs mid !! (e, k)
          = if bool_decide (marker k ∧ (e ∈ l1 ∨ e ∈ l2)) then None
            else attrs s !! (e, k)) →
  hidden_are_seen (attrs mid).
Proof.
  intros Hseen Ha e He. apply hasAttribute_true in He. rewrite Ha in He |- *.
  case_bool_decide as H1; [by destruct He|].
  apply hasAttribute_true, Hseen in He.
  rewrite bool_decide_eq_false_2; [done|]. intros [_ H2]. apply H1.
  split; [by left|done].
Qed.

Lemma not_negative_resetAndRefilter s :
  not_negative s → not_negative (resetAndRefilter s).
Proof.
  intros [Hseen _].
  destruct (resetAndRefilter_cleared s)
    as (mid & -> & Hr & Hc & _ & _ & l1 & l2 & _ & _ & _ & Ha).
  apply (not_negative_core _ _ (core_view_updateBadge _)), not_negative_scan.
  split; [by apply (hidden_are_seen_cleared s mid l1 l2)|]. by rewrite Hc.
Qed.

Lemma counted_resetAndRefilter s : counted s → counted (resetAndRefilter s).
Proof.
  intros (Hnd & Hseen & Hatt & _).
  destruct (resetAndRefilter_cleared s)
    as (mid & -> & Hr & Hc & _ & _ & l1 & l2 & Hl1 & _ & _ & Ha).
  apply (counted_core _ _ (core_view_updateBadge _)), counted_scan.
  pose proof (rest_view_tree _ _ Hr) as Ht.
  assert (∀ e, hasAttribute (attrs mid) e "data-filtered" = true → False) as Hnone.
  { intros e He. apply hasAttribute_true in He. rewrite Ha in He.
    case_bool_decide as H1; [by destruct He|].
    apply hasAttribute_true in He. apply H1. split; [by left|]. left.
    apply Hl1; [by apply Hatt|by apply Hseen]. }
  split; [by rewrite Ht|].
  split; [by apply (hidden_are_seen_cleared s mid l1 l2)|].
  split; [intros e He; by apply Hnone in He|].
  rewrite Hc. unfold Spec.hidden.
  assert (filter (λ e, hasAttribute (attrs mid) e "data-filtered")
            (elements (tree mid)) = []) as ->; [|done].
  apply filter_none. intros x Hx%Is_true_true. by apply Hnone in Hx.
Qed.

Lemma handleMessage_invariant (P : State → Prop) message s :
  (∀ st, core_view st = core_view s → P st) →
  (∀ st, core_view st = core_view s → P (resetAndRefilter st)) →
  P (handleMessage message s).
Proof.
  intros Hcore Hreset. unfold handleMessage.
  destruct (validate message); [by apply Hcore|].
  destruct (Js.is_str _ "updateFilters"); [by apply Hreset|].
  destruct (Js.is_str _ "updateShowCount"); [|by apply Hcore].
  apply Hcore. by rewrite core_view_updateBadge.
Qed.

Lemma initialize_invariant (P : State → Prop) usernames showCount s :
  P s →
  (∀ st st', core_view st' = core_view st → P st → P st') →
  (∀ st, P st → P (scan Document st)) →
  P (initialize usernames showCount s).
Proof.
  intros Hs Hcore Hscan. unfold initialize. destruct (negb _); [done|].
  apply (Hcore _ _ (core_view_updateBadge _)).
  apply (Hcore (filterExistingContent
                  (set_showBlockedCount showCount
                     (set_filteredUsernames (list_to_set usernames) s)))); [done|].
  apply (Hcore _ _ (core_view_updateBadge _)), Hscan.
  by apply (Hcore s).
Qed.

Lemma step_invariant (page : State → Node → gmap (nat * string) string → Prop)
    (P : State → Prop) s s' :
  (∀ st st', core_view st' = core_view st → P st → P st') →
  (∀ st, P st → P (scan Document st)) →
  (∀ st, P st → P (processingPass st)) →
  (∀ st, P st → P (resetAndRefilter st)) →
  (∀ st t' A', page st t' A' → P st → P (set_attrs A' (set_tree t' st))) →
  step page s s' → P s → P s'.
Proof.
  intros Hcore Hscan Hpass Hreset Hpage Hstep Hs.
  destruct Hstep as [s t' A' Hp|s ms|s dt|s id due _ _|s|s m|s].
  - by apply Hpage.
  - by apply (Hcore _ _ (core_view_observerCallback ms s)).
  - by apply (Hcore s).
  - by apply (Hcore _ _ (core_view_fireTimer id s)).
  - apply animationFrame_invariant; [|done]. intros st Hst. by apply (Hcore s).
  - apply handleMessage_invariant.
    + intros st Hst. by apply (Hcore s).
    + intros st Hst. apply Hreset. by apply (Hcore s).
  - by apply (Hcore s).
Qed.

Lemma not_negative_reachable s : reachable page_changes s → not_negative s.
Proof.
  induction 1 as [t A rt us sc Hnd Hfresh|s s' _ IH _ Hstep].
  - apply initialize_invariant.
    + split; [|done]. intros e He. apply hasAttribute_true in He. cbn in He.
      rewrite Hfresh in He by (by left). by destruct He.
    + apply not_negative_core.
    + intros st. apply not_negative_scan.
  - revert Hstep IH. apply step_invariant.
    + apply not_negative_core.
    + intros st. apply not_negative_scan.
    + apply not_negative_processingPass.
    + apply not_negative_resetAndRefilter.
    + intros st t' A' [_ Hm] [Hseen Hc]. split; [|done]. cbn.
      intros e He. apply hasAttribute_true in He.
      rewrite Hm in He |- * by auto with markers. by apply Hseen, hasAttribute_true.
Qed.

Lemma counted_reachable s : reachable page_keeps_hidden s → counted s.
Proof.
  induction 1 as [t A rt us sc Hnd Hfresh|s s' _ IH _ Hstep].
  - assert (∀ e, hasAttribute A e "data-filtered" = true → False) as Hnone.
    { intros e He. apply hasAttribute_true in He.
      rewrite Hfresh in He by (by left). by destruct He. }
    apply initialize_invariant.
    + split; [done|]. split; [intros e He; by apply Hnone in He|].
      split; [intros e He; by apply Hnone in He|]. cbn.
      unfold Spec.hidden. cbn.
      assert (filter (λ e, hasAttribute A e "data-filtered") (elements t) = [])
        as ->; [|done].
      apply filter_none. intros x Hx%Is_true_true. by apply Hnone in Hx.
    + apply counted_core.
    + intros st. apply counted_scan.
  - revert Hstep IH. apply step_invariant.
    + apply counted_core.
    + intros st. apply counted_scan.
    + apply counted_processingPass.
    + apply counted_resetAndRefilter.
    + intros st t' A' [[Hnd Hm] Hkeep] (Hnd0 & Hseen & Hatt & Hc).
      assert (∀ e, hasAttribute A' e "data-filtered" = hasAttribute (attrs st) e "data-filtered")
        as Hsame.
      { intros e. unfold hasAttribute. by rewrite Hm by auto with markers. }
      split; [done|]. cbn. split.
      { intros e He. rewrite Hsame in He. rewrite Hm by auto with markers.
        by apply Hseen. }
      split.
      { intros e He. rewrite Hsame in He. apply Hkeep; [by apply Hatt|done]. }
      rewrite Hc. f_equal. apply Permutation_length. unfold Spec.hidden. cbn.
      apply NoDup_Permutation.
      * by apply NoDup_filter.
      * by apply NoDup_filter.
      * intros x. rewrite !list_elem_of_filter, !Is_true_true, Hsame.
        split; intros [Hx Hin]; (split; [done|]).
        -- by apply Hkeep.
        -- by apply Hatt.
Qed.

End Count.

Section Fresh.
Import Frame.

(** A table built from page attributes holds no marker attribute. *)
Lemma page_attrs_fresh (l : list (nat * string * string)) :
  page_attrs_only l = true →
  ∀ e k, marker k → (list_to_map l : gmap (nat * string) string) !! (e, k) = None.
Proof.
  intros Hl e k Hk. apply not_elem_of_list_to_map_1.
  intros ([[e' k'] v] & [= <- <-] & Hin)%list_elem_of_fmap.
  unfold page_attrs_only in Hl. rewrite forallb_forall in Hl.
  apply list_elem_of_In, Hl in Hin. cbn in Hin.
  by rewrite bool_decide_eq_true_2 in Hin.
Qed.

Lemma three_cards_reachable page usernames showCount :
  reachable page
    (initialize usernames showCount
       (construct Sample.three_cards Sample.three_cards_attrs true)).
Proof.
  apply reach_init.
  - apply (bool_decide_unpack _). vm_compute. exact I.
  - apply page_attrs_fresh. by vm_compute.
Qed.

End Fresh.

(** C10, amended. On a page load that starts without marker attributes,
    as long as the page takes no element that carries the hidden marker
    out of the document, the count equals the number of elements of the
    document that carry the hidden marker, in every state the engine
    reaches; and whatever the page does to the document, the count is
    never negative. *)
Theorem blockedCount_counts_hidden (s : State) :
  (reachable page_keeps_hidden s →
   blockedCount s = Z.of_nat (length (Spec.hidden s)))
  ∧ (reachable page_changes s → (0 ≤ blockedCount s)%Z).
Proof.
  split.
  - intros H. by destruct (counted_reachable s H) as (_ & _ & _ & ?).
  - intros H. by destruct (not_negative_reachable s H).
Qed.

Lemma blockedCount_counts_hidden_witness :
  let s := initialize ["bob"] false
             (construct Sample.three_cards Sample.three_cards_attrs true) in
  Spec.hidden s = [20]
  ∧ blockedCount s = Z.of_nat (length (Spec.hidden s))
  ∧ (0 ≤ blockedCount s)%Z.
Proof.
  intros s. split; [by vm_compute|]. split.
  - apply (proj1 (blockedCount_counts_hidden s)), three_cards_reachable.
  - apply (proj2 (blockedCount_counts_hidden s)), three_cards_reachable.
Defined.

(** C10 as stated fails when the page removes a hidden card: bob's card
    is hidden by the initial scan and counted; the page takes it out of
    the document; the engine then handles a message, and the count is
    still 1 (the badge says so) while no element of the document carries
    the hidden marker. *)
Lemma blockedCount_after_removal :
  let s0 := initialize ["bob"] false
              (construct Sample.three_cards Sample.three_cards_attrs true) in
  let removed := Sample.page [Sample.card 10 " alice "; Sample.card 30 "carol"] in
  let s1 := set_attrs (attrs s0) (set_tree removed s0) in
  let s2 := handleMessage (Sample.updateShowCount true) s1 in
  reachable page_changes s2
  ∧ blockedCount s2 = 1%Z
  ∧ Spec.hidden s2 = []
  ∧ last (outbox s2) = Some {| text := "1"; color := "#f44336" |}
  ∧ ¬ (∀ s, reachable page_changes s →
            blockedCount s = Z.of_nat (length (Spec.hidden s))).
Proof.
  intros s0 removed s1 s2.
  assert (reachable page_changes s2) as Hreach.
  { apply (reach_step _ s1); [|by vm_compute|apply step_message].
    apply (reach_step _ s0); [apply three_cards_reachable|by vm_compute|].
    apply step_page. split; [|done].
    apply (bool_decide_unpack _). vm_compute. exact I. }
  split; [done|]. split; [by vm_compute|]. split; [by vm_compute|].
  split; [by vm_compute|].
  intros H. specialize (H s2 Hreach). by vm_compute in H.
Qed.

(** ** A filter-list update *)

Section Refilter.
Import Frame.

(** Only membership in the seen containers matters. *)
Lemma first_of_each_snoc seen pairs l p :
  Spec.first_of_each seen (pairs ++ [(l, p)])
  = Spec.first_of_each seen pairs
    ++ (if bool_decide (p ∈ seen ∨ p ∈ (Spec.first_of_each seen pairs).*2)
        then [] else [(l, p)]).
Proof.
  revert seen. induction pairs as [|[l0 p0] pairs IH]; intros seen.
  - cbn. case_bool_decide as H1; case_bool_decide as H2; try done.
    + destruct H2. by left.
    + destruct H2 as [?|H2]; [done|]. by apply elem_of_nil in H2.
  - cbn. case_bool_decide as H0; [apply IH|].
    rewrite IH. cbn. do 2 f_equal. apply (f_equal (λ b : bool, if b then _ else _)).
    apply bool_decide_ext. rewrite !elem_of_cons. tauto.
Qed.

(** Discovery from a state with no link processed and no seen marker in
    the document hands out the cards of the document. *)
Lemma discover_cards links s :
  processedElements s = ∅ →
  (∀ e, e ∈ elements (tree s) → attrs s !! (e, "data-filtered-processed") = None) →
  (∀ l, l ∈ links → l ∈ elements (tree s)) →
  (discover links s).1
  = Spec.first_of_each [] (omap (resolution (tree s) (attrs s)) links).
Proof.
  intros Hproc Hclean. induction links as [|l links IH] using rev_ind; intros Hin.
  { done. }
  rewrite discover_snoc, omap_app.
  pose proof (discovery_discover links s) as D.
  assert ((discover links s).1
          = Spec.first_of_each [] (omap (resolution (tree s) (attrs s)) links)) as IH'.
  { apply IH. intros x Hx. apply Hin, elem_of_app. by left. }
  clear IH. set (pairs := omap _ links) in *.
  destruct (discover links s) as [els st]. cbn [fst snd] in *.
  rewrite scanLink_unfold.
  rewrite (rest_view_tree _ _ (disc_rest _ _ _ D)).
  rewrite <-(findItemContainer_same_page _ _ _ (discovery_same_page _ _ _ D)).
  cbn [omap list_omap]. unfold resolution at 1.
  case_bool_decide as Hl.
  - rewrite (disc_processed _ _ _ D), Hproc in Hl.
    apply elem_of_union in Hl as [Hl|Hl]; [|by apply not_elem_of_empty in Hl].
    apply elem_of_list_to_set, list_elem_of_fmap in Hl as ([l' p] & -> & Hl).
    cbn [fst snd]. rewrite (disc_found _ _ _ D _ _ Hl). cbn.
    rewrite first_of_each_snoc, <-IH'.
    rewrite bool_decide_eq_true_2; [by rewrite app_nil_r|].
    right. apply list_elem_of_fmap. by exists (l', p).
  - destruct (findItemContainer (tree s) (attrs s) l) as [p|] eqn:Hp; cbn.
    + rewrite first_of_each_snoc, <-IH'.
      assert (p ∈ elements (tree s)) as Hpin.
      { apply (findItemContainer_elements _ (attrs s) l); [|done].
        apply Hin, elem_of_app. right. left. }
      destruct (decide (p ∈ els.*2)) as [H1|H1].
      * assert (hasAttribute (attrs st) p "data-filtered-processed" = true) as ->.
        { apply hasAttribute_true. rewrite (disc_attrs _ _ _ D).
          by rewrite bool_decide_eq_true_2. }
        rewrite bool_decide_eq_true_2; [by rewrite app_nil_r|]. by right.
      * assert (hasAttribute (attrs st) p "data-filtered-processed" = false) as ->.
        { apply hasAttribute_false. rewrite (disc_attrs _ _ _ D).
          rewrite bool_decide_eq_false_2 by (by intros [_ ?]). by apply Hclean. }
        rewrite bool_decide_eq_false_2; [done|].
        intros [H2|H2]; [by apply elem_of_nil in H2|]. by apply H1.
    + by rewrite app_nil_r.
Qed.

Lemma strings_of_strings (usernames : list string) :
  Js.strings (Js.Arr (Js.Str <$> usernames)) = usernames.
Proof. cbn. induction usernames as [|u us IH]; [done|]. cbn. by rewrite IH. Qed.

Lemma array_of_strings_fmap (usernames : list string) :
  Spec.array_of_strings (Js.Arr (Js.Str <$> usernames)) = true.
Proof. cbn. induction usernames as [|u us IH]; [done|]. by cbn. Qed.

Lemma handleMessage_updateFilters message usernames s :
  Js.prop message "action" = Js.Str "updateFilters" →
  Js.prop message "usernames" = Js.Arr (Js.Str <$> usernames) →
  handleMessage message s
  = resetAndRefilter (set_filteredUsernames (list_to_set usernames) s).
Proof.
  intros Ha Hu. unfold handleMessage.
  assert (validate message = inr true) as ->.
  { apply validate_recognized. destruct message; try done.
    cbn in Ha, Hu. cbn. rewrite Ha, Hu. cbn -[Spec.array_of_strings].
    by rewrite array_of_strings_fmap. }
  rewrite Ha, Hu. cbn -[Js.strings]. by rewrite strings_of_strings.
Qed.

End Refilter.

Section RefilterEffect.
Import Frame.

Lemma cards_same_page t A A' :
  same_page_attrs A A' → Spec.cards t A' = Spec.cards t A.
Proof.
  intros Hsame. unfold Spec.cards, Spec.resolved. f_equal.
  rewrite <-(querySelectorAll_same_page _ _ _ Hsame)
    by (unfold page_selector; cbn; auto with markers).
  apply list_omap_ext, Forall2_same_length_lookup. split; [done|].
  intros i x y Hx Hy. rewrite Hx in Hy. injection Hy as <-.
  by rewrite (findItemContainer_same_page _ _ _ Hsame).
Qed.

Lemma updateBadge_engine s :
  core_view (updateBadge s) = core_view s
  ∧ processedElements (updateBadge s) = processedElements s
  ∧ rest_view (updateBadge s)
    = rest_view (set_outbox (outbox (updateBadge s)) s).
Proof.
  unfold updateBadge, sendMessageSafely. cbn. by destruct (runtime_ok s).
Qed.

(** What resetAndRefilter leaves, on a state whose marker attributes are
    the engine's. *)
Lemma resetAndRefilter_effect s :
  (∀ e k v, marker k → attrs s !! (e, k) = Some v → v = "true") →
  let cards := Spec.cards (tree s) (attrs s) in
  let hidden := filter (λ card, hides s card) cards in
  let s' := resetAndRefilter s in
  ∃ mid,
    s' = filterExistingContent mid
    ∧ rest_view mid = rest_view s
    ∧ blockedCount mid = 0%Z
    ∧ processedElements mid = ∅
    ∧ trace mid = trace s ++ [Reset]
    ∧ (∀ e k, e ∈ elements (tree s) → marker k → attrs mid !! (e, k) = None)
    ∧ same_page_attrs (attrs s) (attrs mid)
    ∧ tree s' = tree s
    ∧ blockedCount s' = Z.of_nat (length hidden)
    ∧ processedElements s' = list_to_set cards.*1
    ∧ (∀ e, e ∈ elements (tree s) →
            hasAttribute (attrs s') e "data-filtered" = bool_decide (e ∈ hidden.*2))
    ∧ (∀ e, e ∈ elements (tree s) →
            hasAttribute (attrs s') e "data-filtered-processed"
            = bool_decide (e ∈ cards.*2)).
Proof.
  intros Hown cards hidden s'. subst s'.
  destruct (resetAndRefilter_cleared s)
    as (mid & -> & Hr & Hc & Hp & Htr & l1 & l2 & Hl1 & Hl2 & _ & Ha).
  pose proof (rest_view_tree _ _ Hr) as Ht.
  assert (∀ e k, e ∈ elements (tree s) → marker k → attrs mid !! (e, k) = None)
    as Hclean.
  { intros e k He Hk. rewrite Ha. case_bool_decide as H1; [done|].
    destruct (attrs s !! (e, k)) as [v|] eqn:Hv; [|done].
    pose proof (Hown _ _ _ Hk Hv) as ->. exfalso. apply H1. split; [done|].
    destruct (decide (e ∈ l1)) as [?|Hn]; [by left|].
    destruct Hk as [->| ->]; [right; by apply Hl2|left; by apply Hl1]. }
  assert (same_page_attrs (attrs s) (attrs mid)) as Hsame.
  { intros e k Hk. rewrite Ha. by rewrite bool_decide_eq_false_2 by (by intros [? _]). }
  exists mid. do 7 (split; [done|]).
  destruct (scan_effect Document mid) as (Hr' & _ & _ & Hp' & Hc' & Ha').
  { intros e He Hh. apply hasAttribute_true in Hh.
    rewrite Ht in He. rewrite Hclean in Hh by auto with markers. by destruct Hh. }
  assert ((findElementsInNode Document mid).1 = cards) as Hels.
  { rewrite findElementsInNode_discover, discover_cards.
    - unfold cards. rewrite <-(cards_same_page _ _ _ Hsame), Ht. done.
    - done.
    - intros e He. rewrite Ht in He. apply Hclean; auto with markers.
    - intros l Hl. by apply querySelectorAll_elements in Hl. }
  assert (filter (λ el, hides mid el) cards = hidden) as Hhid.
  { apply list_filter_iff. intros el. rewrite (hides_same s mid); try done.
    apply (rest_view_filteredUsernames _ _ Hr). }
  rewrite Hels, Hhid in *.
  unfold filterExistingContent.
  destruct (updateBadge_engine (scan Document mid)) as ([= Ht' Hat' Hct'] & Hpt' & _).
  rewrite Ht', Hct', Hpt'. unfold hasAttribute. rewrite Hat'.
  split; [by rewrite (rest_view_tree _ _ Hr')|].
  split; [rewrite Hc', Hc; lia|].
  split; [rewrite Hp', Hp; set_solver|].
  split.
  - intros e He. rewrite Ha', Hclean by auto with markers.
    apply bool_decide_ext. case_bool_decide as H1.
    + destruct H1 as [[? _]|[_ ?]]; [done|]. split; [done|by eexists].
    + split; [by intros [? ?]|]. intros Hin. destruct H1. by right.
  - intros e He. rewrite Ha', Hclean by auto with markers.
    apply bool_decide_ext. case_bool_decide as H1.
    + destruct H1 as [[_ ?]|[? _]]; [|done]. split; [done|by eexists].
    + split; [by intros [? ?]|]. intros Hin. destruct H1. by left.
Qed.

End RefilterEffect.

Section MarkersTrue.
Import Frame.

Lemma markers_true_scan r s :
  hidden_are_seen (attrs s) → markers_true (attrs s) →
  markers_true (attrs (scan r s)).
Proof.
  intros Hseen Htrue e k v Hk.
  destruct (scan_effect r s (λ e _, Hseen e)) as (_ & _ & _ & _ & _ & ->).
  case_bool_decide; [by intros [= <-]|]. by apply Htrue.
Qed.

(** In every state the engine reaches the marker attributes are its
    own. *)
Lemma markers_true_reachable s :
  reachable page_changes s → markers_true (attrs s).
Proof.
  intros Hreach.
  cut (not_negative s ∧ markers_true (attrs s)); [by intros [_ ?]|].
  induction Hreach as [t A rt us sc Hnd Hfresh|s s' _ IH _ Hstep].
  - apply (initialize_invariant (λ st, not_negative st ∧ markers_true (attrs st))).
    + split.
      * split; [|done]. intros e He. apply hasAttribute_true in He. cbn in He.
        rewrite Hfresh in He by (by left). by destruct He.
      * intros e k v Hk. cbn. by rewrite Hfresh.
    + intros st st' Hcore [Hn Hm]. split; [by apply (not_negative_core st)|].
      injection Hcore as _ -> _. done.
    + intros st [Hn Hm]. split; [by apply not_negative_scan|].
      apply markers_true_scan; [by destruct Hn|done].
  - revert Hstep IH.
    apply (step_invariant _ (λ st, not_negative st ∧ markers_true (attrs st))).
    + intros st st' Hcore [Hn Hm]. split; [by apply (not_negative_core st)|].
      injection Hcore as _ -> _. done.
    + intros st [Hn Hm]. split; [by apply not_negative_scan|].
      apply markers_true_scan; [by destruct Hn|done].
    + intros st [Hn Hm]. split; [by apply not_negative_processingPass|].
      unfold processingPass.
      destruct (updateBadge_engine
        (foldl processNode (set_pendingMutations [] (log (Pass (pendingMutations st)) st))
           (pendingMutations st))) as ([= _ -> _] & _).
      apply (foldl_invariant (λ x, not_negative x ∧ markers_true (attrs x))); [done|].
      intros x node [Hxn Hxm]. unfold processNode. destruct (negb _); [done|].
      split; [by apply not_negative_scan|].
      apply markers_true_scan; [by destruct Hxn|done].
    + intros st [Hn Hm]. split; [by apply not_negative_resetAndRefilter|].
      destruct (resetAndRefilter_cleared st)
        as (mid & -> & _ & _ & _ & _ & l1 & l2 & _ & _ & _ & Ha).
      unfold filterExistingContent.
      destruct (updateBadge_engine (scan Document mid)) as ([= _ -> _] & _).
      apply markers_true_scan.
      * apply (hidden_are_seen_cleared st mid l1 l2); [by destruct Hn|done].
      * intros e k v Hk. rewrite Ha. case_bool_decide; [done|]. by apply Hm.
    + intros st t' A' [_ Hsame] [[Hseen Hc] Hm]. cbn. split.
      * split; [|done]. cbn. intros e He. apply hasAttribute_true in He.
        rewrite Hsame in He |- * by auto with markers.
        by apply Hseen, hasAttribute_true.
      * intros e k v Hk. rewrite Hsame by done. by apply Hm.
Qed.

End MarkersTrue.

(** C2, amended. In every state the engine reaches, a message
    updateFilters with the list of names U replaces the filtered set by U;
    resetAndRefilter then brings the engine to a state with the count at 0,
    no link processed and no seen or hidden marker on any element of the
    document, and scans the whole document from there; afterwards the
    count is the number of cards whose seller has a name that is not empty
    and is in U, the hidden marker is on the containers of exactly those
    cards, the seen marker on the containers of exactly the cards, and the
    processed links are the links of the cards. *)
Theorem updateFilters_refilters (message : Js.Value) (usernames : list string)
    (s : State) :
  reachable page_changes s →
  Js.prop message "action" = Js.Str "updateFilters" →
  Js.prop message "usernames" = Js.Arr (Js.Str <$> usernames) →
  let U : gset string := list_to_set usernames in
  let cards := Spec.cards (tree s) (attrs s) in
  let hidden :=
    filter (λ card, Spec.named_seller_in U (tree s) (attrs s) card) cards in
  let s' := handleMessage message s in
  filteredUsernames s' = U
  ∧ (∃ mid,
       s' = updateBadge (scan Document mid)
       ∧ filteredUsernames mid = U
       ∧ blockedCount mid = 0%Z
       ∧ processedElements mid = ∅
       ∧ trace mid = trace s ++ [Reset]
       ∧ tree mid = tree s
       ∧ (∀ e k, e ∈ elements (tree s) → marker k → attrs mid !! (e, k) = None)
       ∧ (∀ e k, ¬ marker k → attrs mid !! (e, k) = attrs s !! (e, k)))
  ∧ blockedCount s' = Z.of_nat (length hidden)
  ∧ processedElements s' = list_to_set cards.*1
  ∧ (∀ e, e ∈ elements (tree s) →
          hasAttribute (attrs s') e "data-filtered" = bool_decide (e ∈ hidden.*2))
  ∧ (∀ e, e ∈ elements (tree s) →
          hasAttribute (attrs s') e "data-filtered-processed"
          = bool_decide (e ∈ cards.*2)).
Proof.
  intros Hown%markers_true_reachable Haction Hnames U cards hidden s'. subst s'.
  rewrite (handleMessage_updateFilters _ _ _ Haction Hnames). fold U.
  destruct (resetAndRefilter_effect (set_filteredUsernames U s) Hown)
    as (mid & Heq & Hr & Hc & Hp & Htr & Hclean & Hsame & Ht' & Hc' & Hp' & Hf & Hfp).
  cbn [tree attrs set_filteredUsernames] in *.
  split.
  { rewrite Heq. unfold filterExistingContent.
    destruct (updateBadge_engine (scan Document mid)) as (_ & _ & Hrv).
    apply rest_view_filteredUsernames in Hrv. rewrite Hrv. cbn.
    destruct (scan_effect Document mid) as (Hr' & _).
    { intros e He Hh. apply hasAttribute_true in Hh.
      rewrite (rest_view_tree _ _ Hr) in He. cbn in He.
      rewrite Hclean in Hh by auto with markers. by destruct Hh. }
    by rewrite (rest_view_filteredUsernames _ _ Hr'),
      (rest_view_filteredUsernames _ _ Hr). }
  split.
  { exists mid. split; [done|]. split; [by rewrite (rest_view_filteredUsernames _ _ Hr)|].
    do 3 (split; [done|]). split; [by rewrite (rest_view_tree _ _ Hr)|].
    split; [done|]. intros e k Hk. symmetry. by apply Hsame. }
  done.
Qed.

Lemma updateFilters_refilters_witness :
  let s := initialize ["bob"] false
             (construct Sample.three_cards Sample.three_cards_attrs true) in
  let s' := handleMessage (Sample.updateFilters ["alice"; "carol"]) s in
  Spec.cards (tree s) (attrs s) = [(13, 10); (23, 20); (33, 30)]
  ∧ blockedCount s = 1%Z
  ∧ blockedCount s' = 2%Z
  ∧ hasAttribute (attrs s') 10 "data-filtered" = true
  ∧ hasAttribute (attrs s') 20 "data-filtered" = false.
Proof.
  intros s s'.
  pose proof (updateFilters_refilters (Sample.updateFilters ["alice"; "carol"])
    ["alice"; "carol"] s (three_cards_reachable _ _ _) eq_refl eq_refl)
    as (_ & _ & Hcount & _ & Hhidden & _).
  fold s' in Hcount, Hhidden.
  split; [by vm_compute|]. split; [by vm_compute|].
  split; [rewrite Hcount; by vm_compute|].
  split.
  - rewrite Hhidden; [by vm_compute|]. apply (bool_decide_unpack _). by vm_compute.
  - rewrite Hhidden; [by vm_compute|]. apply (bool_decide_unpack _). by vm_compute.
Defined.

(** C2 as stated fails for a blank name: the card's trimmed name is the
    empty string, the message brings the empty string as a filtered name,
    so one card has its seller in the set, and the count after the update
    is 0. *)
Lemma updateFilters_blank_name :
  let s := initialize [] false
             (construct Sample.blank_card Sample.blank_card_attrs true) in
  let U : gset string := list_to_set [""] in
  let s' := handleMessage (Sample.updateFilters [""]) s in
  filteredUsernames s' = U
  ∧ filter (λ card, Spec.seller_in U (tree s) (attrs s) card)
      (Spec.cards (tree s) (attrs s)) = [(13, 10)]
  ∧ blockedCount s' = 0%Z
  ∧ blockedCount s'
    ≠ Z.of_nat (length (filter (λ card, Spec.seller_in U (tree s) (attrs s) card)
                          (Spec.cards (tree s) (attrs s)))).
Proof. intros s U s'. by vm_compute. Qed.

(** ** The debounce *)

Section Debounce.
Import Frame.

Lemma filterElement_frame s el :
  rest_view (filterElement s el) = rest_view s
  ∧ trace (filterElement s el) = trace s.
Proof.
  destruct el as [link parent]. rewrite filterElement_unfold.
  repeat case_match; done.
Qed.

Lemma scanLink_trace els s link :
  ∃ evs, trace (scanLink (els, s) link).2 = trace s ++ evs ∧ Forall scan_event evs.
Proof.
  rewrite scanLink_unfold. case_bool_decide.
  { exists []. by rewrite app_nil_r. }
  destruct (findItemContainer _ _ _) as [p|].
  - destruct (hasAttribute _ _ _).
    + exists [Resolve link]. split; [done|]. by repeat constructor.
    + exists [Resolve link; Yield link p]. cbn. rewrite <-app_assoc.
      split; [done|]. by repeat constructor.
  - exists [Resolve link]. split; [done|]. by repeat constructor.
Qed.

(** A scan leaves the browser's side and the filter's settings alone,
    and only events of discovery. *)
Lemma scan_frame r s :
  rest_view (scan r s) = rest_view s
  ∧ ∃ evs, trace (scan r s) = trace s ++ evs ∧ Forall scan_event evs.
Proof.
  unfold scan. rewrite findElementsInNode_discover.
  set (links := querySelectorAll _ _ _ _).
  assert (rest_view (discover links s).2 = rest_view s
          ∧ ∃ evs, trace (discover links s).2 = trace s ++ evs
                   ∧ Forall scan_event evs) as [Hr (evs & Htr & Hevs)].
  { split; [apply (disc_rest _ _ _ (discovery_discover links s))|].
    induction links as [|l links (evs & Htr & Hevs)] using rev_ind.
    - exists []. by rewrite app_nil_r.
    - rewrite discover_snoc. destruct (discover links s) as [els st].
      destruct (scanLink_trace els st l) as (evs' & Htr' & Hevs').
      exists (evs ++ evs'). rewrite Htr'. cbn in Htr. rewrite Htr, app_assoc.
      split; [done|]. by apply Forall_app. }
  destruct (discover links s) as [els st]. cbn [snd] in *.
  cut (rest_view (foldl filterElement st els) = rest_view st
       ∧ trace (foldl filterElement st els) = trace st).
  { intros [-> ->]. split; [done|]. by exists evs. }
  apply (foldl_invariant (λ x, rest_view x = rest_view st ∧ trace x = trace st));
    [done|].
  intros x el [<- <-]. apply filterElement_frame.
Qed.

Lemma scan_tree r s : tree (scan r s) = tree s.
Proof. apply rest_view_tree, scan_frame. Qed.

(** The pass drops the nodes that have left the document and scans the
    others. *)
Lemma processNode_fold nodes s :
  foldl processNode s nodes
  = foldl (λ st node, scan (InElement node) st) s
      (filter (λ node, contains (tree s) node) nodes).
Proof.
  revert s. induction nodes as [|n nodes IH]; intros s; [done|].
  cbn [foldl]. rewrite filter_cons. unfold processNode at 2.
  destruct (contains (tree s) n) eqn:Hn; cbn [negb].
  - rewrite decide_True by exact I. cbn [foldl]. rewrite IH.
    by rewrite scan_tree.
  - rewrite decide_False by (by intros []). apply IH.
Qed.






(** The scans of a pass leave no pass and no badge event. *)
Lemma scans_frame nodes s :
  let s' := foldl (λ st node, scan (InElement node) st) s nodes in
  rest_view s' = rest_view s
  ∧ ∃ evs, trace s' = trace s ++ evs ∧ Forall scan_event evs.
Proof.
  apply (foldl_invariant
    (λ x, rest_view x = rest_view s
          ∧ ∃ evs, trace x = trace s ++ evs ∧ Forall scan_event evs)).
  - split; [done|]. exists []. by rewrite app_nil_r.
  - intros x node [Hr (evs & Htr & Hevs)].
    destruct (scan_frame (InElement node) x) as [Hr' (evs' & Htr' & Hevs')].
    split; [by rewrite Hr'|]. exists (evs ++ evs').
    rewrite Htr', Htr, app_assoc. split; [done|]. by apply Forall_app.
Qed.

(** The observer only adds to the pending set. *)
Lemma collect_effect mutations s :
  ∃ nodes, foldl collectRecord s mutations
           = set_pendingMutations (pendingMutations s ++ nodes) s.
Proof.
  revert s. induction mutations as [|m ms IH]; intros s.
  { exists []. rewrite app_nil_r. by destruct s. }
  cbn [foldl].
  assert (∃ nodes, collectRecord s m
                   = set_pendingMutations (pendingMutations s ++ nodes) s)
    as [nodes ->].
  { unfold collectRecord. case_bool_decide; [|exists []; rewrite app_nil_r; by destruct s].
    generalize (addedNodes m). intros added. revert s.
    induction added as [|a added IHa]; intros s.
    { exists []. rewrite app_nil_r. by destruct s. }
    cbn [foldl].
    assert (∃ nodes, collectAdded s a
                     = set_pendingMutations (pendingMutations s ++ nodes) s)
      as [nodes ->].
    { destruct a as [e|]; cbn; [|exists []; rewrite app_nil_r; by destruct s].
      unfold pending_add. case_bool_decide; [|by exists [e]].
      exists []. rewrite app_nil_r. by destruct s. }
    destruct (IHa (set_pendingMutations (pendingMutations s ++ nodes) s))
      as [nodes' ->].
    exists (nodes ++ nodes'). cbn. by rewrite app_assoc. }
  destruct (IH (set_pendingMutations (pendingMutations s ++ nodes) s)) as [nodes' ->].
  exists (nodes ++ nodes'). cbn. by rewrite app_assoc.
Qed.





End Debounce.



(** ** The history of resolutions *)

Section History.

Lemma snoc_split {X} (tr tr1 tr2 : list X) (ev x : X) :
  tr ++ [ev] = tr1 ++ x :: tr2 →
  tr2 = [] ∧ x = ev ∧ tr = tr1
  ∨ ∃ tr2', tr2 = tr2' ++ [ev] ∧ tr = tr1 ++ x :: tr2'.
Proof.
  induction tr2 as [|y tr2' _] using rev_ind.
  - intros [-> ->]%app_inj_tail. by left.
  - rewrite app_comm_cons, app_assoc. intros [-> ->]%app_inj_tail.
    right. by exists tr2'.
Qed.

Lemma snoc_split2 {X} (tr tr1 tr2 tr3 : list X) (ev x y : X) :
  tr ++ [ev] = tr1 ++ x :: tr2 ++ y :: tr3 →
  tr3 = [] ∧ y = ev ∧ tr = tr1 ++ x :: tr2
  ∨ ∃ tr3', tr3 = tr3' ++ [ev] ∧ tr = tr1 ++ x :: tr2 ++ y :: tr3'.
Proof.
  rewrite app_comm_cons, app_assoc. intros H. apply snoc_split in H.
  destruct H as [(-> & -> & ->)|(tr3' & -> & ->)]; [by left|].
  right. exists tr3'. by rewrite <-app_assoc.
Qed.

Implicit Types (tr : list Event) (P : gset nat) (A : gmap (nat * string) string).

Lemma traced_nil P A : traced [] P A.
Proof.
  repeat split; intros; by destruct tr1.
Qed.

(** An event that is neither a resolution, nor a pair, nor a reset. *)
Lemma traced_snoc_other tr P A ev :
  traced tr P A →
  (∀ l, ev ≠ Resolve l) → (∀ l p, ev ≠ Yield l p) → ev ≠ Reset →
  traced (tr ++ [ev]) P A.
Proof.
  intros (T1 & T2 & Y1 & Y2) Hr Hy Hreset. repeat split.
  - intros tr1 l p tr2 tr3 [(_ & ? & _)|(tr3' & -> & ->)]%snoc_split2.
    + by destruct (Hr l).
    + by eapply T1.
  - intros tr1 l p tr2 l' tr3 [(_ & ? & _)|(tr3' & -> & ->)]%snoc_split2.
    + by destruct (Hy l' p).
    + by eapply T2.
  - intros tr1 l p tr2 [(_ & ? & _)|(tr2' & -> & ->)]%snoc_split Hn.
    + by destruct (Hy l p).
    + eapply Y1; [done|]. intros ?. apply Hn, elem_of_app. by left.
  - intros tr1 l p tr2 [(_ & ? & _)|(tr2' & -> & ->)]%snoc_split Hn.
    + by destruct (Hy l p).
    + eapply Y2; [done|]. intros ?. apply Hn, elem_of_app. by left.
Qed.

Lemma traced_snoc_resolve tr P A link :
  traced tr P A → link ∉ P → traced (tr ++ [Resolve link]) P A.
Proof.
  intros (T1 & T2 & Y1 & Y2) Hlink. repeat split.
  - intros tr1 l p tr2 tr3 [(_ & [= ->] & ->)|(tr3' & -> & ->)]%snoc_split2.
    + destruct (decide (Reset ∈ tr2)) as [?|Hn]; [done|].
      destruct Hlink. by eapply Y1.
    + by eapply T1.
  - intros tr1 l p tr2 l' tr3 [(_ & [=] & _)|(tr3' & -> & ->)]%snoc_split2.
    by eapply T2.
  - intros tr1 l p tr2 [(_ & [=] & _)|(tr2' & -> & ->)]%snoc_split Hn.
    eapply Y1; [done|]. intros ?. apply Hn, elem_of_app. by left.
  - intros tr1 l p tr2 [(_ & [=] & _)|(tr2' & -> & ->)]%snoc_split Hn.
    eapply Y2; [done|]. intros ?. apply Hn, elem_of_app. by left.
Qed.

Lemma traced_snoc_yield tr P A link parent :
  traced tr P A →
  hasAttribute A parent "data-filtered-processed" = false →
  traced (tr ++ [Yield link parent]) ({[link]} ∪ P)
    (setAttribute A parent "data-filtered-processed" "true").
Proof.
  intros (T1 & T2 & Y1 & Y2) Hfresh. repeat split.
  - intros tr1 l p tr2 tr3 [(_ & [=] & _)|(tr3' & -> & ->)]%snoc_split2.
    by eapply T1.
  - intros tr1 l p tr2 l' tr3 [(_ & [= -> ->] & ->)|(tr3' & -> & ->)]%snoc_split2.
    + destruct (decide (Reset ∈ tr2)) as [?|Hn]; [done|].
      rewrite (Y2 _ _ _ _ eq_refl Hn) in Hfresh. done.
    + by eapply T2.
  - intros tr1 l p tr2 [(_ & [= -> ->] & _)|(tr2' & -> & ->)]%snoc_split Hn.
    + set_solver.
    + apply elem_of_union. right. eapply Y1; [done|].
      intros ?. apply Hn, elem_of_app. by left.
  - intros tr1 l p tr2 [(_ & [= -> ->] & _)|(tr2' & -> & ->)]%snoc_split Hn.
    + apply hasAttribute_set_eq.
    + rewrite hasAttribute_set. case_decide; [done|].
      eapply Y2; [done|]. intros ?. apply Hn, elem_of_app. by left.
Qed.

(** After a reset the processed set and the attributes are free. *)
Lemma traced_snoc_reset tr P A P' A' :
  traced tr P A → traced (tr ++ [Reset]) P' A'.
Proof.
  intros (T1 & T2 & Y1 & Y2). repeat split.
  - intros tr1 l p tr2 tr3 [(_ & [=] & _)|(tr3' & -> & ->)]%snoc_split2.
    by eapply T1.
  - intros tr1 l p tr2 l' tr3 [(_ & [=] & _)|(tr3' & -> & ->)]%snoc_split2.
    by eapply T2.
  - intros tr1 l p tr2 [(_ & [=] & _)|(tr2' & -> & ->)]%snoc_split Hn.
    destruct Hn. apply elem_of_app. right. left.
  - intros tr1 l p tr2 [(_ & [=] & _)|(tr2' & -> & ->)]%snoc_split Hn.
    destruct Hn. apply elem_of_app. right. left.
Qed.

Lemma traced_seen tr P A A' :
  traced tr P A →
  (∀ e, A' !! (e, "data-filtered-processed") = A !! (e, "data-filtered-processed")) →
  traced tr P A'.
Proof.
  intros (T1 & T2 & Y1 & Y2) Hsame. repeat split; try done.
  intros tr1 l p tr2 Htr Hn. unfold hasAttribute. rewrite Hsame.
  by eapply Y2.
Qed.

Lemma traced_state_view s s' :
  engine_view s' = engine_view s → traced_state s → traced_state s'.
Proof.
  unfold engine_view. intros [= _ Ha _ Hp Htr]. unfold traced_state.
  by rewrite Ha, Hp, Htr.
Qed.

Lemma traced_scanLink els s link :
  traced_state s → traced_state (scanLink (els, s) link).2.
Proof.
  intros H. rewrite scanLink_unfold. case_bool_decide as Hl; [done|].
  assert (traced_state (log (Resolve link) s)) as Hres.
  { by apply traced_snoc_resolve. }
  destruct (findItemContainer _ _ _) as [p|]; [|done].
  destruct (hasAttribute _ _ _) eqn:Hseen; [done|].
  unfold traced_state. cbn. by apply traced_snoc_yield.
Qed.

Lemma traced_filterElement s el : traced_state s → traced_state (filterElement s el).
Proof.
  destruct el as [link parent]. rewrite filterElement_unfold. intros H.
  repeat case_match; try done; unfold traced_state; cbn;
    apply (traced_seen _ _ (attrs s)); try done; intros e.
  - unfold setAttribute. by rewrite lookup_insert_ne.
  - unfold removeAttribute. by rewrite lookup_delete_ne.
Qed.

Lemma traced_scan r s : traced_state s → traced_state (scan r s).
Proof.
  intros H. unfold scan. rewrite findElementsInNode_discover.
  set (links := querySelectorAll _ _ _ _).
  assert (traced_state (discover links s).2) as Hd.
  { induction links as [|l links IH] using rev_ind; [done|].
    rewrite discover_snoc. destruct (discover links s) as [els st].
    by apply traced_scanLink. }
  destruct (discover links s) as [els st].
  apply (foldl_invariant traced_state); [done|].
  intros x el. apply traced_filterElement.
Qed.

Lemma traced_updateBadge s : traced_state s → traced_state (updateBadge s).
Proof.
  intros H. unfold updateBadge, sendMessageSafely.
  assert (traced_state (log (Badge (badgeMessage s)) s)) as Hb.
  { by apply traced_snoc_other. }
  destruct (runtime_ok _); [|done]. by apply (traced_state_view _ _ eq_refl).
Qed.

Lemma traced_processingPass s : traced_state s → traced_state (processingPass s).
Proof.
  intros H. unfold processingPass. apply traced_updateBadge.
  apply (foldl_invariant traced_state).
  - apply (traced_state_view (log (Pass (pendingMutations s)) s)); [done|].
    by apply traced_snoc_other.
  - intros st node Hst. unfold processNode. destruct (negb _); [done|].
    by apply traced_scan.
Qed.

Lemma traced_resetAndRefilter s : traced_state s → traced_state (resetAndRefilter s).
Proof.
  intros H.
  destruct (resetAndRefilter_cleared s) as (mid & -> & _ & _ & _ & Htr & _).
  apply traced_updateBadge, traced_scan. unfold traced_state. rewrite Htr.
  by eapply traced_snoc_reset.
Qed.

Lemma engine_view_observerCallback mutations s :
  engine_view (observerCallback mutations s) = engine_view s.
Proof.
  unfold observerCallback.
  destruct (collect_effect mutations s) as [nodes ->].
  case_bool_decide; [|done].
  by destruct (mutationTimeout _).
Qed.

Lemma traced_reachable s : reachable page_changes s → traced_state s.
Proof.
  induction 1 as [t A rt us sc Hnd Hfresh|s s' _ IH _ Hstep].
  - unfold initialize. cbn [runtime_ok construct]. destruct (negb rt).
    { apply traced_nil. }
    apply traced_updateBadge.
    apply (traced_state_view (filterExistingContent
      (set_showBlockedCount sc (set_filteredUsernames (list_to_set us)
         (construct t A rt))))); [done|].
    apply traced_updateBadge, traced_scan. apply traced_nil.
  - destruct Hstep as [s t' A' [_ Hm]|s ms|s dt|s id due _ _|s|s m|s].
    + unfold traced_state. cbn. apply (traced_seen _ _ (attrs s)); [done|].
      intros e. apply Hm. by right.
    + by apply (traced_state_view _ _ (engine_view_observerCallback ms s)).
    + by apply (traced_state_view s).
    + apply (traced_state_view s); [|done].
      unfold fireTimer, processPendingMutations. by case_bool_decide.
    + unfold animationFrame. induction (frames s) as [|n IHn]; cbn.
      * by apply (traced_state_view s).
      * by apply traced_processingPass.
    + unfold handleMessage. destruct (validate m).
      * by apply (traced_state_view s).
      * destruct (Js.is_str _ "updateFilters").
        { apply traced_resetAndRefilter. by apply (traced_state_view s). }
        destruct (Js.is_str _ "updateShowCount"); [|done].
        apply traced_updateBadge. by apply (traced_state_view s).
    + by apply (traced_state_view s).
Qed.

End History.

(** C5, amended. In every state the engine reaches, whatever the page
    does to the document: once a link has been handed out with its
    container (and so added to the processed set), findItemContainer is
    not applied to it again before the next full reset; and no container
    is handed out twice between two resets. A link whose resolution fails,
    or whose container is already marked, is not added to the processed
    set. *)
Theorem resolved_once_paired (s : State) :
  reachable page_changes s →
  (∀ tr1 l p tr2 tr3,
     trace s = tr1 ++ Yield l p :: tr2 ++ Resolve l :: tr3 → Reset ∈ tr2)
  ∧ (∀ tr1 l p tr2 l' tr3,
       trace s = tr1 ++ Yield l p :: tr2 ++ Yield l' p :: tr3 → Reset ∈ tr2)
  ∧ (∀ els st link,
       link ∉ processedElements st →
       (findItemContainer (tree st) (attrs st) link = None
        ∨ ∃ p, findItemContainer (tree st) (attrs st) link = Some p
               ∧ hasAttribute (attrs st) p "data-filtered-processed" = true) →
       scanLink (els, st) link = (els, log (Resolve link) st)).
Proof.
  intros Hreach. destruct (traced_reachable s Hreach) as (T1 & T2 & _).
  split; [done|]. split; [done|].
  intros els st link Hl Hfail. rewrite scanLink_unfold.
  rewrite bool_decide_eq_false_2 by done.
  destruct Hfail as [->|(p & -> & ->)]; done.
Qed.

Lemma resolved_once_paired_witness :
  let s := handleMessage (Sample.updateFilters ["alice"])
             (initialize ["bob"] false
                (construct Sample.three_cards Sample.three_cards_attrs true)) in
  let neutral := Badge {| text := ""; color := "#4CAF50" |} in
  let between := [Resolve 23; Yield 23 20; Resolve 33; Yield 33 30; neutral;
                  neutral; Reset] in
  let after := [Yield 13 10; Resolve 23; Yield 23 20; Resolve 33; Yield 33 30;
                neutral] in
  trace s = [Resolve 13] ++ Yield 13 10 :: between ++ Resolve 13 :: after
  ∧ Reset ∈ between.
Proof.
  intros s neutral between after.
  assert (reachable page_changes s) as Hreach.
  { apply (reach_step _ (initialize ["bob"] false
      (construct Sample.three_cards Sample.three_cards_attrs true)));
      [apply three_cards_reachable|by vm_compute|apply step_message]. }
  assert (trace s = [Resolve 13] ++ Yield 13 10 :: between ++ Resolve 13 :: after)
    as Htrace by (by vm_compute).
  split; [exact Htrace|].
  exact (proj1 (resolved_once_paired s Hreach) _ _ _ _ _ Htrace).
Defined.

(** C5 as stated fails for a link that is not paired: the page adds a
    container and, inside it, a second container that holds a seller link
    outside any card; the observer is told of both; the one pass scans the
    outer container and then the inner one, and findItemContainer is applied
    to the link twice, with no reset between. *)
Lemma resolved_twice_unpaired :
  let s0 := initialize [] false (construct (Sample.page []) ∅ true) in
  let s1 := set_attrs Sample.lone_link_attrs (set_tree Sample.lone_link s0) in
  let s2 := observerCallback Sample.lone_link_records s1 in
  let s3 := advance 100 s2 in
  let s4 := fireTimer 1 s3 in
  let s5 := animationFrame s4 in
  let neutral := Badge {| text := ""; color := "#4CAF50" |} in
  reachable page_changes s5
  ∧ trace s5 = [neutral; neutral; Pass [5; 7]] ++ Resolve 6 :: [] ++ Resolve 6 :: [neutral]
  ∧ ¬ (∀ s, reachable page_changes s →
            ∀ tr1 l tr2 tr3,
              trace s = tr1 ++ Resolve l :: tr2 ++ Resolve l :: tr3 → Reset ∈ tr2).
Proof.
  intros s0 s1 s2 s3 s4 s5 neutral.
  assert (reachable page_changes s5) as Hreach.
  { apply (reach_step _ s4); [|by vm_compute|apply step_frame].
    apply (reach_step _ s3); [|by vm_compute|].
    2:{ apply (step_timer _ _ 1 100); [|by vm_compute].
        apply (bool_decide_unpack _). by vm_compute. }
    apply (reach_step _ s2); [|by vm_compute|apply step_tick].
    apply (reach_step _ s1); [|by vm_compute|apply step_observe].
    apply (reach_step _ s0); [|by vm_compute|].
    2:{ apply step_page. split.
        - apply (bool_decide_unpack _). by vm_compute.
        - intros e k Hk. transitivity (@None string).
          + apply (page_attrs_fresh [((6, "href"), "/sellers/profile")]); done.
          + by vm_compute. }
    apply reach_init.
    - apply (bool_decide_unpack _). by vm_compute.
    - done. }
  assert (trace s5 = [neutral; neutral; Pass [5; 7]] ++ Resolve 6 :: [] ++ Resolve 6 :: [neutral])
    as Htrace by (by vm_compute).
  split; [done|]. split; [done|].
  intros H. specialize (H s5 Hreach _ _ _ _ Htrace). by apply elem_of_nil in H.
Qed.

(** * More properties: the content script, the background script, the popup *)

(** ** The container of a link *)

Section Containers.

Lemma subtree_None (n : Node) (e : nat) : subtree e n = None ↔ e ∉ elements n.
Proof.
  induction n as [data|i tg ks IH] using Node_children_ind; [set_solver|].
  cbn [subtree elements]. destruct (decide (i = e)) as [->|Hne].
  { split; [done|]. intros H. exfalso. apply H. by left. }
  rewrite first_some_None, not_elem_of_cons, elem_of_flat_map_elements.
  rewrite Forall_forall in IH. rewrite Forall_forall. split.
  - intros H. split; [done|]. intros (k & Hk & He). by apply (IH k Hk) in He; [|apply H].
  - intros [_ H] k Hk. apply (IH k Hk). intros He. apply H. by exists k.
Qed.

Lemma first_some_skip {A B} (f : A → option B) (l1 l2 : list A) (x : A) :
  Forall (λ z, f z = None) l1 → first_some f (l1 ++ x :: l2) = first_some f (x :: l2).
Proof.
  induction 1 as [|z l1 Hz _ IH]; [done|]. cbn. by rewrite Hz.
Qed.

(** In a tree without repeated identities, an element lies below each of
    its ancestors. *)
Lemma path_to_descendants (n : Node) (e x : nat) (p : list nat) :
  NoDup (elements n) → path_to e n = Some p → x ∈ p → e ∈ descendants n x.
Proof.
  revert p. induction n as [data|i tg ks IH] using Node_children_ind; [done|].
  intros p Hnd. cbn [path_to]. destruct (decide (i = e)) as [->|Hne].
  { intros [= <-]. by intros ?%elem_of_nil. }
  destruct (first_some (path_to e) ks) as [p'|] eqn:Hp; [|done].
  intros [= <-]. apply first_some_Some in Hp as (l1 & k & l2 & -> & Hk & Hl1).
  cbn [elements] in Hnd. apply NoDup_cons in Hnd as [Hi Hnd].
  rewrite flat_map_app in Hnd. apply NoDup_app in Hnd as (_ & Hdisj & Hnd).
  apply NoDup_flat_map_cons in Hnd as (Hndk & _ & _).
  pose proof (path_to_Some _ _ _ Hk) as [Hek Hpk].
  intros [Hx| ->%list_elem_of_singleton]%elem_of_app.
  - assert (x ∈ elements k) as Hxk by by apply Hpk.
    assert (i ≠ x) as Hix.
    { intros ->. apply Hi. rewrite flat_map_app. apply elem_of_app. right.
      cbn. apply elem_of_app. by left. }
    unfold descendants. cbn [subtree]. rewrite decide_False by done.
    rewrite first_some_skip.
    2: { apply Forall_forall. intros k' Hk'. apply subtree_None. intros Hx'.
         apply (Hdisj x).
         - apply elem_of_flat_map_elements. by exists k'.
         - cbn. apply elem_of_app. by left. }
    cbn [first_some].
    rewrite Forall_forall in IH.
    assert (k ∈ l1 ++ k :: l2) as Hkin by set_solver.
    pose proof (IH k Hkin p' Hndk Hk Hx) as Hd. unfold descendants in Hd.
    destruct (subtree x k) as [m|]; [done|]. by apply elem_of_nil in Hd.
  - unfold descendants. cbn [subtree]. rewrite decide_True by done.
    apply elem_of_flat_map_elements. exists k. split; [set_solver|done].
Qed.

Lemma ancestors_descendants (t : Node) (e x : nat) :
  NoDup (elements t) → x ∈ ancestors t e → e ∈ descendants t x.
Proof.
  intros Hnd. unfold ancestors.
  destruct (path_to e t) as [p|] eqn:Hp; [|by intros ?%elem_of_nil].
  by apply path_to_descendants.
Qed.

(** The ancestors of an ancestor are ancestors. *)
Lemma ancestors_suffix (t : Node) (e x : nat) :
  NoDup (elements t) → x ∈ ancestors t e →
  ∃ pre, ancestors t e = pre ++ x :: ancestors t x.
Proof.
  intros Hnd.
  remember (ancestors t e) as l eqn:Hl. revert e Hl.
  induction l as [|p rest IH]; intros e Hl; [by intros ?%elem_of_nil|].
  symmetry in Hl. pose proof (ancestors_parent _ _ _ _ Hnd Hl) as Hrest.
  intros [->|Hx]%elem_of_cons.
  - exists []. by rewrite Hrest.
  - destruct (IH p (eq_sym Hrest) Hx) as [pre Hpre].
    exists (p :: pre). cbn. by rewrite Hpre.
Qed.

Lemma ancestors_trans (t : Node) (e x y : nat) :
  NoDup (elements t) → x ∈ ancestors t e → y ∈ ancestors t x →
  y ∈ ancestors t e.
Proof.
  intros Hnd Hx Hy. destruct (ancestors_suffix _ _ _ Hnd Hx) as [pre ->].
  set_solver.
Qed.

Lemma take_while_elem (P : nat → bool) (l : list nat) (x : nat) :
  x ∈ Spec.take_while P l → x ∈ l.
Proof.
  induction l as [|y l IH]; [done|]. cbn. destruct (P y); [|by intros ?%elem_of_nil].
  intros [->|?]%elem_of_cons; [by left|right; by apply IH].
Qed.

Lemma head_filter_elem {X} (P : X → Prop) `{!∀ x, Decision (P x)} (l : list X) (x : X) :
  head (filter P l) = Some x → x ∈ l ∧ P x.
Proof.
  intros Hh. apply head_Some in Hh as [l' Hh].
  assert (x ∈ filter P l) as Hin by (rewrite Hh; by left).
  by apply list_elem_of_filter in Hin as [? ?].
Qed.

(** The container found for a link is one of its ancestors, and it
    contains a listing link and an image. *)
Lemma findItemContainer_above (t : Node) (A : gmap (nat * string) string)
    (link c : nat) :
  NoDup (elements t) →
  matches t A sellerLinkSelector link = true →
  findItemContainer t A link = Some c →
  c ∈ ancestors t link ∧ Spec.contains_listing_and_image t A c = true.
Proof.
  intros Hnd Hlink. unfold findItemContainer.
  rewrite (strategy1_ancestors _ _ Hnd).
  destruct (head (filter _ (take 10 _))) as [c'|] eqn:H1.
  { intros [= ->]. apply head_filter_elem in H1 as [Hin Hq]. split.
    - apply elem_of_take in Hin as (i & Hi & _). by eapply list_elem_of_lookup_2.
    - unfold Spec.qualifies in Hq. apply Is_true_true in Hq.
      by apply andb_true_iff in Hq as [? _]. }
  unfold strategy2. rewrite closest_of_link by done.
  destruct (head (filter _ (ancestors t link))) as [nearest|] eqn:H2; [|done].
  rewrite (outermostStack_ancestors _ _ Hnd).
  apply head_filter_elem in H2 as [Hnear _].
  set (outer := default nearest _).
  assert (outer ∈ ancestors t link) as Hout.
  { unfold outer. destruct (last _) as [o|] eqn:Hlast; [|done]. cbn.
    apply last_Some in Hlast as [l' Hl'].
    assert (o ∈ Spec.take_while (Spec.stack_container A) (ancestors t nearest))
      as Ho by (rewrite Hl'; set_solver).
    apply take_while_elem in Ho. by eapply ancestors_trans. }
  unfold querySelector. rewrite !is_Some_head.
  fold (Spec.contains_listing_and_image t A outer).
  destruct (Spec.contains_listing_and_image t A outer) eqn:Hc; [|done].
  by intros [= <-].
Qed.

End Containers.

(** X1. content script, ElementCache.findItemContainer: in a document
    whose elements are distinct, the container found for a seller link
    is an ancestor of the link, so the link is among the seller links
    below it; the container is not the link itself, and a listing link and
    an image lie below it. *)
Theorem findItemContainer_contains (t : Node) (A : gmap (nat * string) string)
    (link c : nat) :
  NoDup (elements t) →
  matches t A sellerLinkSelector link = true →
  findItemContainer t A link = Some c →
  c ∈ ancestors t link
  ∧ c ≠ link
  ∧ link ∈ querySelectorAll t A (InElement c) sellerLinkSelector
  ∧ is_Some (querySelector t A (InElement c) listingLinkSelector)
  ∧ is_Some (querySelector t A (InElement c) imgSelector).
Proof.
  intros Hnd Hlink Hc.
  destruct (findItemContainer_above t A link c Hnd Hlink Hc) as [Hin Hboth].
  pose proof (ancestors_descendants _ _ _ Hnd Hin) as Hbelow.
  split; [done|]. split.
  { intros ->. unfold descendants in Hbelow.
    destruct (subtree link t) as [[data|i tg ks]|] eqn:Hs;
      try by apply elem_of_nil in Hbelow.
    pose proof (subtree_Some _ _ _ Hs) as [(tg' & ks' & [= -> -> ->]) Hsub].
    assert (∀ n m e, NoDup (elements n) → subtree e n = Some m → NoDup (elements m))
      as Hsubnd.
    { clear. induction n as [data|i tg ks IH] using Node_children_ind; [done|].
      intros m e Hnd. cbn [subtree]. destruct (decide (i = e)); [by intros [= <-]|].
      intros (l1 & k & l2 & -> & Hk & _)%first_some_Some.
      cbn [elements] in Hnd. apply NoDup_cons in Hnd as [_ Hnd].
      rewrite flat_map_app in Hnd. apply NoDup_app in Hnd as (_ & _ & Hnd).
      apply NoDup_flat_map_cons in Hnd as (Hndk & _ & _).
      rewrite Forall_forall in IH. eapply (IH k); [set_solver|done|done]. }
    pose proof (Hsubnd _ _ _ Hnd Hs) as Hm. cbn [elements] in Hm.
    by apply NoDup_cons in Hm as [Hm _]. }
  split.
  { unfold querySelectorAll. apply list_elem_of_filter. split; [|done].
    by apply Is_true_true. }
  unfold Spec.contains_listing_and_image in Hboth.
  apply andb_true_iff in Hboth as [H1 H2].
  apply bool_decide_eq_true in H1, H2. unfold querySelector.
  split; [by destruct (querySelectorAll t A (InElement c) listingLinkSelector)|].
  by destruct (querySelectorAll t A (InElement c) imgSelector).
Qed.

Lemma findItemContainer_contains_witness :
  findItemContainer Sample.deep_card Sample.deep_card_attrs 13 = Some 200
  ∧ 200 ∈ ancestors Sample.deep_card 13
  ∧ 13 ∈ querySelectorAll Sample.deep_card Sample.deep_card_attrs (InElement 200)
           sellerLinkSelector.
Proof.
  assert (findItemContainer Sample.deep_card Sample.deep_card_attrs 13 = Some 200)
    as Hc by (by vm_compute).
  split; [done|].
  destruct (findItemContainer_contains Sample.deep_card Sample.deep_card_attrs 13 200)
    as (H1 & _ & H3 & _); [|by vm_compute|exact Hc|by split].
  apply (bool_decide_unpack _). vm_compute. exact I.
Defined.

(** ** Scanning again *)

Section Settled.
Import Script.

Lemma filterElement_processed (s : State) (el : nat * nat) :
  processedElements (filterElement s el) = processedElements s
  ∧ ∀ e, attrs (filterElement s el) !! (e, "data-filtered-processed")
         = attrs s !! (e, "data-filtered-processed").
Proof.
  destruct el as [link parent]. rewrite filterElement_unfold.
  repeat case_match; try done; cbn; split; try done; intros e.
  - unfold setAttribute. by rewrite lookup_insert_ne.
  - unfold removeAttribute. by rewrite lookup_delete_ne.
Qed.

(** A settled link stays settled while the document stays, the
    processed set grows and the seen markers stay. *)
Lemma settled_mono (s s' : State) (link : nat) :
  tree s' = tree s → same_page_attrs (attrs s) (attrs s') →
  processedElements s ⊆ processedElements s' →
  (∀ p, hasAttribute (attrs s) p "data-filtered-processed" = true →
        hasAttribute (attrs s') p "data-filtered-processed" = true) →
  settled s link → settled s' link.
Proof.
  intros Ht Hsame Hp Hm. unfold settled. rewrite Ht.
  rewrite <-(findItemContainer_same_page _ _ _ Hsame).
  intros [H|[H|(p & H1 & H2)]]; [left; set_solver|by right; left|].
  right; right. exists p. split; [done|by apply Hm].
Qed.

(** One turn of the loop settles its link and unsettles none. *)
Lemma scanLink_settles (els : list (nat * nat)) (s : State) (link : nat) :
  let s' := (scanLink (els, s) link).2 in
  tree s' = tree s ∧ same_page_attrs (attrs s) (attrs s')
  ∧ processedElements s ⊆ processedElements s'
  ∧ (∀ p, hasAttribute (attrs s) p "data-filtered-processed" = true →
          hasAttribute (attrs s') p "data-filtered-processed" = true)
  ∧ settled s' link.
Proof.
  rewrite scanLink_unfold. unfold settled. case_bool_decide as Hin.
  { cbn. repeat split; auto with markers. }
  destruct (findItemContainer (tree s) (attrs s) link) as [p|] eqn:Hc.
  2: { cbn. repeat split; auto with markers. }
  destruct (hasAttribute (attrs s) p "data-filtered-processed") eqn:Hp.
  { cbn. repeat split; auto with markers. right; right. by exists p. }
  cbn. repeat split; auto with markers.
  - set_solver.
  - intros q Hq. rewrite hasAttribute_set. by case_decide.
  - left. set_solver.
Qed.

Lemma discover_settles (links : list nat) (s : State) :
  let s' := (discover links s).2 in
  tree s' = tree s ∧ same_page_attrs (attrs s) (attrs s')
  ∧ processedElements s ⊆ processedElements s'
  ∧ (∀ p, hasAttribute (attrs s) p "data-filtered-processed" = true →
          hasAttribute (attrs s') p "data-filtered-processed" = true)
  ∧ Forall (settled s') links.
Proof.
  induction links as [|l links IH] using rev_ind.
  { cbn. repeat split; auto with markers. }
  rewrite discover_snoc. destruct (discover links s) as [els st].
  cbn [snd] in IH. destruct IH as (I1 & I2 & I3 & I4 & I5).
  destruct (scanLink_settles els st l) as (S1 & S2 & S3 & S4 & S5).
  cbv zeta. split; [congruence|]. split; [by eapply same_page_trans|].
  split; [set_solver|]. split; [auto|].
  apply Forall_app. split; [|by constructor].
  eapply Forall_impl; [exact I5|]. intros x. by apply settled_mono.
Qed.

(** Over settled links discovery hands out nothing and changes nothing
    but the history, which it extends by resolutions. *)
Lemma discover_settled (links : list nat) (s : State) :
  Forall (settled s) links →
  (discover links s).1 = []
  ∧ scan_view (discover links s).2 = scan_view s
  ∧ ∃ evs, trace (discover links s).2 = trace s ++ evs
           ∧ Forall (λ ev, ∃ l, ev = Resolve l) evs.
Proof.
  induction links as [|l links IH] using rev_ind.
  { intros _. repeat split; try done. exists []. by rewrite app_nil_r. }
  intros [Hl Hlast%Forall_inv]%Forall_app.
  destruct (IH Hl) as (I1 & I2 & evs & I3 & I4).
  rewrite discover_snoc. destruct (discover links s) as [els st].
  cbn [fst snd] in *. subst els.
  assert (settled st l) as Hst.
  { unfold scan_view, rest_view in I2. unfold settled in *.
    injection I2 as -> _ _ _ _ _ _ _ _ _ _ _ _ _ -> _ ->. done. }
  rewrite scanLink_unfold. destruct Hst as [H|[H|(p & H1 & H2)]].
  - rewrite bool_decide_eq_true_2 by done. repeat split; try done. by exists evs.
  - case_bool_decide; [repeat split; try done; by exists evs|].
    rewrite H. cbn. repeat split; try done.
    exists (evs ++ [Resolve l]). rewrite I3, app_assoc. split; [done|].
    apply Forall_app. split; [done|]. repeat constructor. by eexists.
  - case_bool_decide; [repeat split; try done; by exists evs|].
    rewrite H1, H2. cbn. repeat split; try done.
    exists (evs ++ [Resolve l]). rewrite I3, app_assoc. split; [done|].
    apply Forall_app. split; [done|]. repeat constructor. by eexists.
Qed.

End Settled.

Section ScanTwice.
Import Script.

Lemma page_selector_sellerLink : page_selector sellerLinkSelector.
Proof. cbn. auto with markers. Qed.

(** After a scan of a root, every seller link under it is settled. *)
Lemma scan_settles (r : QueryRoot) (s : State) :
  let links := querySelectorAll (tree s) (attrs s) r sellerLinkSelector in
  tree (scan r s) = tree s
  ∧ same_page_attrs (attrs s) (attrs (scan r s))
  ∧ Forall (settled (scan r s)) links.
Proof.
  intros links. unfold scan. rewrite findElementsInNode_discover. fold links.
  destruct (discover_settles links s) as (D1 & D2 & D3 & D4 & D5).
  destruct (discover links s) as [els st]. cbn [snd] in *.
  cut (tree (foldl filterElement st els) = tree st
       ∧ same_page_attrs (attrs st) (attrs (foldl filterElement st els))
       ∧ processedElements (foldl filterElement st els) = processedElements st
       ∧ ∀ e, attrs (foldl filterElement st els) !! (e, "data-filtered-processed")
              = attrs st !! (e, "data-filtered-processed")).
  { intros (F1 & F2 & F3 & F4). split; [congruence|].
    split; [by eapply same_page_trans|].
    eapply Forall_impl; [exact D5|]. intros l. apply settled_mono; try done.
    - by rewrite F3.
    - intros p. unfold hasAttribute. by rewrite F4. }
  apply (foldl_invariant
    (λ x, tree x = tree st ∧ same_page_attrs (attrs st) (attrs x)
          ∧ processedElements x = processedElements st
          ∧ ∀ e, attrs x !! (e, "data-filtered-processed")
                 = attrs st !! (e, "data-filtered-processed"))).
  { repeat split; auto with markers. }
  intros x el (F1 & F2 & F3 & F4).
  destruct (filterElement_processed x el) as [P1 P2].
  split; [by rewrite filterElement_tree|].
  split; [eapply same_page_trans; [exact F2|apply filterElement_same_page]|].
  split; [congruence|]. intros e. by rewrite P2.
Qed.

End ScanTwice.

(** X2. content script, findElementsInNode and filterElement: a scan of
    a search root that follows a scan of the same root, the document
    unchanged in between, hands out no pair, so that no card is filtered
    or counted twice: it leaves the attributes, the count, the processed
    set and everything else as the first scan left them, and only applies
    findItemContainer again to the links the first scan could not pair. *)
Theorem scan_twice (r : QueryRoot) (s : State) :
  let s1 := scan r s in
  let s2 := scan r s1 in
  (findElementsInNode r s1).1 = []
  ∧ tree s2 = tree s1 ∧ attrs s2 = attrs s1
  ∧ blockedCount s2 = blockedCount s1
  ∧ processedElements s2 = processedElements s1
  ∧ filteredUsernames s2 = filteredUsernames s1
  ∧ outbox s2 = outbox s1
  ∧ ∃ evs, trace s2 = trace s1 ++ evs ∧ Forall (λ ev, ∃ l, ev = Resolve l) evs.
Proof.
  intros s1 s2.
  destruct (scan_settles r s) as (Ht & Hsame & Hset). fold s1 in Ht, Hsame, Hset.
  assert (querySelectorAll (tree s1) (attrs s1) r sellerLinkSelector
          = querySelectorAll (tree s) (attrs s) r sellerLinkSelector) as Hlinks.
  { rewrite Ht. symmetry. apply querySelectorAll_same_page; [done|].
    apply page_selector_sellerLink. }
  assert (findElementsInNode r s1
          = discover (querySelectorAll (tree s) (attrs s) r sellerLinkSelector) s1)
    as Hf by (by rewrite findElementsInNode_discover, Hlinks).
  destruct (discover_settled _ s1 Hset) as (D1 & D2 & evs & D3 & D4).
  unfold s2, scan. rewrite Hf.
  destruct (discover _ s1) as [els st]. cbn [fst snd] in *. subst els.
  cbn [foldl]. unfold Script.scan_view, rest_view in D2.
  injection D2 as -> _ _ _ _ _ -> _ _ -> _ _ _ _ -> -> ->.
  repeat split; try done. by exists evs.
Qed.

(** ** What a scan decides *)

Lemma same_container_same_link (els : list (nat * nat)) (l l' p : nat) :
  NoDup els.*2 → (l, p) ∈ els → (l', p) ∈ els → l = l'.
Proof.
  induction els as [|[a b] els IH]; [by intros _ ?%elem_of_nil|].
  cbn. intros [Hb Hnd]%NoDup_cons H1 H2.
  apply elem_of_cons in H1 as [H1|H1]; apply elem_of_cons in H2 as [H2|H2].
  - congruence.
  - injection H1 as -> ->. exfalso. apply Hb. apply list_elem_of_fmap.
    by exists (l', b).
  - injection H2 as -> ->. exfalso. apply Hb. apply list_elem_of_fmap.
    by exists (l, b).
  - by apply IH.
Qed.

(** X3. content script, findElementsInNode, filterElement and the scans
    built from them: in every state the engine reaches, a scan of any
    search root hands out pairs with distinct containers, none of which
    carried a marker; after the scan each of these containers carries the
    seen marker, its link is processed, and it carries the hidden marker
    exactly when the seller of its link has a name that is not empty and
    is in the filtered set; the hidden marker of every other element is as
    before, and the count has grown by the number of containers hidden. *)
Theorem scan_agrees (r : QueryRoot) (s : State) :
  reachable page_changes s →
  let els := (findElementsInNode r s).1 in
  let decided := λ el,
    Spec.named_seller_in (filteredUsernames s) (tree s) (attrs s) el in
  let s' := scan r s in
  NoDup els.*2
  ∧ (∀ link parent, (link, parent) ∈ els →
       hasAttribute (attrs s) parent "data-filtered-processed" = false
       ∧ hasAttribute (attrs s) parent "data-filtered" = false
       ∧ hasAttribute (attrs s') parent "data-filtered-processed" = true
       ∧ link ∈ processedElements s'
       ∧ hasAttribute (attrs s') parent "data-filtered" = decided (link, parent))
  ∧ (∀ e, e ∉ els.*2 →
       hasAttribute (attrs s') e "data-filtered"
       = hasAttribute (attrs s) e "data-filtered")
  ∧ blockedCount s'
    = (blockedCount s + Z.of_nat (length (filter (λ el, decided el) els)))%Z.
Proof.
  intros Hreach els decided s'.
  destruct (not_negative_reachable s Hreach) as [Hseen _].
  destruct (scan_effect r s (λ e _, Hseen e)) as (_ & Hnd & Hfresh & Hp & Hc & Ha).
  fold els s' in Hnd, Hfresh, Hp, Hc, Ha.
  change (λ el, hides s el) with (λ el, decided el) in Hc, Ha.
  split; [done|]. split; [|split; [|done]].
  - intros link parent Hin.
    assert (parent ∈ els.*2) as Hpar.
    { apply list_elem_of_fmap. by exists (link, parent). }
    destruct (Hfresh parent Hpar) as (_ & F1 & F2).
    split; [done|]. split; [done|]. split.
    { apply hasAttribute_true. rewrite Ha, (bool_decide_eq_true_2 (_ ∨ _)); [done|by left]. }
    split.
    { rewrite Hp. apply elem_of_union. left. apply elem_of_list_to_set.
      apply list_elem_of_fmap. by exists (link, parent). }
    unfold hasAttribute. rewrite Ha.
    destruct (decided (link, parent)) eqn:Hd.
    + rewrite (bool_decide_eq_true_2 (_ ∨ _)); [done|].
      right. split; [done|]. apply list_elem_of_fmap. exists (link, parent).
      split; [done|]. apply list_elem_of_filter. split; [by apply Is_true_true|done].
    + rewrite (bool_decide_eq_false_2 (_ ∨ _)).
      { exact F2. }
      intros [[? _]|[_ Hin']]; [done|].
      apply list_elem_of_fmap in Hin' as ([l' p'] & Heq & Hin').
      cbn in Heq. subst p'. apply list_elem_of_filter in Hin' as [Hd' Hin'].
      assert (l' = link) as ->.
      { by eapply same_container_same_link. }
      apply Is_true_true in Hd'. unfold decided in Hd. unfold hides in Hd'.
      congruence.
  - intros e He. unfold hasAttribute. rewrite Ha.
    rewrite (bool_decide_eq_false_2 (_ ∨ _)); [done|].
    intros [[? _]|[_ Hin']]; [done|]. apply He.
    by eapply elem_of_filter_snd.
Qed.

Lemma scan_agrees_witness :
  let s0 := initialize ["bob"] false
              (construct Sample.three_cards Sample.three_cards_attrs true) in
  let s := set_attrs (Sample.grown_attrs (attrs s0)) (set_tree (Sample.grown 2) s0) in
  let s' := scan (InElement 1) s in
  (findElementsInNode (InElement 1) s).1 = [(43, 40); (53, 50)]
  ∧ hasAttribute (attrs s') 40 "data-filtered" = true
  ∧ hasAttribute (attrs s') 50 "data-filtered" = false
  ∧ blockedCount s' = 2%Z.
Proof.
  intros s0 s s'.
  assert ((findElementsInNode (InElement 1) s).1 = [(43, 40); (53, 50)]) as Hels
    by (by vm_compute).
  assert (hasAttribute (attrs s') 50 "data-filtered" = false
          ∧ blockedCount s' = 2%Z) as Hrest
    by (vm_compute; split; reflexivity).
  assert (Spec.named_seller_in (filteredUsernames s) (tree s) (attrs s) (43, 40)
          = true) as Hbob by (vm_compute; reflexivity).
  assert (reachable page_changes s) as Hreach.
  { apply (reach_step _ s0); [apply three_cards_reachable|by vm_compute|].
    apply step_page. split.
    - apply (bool_decide_unpack _). vm_compute. exact I.
    - intros e k Hk. unfold Sample.grown_attrs.
      rewrite lookup_union_r; [done|].
      by apply page_attrs_fresh; [vm_compute|]. }
  split; [exact Hels|]. split; [|exact Hrest].
  destruct (scan_agrees (InElement 1) s Hreach) as (_ & H & _ & _).
  destruct (H 43 40) as (_ & _ & _ & _ & H40).
  - rewrite Hels. apply elem_of_cons. by left.
  - exact (eq_trans H40 Hbob).
Defined.

(** ** The first scan *)




(** ** The debounce, in every state *)

Section DebounceOrder.
Import Script.

Lemma debounce_view_rest s s' :
  rest_view s' = rest_view s → debounce_view s' = debounce_view s.
Proof.
  unfold rest_view, debounce_view.
  by intros [= _ _ -> -> -> _ _ _ _ _ _ -> -> ->].
Qed.

Lemma rest_view_clearMarkers s l :
  rest_view (foldl clearMarkers s l) = rest_view s.
Proof. by apply (foldl_invariant (λ x, rest_view x = rest_view s)). Qed.

Lemma debounce_view_updateBadge s : debounce_view (updateBadge s) = debounce_view s.
Proof. unfold updateBadge, sendMessageSafely. cbn. by destruct (runtime_ok s). Qed.

Lemma debounce_view_scan r s : debounce_view (scan r s) = debounce_view s.
Proof. apply debounce_view_rest, scan_frame. Qed.

Lemma debounce_view_resetAndRefilter s :
  debounce_view (resetAndRefilter s) = debounce_view s.
Proof.
  unfold resetAndRefilter, filterExistingContent. cbv zeta.
  rewrite debounce_view_updateBadge, debounce_view_scan.
  apply debounce_view_rest.
  by rewrite !rest_view_clearMarkers.
Qed.

Lemma debounce_view_handleMessage message s :
  debounce_view (handleMessage message s) = debounce_view s.
Proof.
  unfold handleMessage. destruct (validate message); [done|].
  destruct (Js.is_str _ "updateFilters").
  { by rewrite debounce_view_resetAndRefilter. }
  destruct (Js.is_str _ "updateShowCount"); [|done].
  by rewrite debounce_view_updateBadge.
Qed.

Lemma debounce_view_initialize usernames showCount s :
  debounce_view (initialize usernames showCount s) = debounce_view s.
Proof.
  unfold initialize, filterExistingContent. destruct (negb _); [done|].
  cbv zeta. rewrite debounce_view_updateBadge.
  change (debounce_view (set_live true ?x)) with (debounce_view x).
  by rewrite debounce_view_updateBadge, debounce_view_scan.
Qed.

Lemma debounce_view_processingPass s :
  debounce_view (processingPass s) = debounce_view (set_pendingMutations [] s).
Proof.
  unfold processingPass. cbv zeta.
  rewrite debounce_view_updateBadge, processNode_fold.
  apply debounce_view_rest. by destruct (scans_frame
    (filter (λ node, contains (tree (set_pendingMutations [] (log (Pass (pendingMutations s)) s))) node)
       (pendingMutations s))
    (set_pendingMutations [] (log (Pass (pendingMutations s)) s))) as [-> _].
Qed.

Lemma debounce_in_order_view s s' :
  debounce_view s' = debounce_view s → debounce_in_order s → debounce_in_order s'.
Proof.
  unfold debounce_view, debounce_in_order.
  by intros [= -> -> _ -> -> ->].
Qed.

Lemma debounce_in_order_emptied s :
  debounce_in_order s → debounce_in_order (set_pendingMutations [] s).
Proof. intros [H _]. split; [exact H|apply NoDup_nil_2]. Qed.

Lemma debounce_in_order_animationFrame s :
  debounce_in_order s → debounce_in_order (animationFrame s).
Proof.
  intros H. unfold animationFrame.
  assert (debounce_in_order (set_frames 0 s)) as H0 by done.
  generalize (frames s). intros n.
  induction n as [|n IH]; [done|].
  change (Nat.iter (S n) processingPass (set_frames 0 s))
    with (processingPass (Nat.iter n processingPass (set_frames 0 s))).
  apply (debounce_in_order_view _ _ (debounce_view_processingPass _)).
  by apply debounce_in_order_emptied.
Qed.

Lemma debounce_in_order_fireTimer id s :
  debounce_in_order s → debounce_in_order (fireTimer id s).
Proof.
  intros [H Hnd]. unfold fireTimer, processPendingMutations.
  cut (debounce_in_order (clearTimeout id s)); [by case_bool_decide|].
  split; [|done]. unfold clearTimeout. cbn.
  destruct H as [->|(id' & due & -> & H)]; [by left|].
  destruct (decide (id' = id)) as [->|Hne].
  - left. by rewrite filter_cons_False by (cbn; by intros ?).
  - right. exists id', due. by rewrite filter_cons_True.
Qed.

(** What the observer's loops leave in the pending set. *)
Lemma collectAdded_pending s added :
  ∃ l, foldl collectAdded s added = set_pendingMutations l s
       ∧ (NoDup (pendingMutations s) → NoDup l)
       ∧ ∀ e, e ∈ l ↔ e ∈ pendingMutations s ∨ ElementNode e ∈ added.
Proof.
  revert s. induction added as [|a added IH]; intros s.
  { exists (pendingMutations s). split; [by destruct s|]. split; [done|].
    intros e. split; [by left|]. by intros [?|?%elem_of_nil]. }
  cbn [foldl].
  assert (∃ l, collectAdded s a = set_pendingMutations l s
               ∧ (NoDup (pendingMutations s) → NoDup l)
               ∧ ∀ e, e ∈ l ↔ e ∈ pendingMutations s ∨ ElementNode e = a)
    as (l & -> & Hnd & Hl).
  { destruct a as [x|]; cbn.
    - unfold pending_add. case_bool_decide as Hx.
      + exists (pendingMutations s). split; [by destruct s|]. split; [done|].
        intros e. split; [by left|]. by intros [?|[= ->]].
      + exists (pendingMutations s ++ [x]). split; [done|]. split.
        * intros H. apply NoDup_app. split; [done|]. split; [|apply NoDup_singleton].
          by intros y Hy ->%list_elem_of_singleton.
        * intros e. rewrite elem_of_app, list_elem_of_singleton.
          split; (intros [?|H]; [by left|right; congruence]).
    - exists (pendingMutations s). split; [by destruct s|]. split; [done|].
      intros e. split; [by left|]. by intros [?|?]. }
  destruct (IH (set_pendingMutations l s)) as (l' & -> & Hnd' & Hl').
  exists l'. split; [done|]. split; [by intros ?; apply Hnd', Hnd|].
  intros e. rewrite Hl'. cbn. rewrite Hl, elem_of_cons. naive_solver.
Qed.

Lemma collectRecord_pending s mutations :
  ∃ l, foldl collectRecord s mutations = set_pendingMutations l s
       ∧ (NoDup (pendingMutations s) → NoDup l)
       ∧ ∀ e, e ∈ l ↔ e ∈ pendingMutations s
                        ∨ ∃ m, m ∈ mutations ∧ mtype m = "childList"
                               ∧ ElementNode e ∈ addedNodes m.
Proof.
  revert s. induction mutations as [|m ms IH]; intros s.
  { exists (pendingMutations s). split; [by destruct s|]. split; [done|].
    intros e. split; [by left|]. by intros [?|(? & ?%elem_of_nil & _)]. }
  cbn [foldl].
  assert (∃ l, collectRecord s m = set_pendingMutations l s
               ∧ (NoDup (pendingMutations s) → NoDup l)
               ∧ ∀ e, e ∈ l ↔ e ∈ pendingMutations s
                                ∨ mtype m = "childList" ∧ ElementNode e ∈ addedNodes m)
    as (l & -> & Hnd & Hl).
  { unfold collectRecord. case_bool_decide as Hm.
    - destruct (collectAdded_pending s (addedNodes m)) as (l & -> & Hnd & Hl).
      exists l. split; [done|]. split; [done|]. intros e. rewrite Hl. naive_solver.
    - exists (pendingMutations s). split; [by destruct s|]. split; [done|].
      intros e. naive_solver. }
  destruct (IH (set_pendingMutations l s)) as (l' & -> & Hnd' & Hl').
  exists l'. split; [done|]. split; [by intros ?; apply Hnd', Hnd|].
  intros e. rewrite Hl'. cbn. rewrite Hl. split.
  - intros [[?|[? ?]]|(m' & ? & ? & ?)]; [by left|right..].
    + exists m. split; [by left|done].
    + exists m'. split; [by right|done].
  - intros [?|(m' & [->|?]%elem_of_cons & ? & ?)]; [by left; left|by left; right|].
    right. by exists m'.
Qed.

(** The observer's callback, once the pending set is known. *)
Lemma observerCallback_unfold mutations s l :
  foldl collectRecord s mutations = set_pendingMutations l s →
  observerCallback mutations s
  = if bool_decide (l = []) then set_pendingMutations l s
    else
      let s1 := set_pendingMutations l s in
      let s2 := match mutationTimeout s with
                | Some id => clearTimeout id s1
                | None => s1
                end in
      set_mutationTimeout (Some (next_timer s))
        (set_rm_timers (rm_timers s ++ [next_timer s])
           (set_timers (timers s2 ++ [(next_timer s, clock s + 100)])
              (set_next_timer (S (next_timer s)) s2))).
Proof.
  intros Hl. unfold observerCallback. rewrite Hl. cbn [pendingMutations set_pendingMutations].
  destruct l as [|x l]; [done|].
  rewrite bool_decide_eq_true_2 by (cbn; lia).
  rewrite bool_decide_eq_false_2 by done. cbn [mutationTimeout set_pendingMutations].
  by destruct (mutationTimeout s).
Qed.

Lemma observerCallback_armed mutations s l :
  debounce_in_order s →
  foldl collectRecord s mutations = set_pendingMutations l s → l ≠ [] →
  timers (observerCallback mutations s) = [(next_timer s, clock s + 100)]
  ∧ mutationTimeout (observerCallback mutations s) = Some (next_timer s)
  ∧ rm_timers (observerCallback mutations s) = rm_timers s ++ [next_timer s]
  ∧ pendingMutations (observerCallback mutations s) = l
  ∧ clock (observerCallback mutations s) = clock s.
Proof.
  intros [H _] Hl Hne. rewrite (observerCallback_unfold _ _ _ Hl).
  rewrite bool_decide_eq_false_2 by done. cbv zeta.
  destruct H as [Ht|(id & due & Ht & Hm & _)].
  - destruct (mutationTimeout s); cbn; by rewrite Ht.
  - rewrite Hm. cbn. rewrite Ht.
    by rewrite filter_cons_False by (cbn; by intros ?).
Qed.

Lemma debounce_in_order_observerCallback mutations s :
  debounce_in_order s → debounce_in_order (observerCallback mutations s).
Proof.
  intros H. destruct (collectRecord_pending s mutations) as (l & Hl & Hnd & _).
  destruct (decide (l = [])) as [->|Hne].
  - rewrite (observerCallback_unfold _ _ _ Hl). cbn.
    by apply debounce_in_order_emptied.
  - destruct (observerCallback_armed _ _ _ H Hl Hne) as (Ht & Hm & Hr & Hp & Hc).
    split; [|rewrite Hp; apply Hnd, H].
    right. exists (next_timer s), (clock s + 100).
    rewrite Ht, Hm, Hr, Hc. split; [done|]. split; [done|]. split; [lia|].
    apply elem_of_app. right. by apply list_elem_of_singleton.
Qed.

Lemma debounce_in_order_step page s s' :
  step page s s' → debounce_in_order s → debounce_in_order s'.
Proof.
  intros Hstep H.
  destruct Hstep as [s t' A' _|s ms|s dt|s id due _ _|s|s m|s].
  - done.
  - by apply debounce_in_order_observerCallback.
  - destruct H as [[H|(id & due & H1 & H2 & H3 & H4)] Hnd]; (split; [|done]).
    + by left.
    + right. exists id, due. cbn. repeat split; try done. lia.
  - by apply debounce_in_order_fireTimer.
  - by apply debounce_in_order_animationFrame.
  - by apply (debounce_in_order_view _ _ (debounce_view_handleMessage m s)).
  - done.
Qed.

Lemma debounce_in_order_reachable page s :
  reachable page s → debounce_in_order s.
Proof.
  induction 1 as [t A rt us sc _ _|s s' _ IH _ Hstep].
  - apply (debounce_in_order_view _ _ (debounce_view_initialize us sc _)).
    split; [by left|apply NoDup_nil_2].
  - by apply (debounce_in_order_step page s s').
Qed.

End DebounceOrder.

(** X5. content script, setupMutationObserver with
    ContentResourceManager.setTimeout and processPendingMutations: in every
    state the engine reaches, whatever the page does, at most one timeout
    is pending; if one is, it is the one mutationTimeout names, it is due
    no later than 100 ms from now, and the resource manager lists it; and
    the pending set holds no node twice. *)
Theorem one_timeout_pending (page : State → Node → Attrs → Prop) (s : State) :
  reachable page s →
  length (timers s) ≤ 1
  ∧ (∀ id due, (id, due) ∈ timers s →
       mutationTimeout s = Some id ∧ due ≤ clock s + 100 ∧ id ∈ rm_timers s)
  ∧ NoDup (pendingMutations s).
Proof.
  intros [[Ht|(id & due & Ht & Hm & Hd & Hr)] Hnd]%debounce_in_order_reachable.
  - rewrite Ht. split; [cbn; lia|]. split; [|done]. by intros ?? ?%elem_of_nil.
  - rewrite Ht. split; [cbn; lia|]. split; [|done].
    by intros ?? [= -> ->]%list_elem_of_singleton.
Qed.

Lemma one_timeout_pending_witness :
  let s0 := initialize ["bob"] false
              (construct Sample.three_cards Sample.three_cards_attrs true) in
  let added := [{| mtype := "childList"; addedNodes := [ElementNode 40] |}] in
  let s := observerCallback added (advance 30 (observerCallback added s0)) in
  timers s = [(2, 130)] ∧ mutationTimeout s = Some 2.
Proof.
  intros s0 added s.
  assert (timers s = [(2, 130)]) as Ht by (vm_compute; reflexivity).
  split; [exact Ht|].
  assert (reachable page_changes s) as Hreach.
  { apply (reach_step _ (advance 30 (observerCallback added s0)));
      [|vm_compute; reflexivity|apply step_observe].
    apply (reach_step _ (observerCallback added s0));
      [|vm_compute; reflexivity|apply step_tick].
    apply (reach_step _ s0); [|vm_compute; reflexivity|apply step_observe].
    apply three_cards_reachable. }
  destruct (one_timeout_pending page_changes s Hreach) as (_ & H & _).
  destruct (H 2 130) as (Hm & _); [|exact Hm].
  rewrite Ht. apply elem_of_cons. by left.
Defined.

(** X6. content script, the callback of setupMutationObserver: in every
    state the engine reaches, a call of the observer with records that add
    no element while nothing is pending changes nothing; a call with a
    child-list record that adds an element leaves that element pending and
    exactly one timeout, set now for 100 ms from now, in place of any
    timeout that was pending. *)
Theorem observerCallback_debounces (page : State → Node → Attrs → Prop)
    (s : State) (mutations : list MutationRecord) :
  reachable page s →
  (pendingMutations s = [] → Forall Script.adds_no_element mutations →
   observerCallback mutations s = s)
  ∧ (∀ m e, m ∈ mutations → mtype m = "childList" →
       ElementNode e ∈ addedNodes m →
       let s' := observerCallback mutations s in
       e ∈ pendingMutations s'
       ∧ timers s' = [(next_timer s, clock s + 100)]
       ∧ mutationTimeout s' = Some (next_timer s)).
Proof.
  intros Hin%debounce_in_order_reachable.
  destruct (collectRecord_pending s mutations) as (l & Hl & _ & Hmem).
  split.
  - intros Hp Hnone. assert (l = []) as ->.
    { destruct l as [|x l]; [done|]. exfalso.
      destruct (proj1 (Hmem x)) as [Hx|(m & Hm & Hty & Hx)]; [by left| |].
      - rewrite Hp in Hx. by apply elem_of_nil in Hx.
      - rewrite Forall_forall in Hnone.
        destruct (Hnone m Hm) as [Hno|Hno]; [done|by apply (Hno x)]. }
    rewrite (observerCallback_unfold _ _ _ Hl). cbn. rewrite <-Hp. by destruct s.
  - intros m e Hm Hty He s'.
    assert (e ∈ l) as Hel by (apply Hmem; right; by exists m).
    assert (l ≠ []) as Hne by (intros ->; by apply elem_of_nil in Hel).
    destruct (observerCallback_armed _ _ _ Hin Hl Hne) as (Ht & Hmt & _ & Hp & _).
    unfold s'. by rewrite Hp.
Qed.

Lemma observerCallback_debounces_witness :
  let s0 := initialize ["bob"] false
              (construct Sample.three_cards Sample.three_cards_attrs true) in
  let text_only := [{| mtype := "childList"; addedNodes := [OtherNode] |};
                    {| mtype := "attributes"; addedNodes := [ElementNode 40] |}] in
  observerCallback text_only s0 = s0.
Proof.
  intros s0 text_only.
  destruct (observerCallback_debounces page_changes s0 text_only) as [H _].
  { apply three_cards_reachable. }
  apply H; [vm_compute; reflexivity|].
  apply Forall_cons. split.
  - right. intros e [[=]|[]%elem_of_nil]%elem_of_cons.
  - apply Forall_cons. split; [by left|apply Forall_nil_2].
Defined.

(** ** An invalidated extension context *)

Section Silent.
Import Script.

Lemma silent_view_rest s s' :
  rest_view s' = rest_view s → silent_view s' = silent_view s.
Proof.
  unfold rest_view, silent_view.
  by intros [= _ -> _ _ _ _ -> _ _ _ _ _ _ _].
Qed.

Lemma silent_view_updateBadge s :
  runtime_ok s = false → silent_view (updateBadge s) = silent_view s.
Proof. intros H. unfold updateBadge, sendMessageSafely. cbn. by rewrite H. Qed.

Lemma silent_runtime s s' :
  silent_view s' = silent_view s → runtime_ok s = false → runtime_ok s' = false.
Proof. unfold silent_view. by intros [= -> _]. Qed.

Lemma silent_view_scan r s : silent_view (scan r s) = silent_view s.
Proof. apply silent_view_rest, scan_frame. Qed.

Lemma silent_view_resetAndRefilter s :
  runtime_ok s = false → silent_view (resetAndRefilter s) = silent_view s.
Proof.
  intros H. unfold resetAndRefilter, filterExistingContent. cbv zeta.
  set (s1 := foldl clearMarkers _ _).
  assert (silent_view s1 = silent_view s) as H1.
  { apply silent_view_rest. unfold s1. by rewrite !rest_view_clearMarkers. }
  rewrite silent_view_updateBadge, silent_view_scan; [done|].
  apply (silent_runtime s); [|done]. by rewrite silent_view_scan.
Qed.

Lemma silent_view_handleMessage message s :
  runtime_ok s = false → silent_view (handleMessage message s) = silent_view s.
Proof.
  intros H. unfold handleMessage. destruct (validate message); [done|].
  destruct (Js.is_str _ "updateFilters").
  { by rewrite silent_view_resetAndRefilter. }
  destruct (Js.is_str _ "updateShowCount"); [|done].
  by rewrite silent_view_updateBadge.
Qed.

Lemma silent_view_processingPass s :
  runtime_ok s = false → silent_view (processingPass s) = silent_view s.
Proof.
  intros H. unfold processingPass. cbv zeta. rewrite processNode_fold.
  set (s0 := set_pendingMutations [] _).
  set (nodes := filter _ _).
  destruct (scans_frame nodes s0) as [Hr _]. apply silent_view_rest in Hr.
  rewrite silent_view_updateBadge; [by rewrite Hr|].
  by apply (silent_runtime s0).
Qed.

Lemma silent_view_animationFrame s :
  runtime_ok s = false → silent_view (animationFrame s) = silent_view s.
Proof.
  intros H. unfold animationFrame.
  change (silent_view s) with (silent_view (set_frames 0 s)).
  assert (runtime_ok (set_frames 0 s) = false) as H0 by done.
  revert H0. generalize (set_frames 0 s) as s0. generalize (frames s) as n.
  induction n as [|n IH]; intros s0 H0; [done|].
  change (Nat.iter (S n) processingPass s0)
    with (processingPass (Nat.iter n processingPass s0)).
  rewrite silent_view_processingPass; [by apply IH|].
  apply (silent_runtime s0); [by apply IH|done].
Qed.

Lemma silent_view_observerCallback mutations s :
  silent_view (observerCallback mutations s) = silent_view s.
Proof.
  unfold observerCallback.
  destruct (collect_effect mutations s) as [nodes ->].
  case_bool_decide; [|done].
  by destruct (mutationTimeout _).
Qed.

Lemma silent_view_fireTimer id s : silent_view (fireTimer id s) = silent_view s.
Proof. unfold fireTimer, processPendingMutations. by case_bool_decide. Qed.

Lemma silent_view_step page s s' :
  step page s s' → runtime_ok s = false → silent_view s' = silent_view s.
Proof.
  intros Hstep H.
  destruct Hstep as [s t' A' _|s ms|s dt|s id due _ _|s|s m|s].
  - done.
  - apply silent_view_observerCallback.
  - done.
  - apply silent_view_fireTimer.
  - by apply silent_view_animationFrame.
  - by apply silent_view_handleMessage.
  - unfold silent_view. cbn. by rewrite H.
Qed.

End Silent.

(** X7. content script, sendMessageSafely with its callers: once the
    extension context is invalid, nothing is handed to
    chrome.runtime.sendMessage again, whatever happens afterwards (scans,
    messages, passes over mutations, changes of the page): the context
    stays invalid and the messages sent are those sent before. *)
Theorem silent_once_invalidated (page : State → Node → Attrs → Prop)
    (s s' : State) :
  runtime_ok s = false → rtc (step page) s s' →
  runtime_ok s' = false ∧ outbox s' = outbox s.
Proof.
  intros H Hsteps.
  cut (Script.silent_view s' = Script.silent_view s).
  { unfold Script.silent_view. intros [= -> ->]. done. }
  induction Hsteps as [s|s s1 s' Hstep _ IH]; [done|].
  pose proof (silent_view_step page s s1 Hstep H) as H1.
  rewrite IH; [done|]. by apply (silent_runtime s).
Qed.

Lemma silent_once_invalidated_witness :
  let s0 := initialize ["bob"] true
              (construct Sample.three_cards Sample.three_cards_attrs true) in
  let s := set_runtime_ok false s0 in
  let s' := handleMessage (Sample.updateFilters ["alice"; "carol"]) s in
  blockedCount s' = 2%Z ∧ outbox s' = outbox s.
Proof.
  intros s0 s s'.
  split; [vm_compute; reflexivity|].
  destruct (silent_once_invalidated page_changes s s') as [_ H];
    [reflexivity|apply rtc_once, step_message|].
  exact H.
Defined.

(** ** The style rule *)

(** X8. content script, injectStyles, and the second query of
    resetAndRefilter: in every state the engine reaches, the selector of
    the injected rule, [data-filtered="true"], matches exactly the elements
    of the document that carry the attribute data-filtered, whatever its
    value: the engine writes no other value and the page writes none. *)
Theorem hiddenRule_matches_marked (s : State) :
  reachable page_changes s →
  Script.ruled_out s = Spec.hidden s.
Proof.
  intros Htrue%markers_true_reachable.
  unfold Script.ruled_out, Spec.hidden, querySelectorAll. cbn [candidates].
  apply list_filter_iff. intros e.
  unfold matches, Script.hiddenRule, hasAttribute, getAttribute. cbn.
  destruct (attrs s !! (e, "data-filtered")) as [v|] eqn:Hv.
  - rewrite (Htrue e "data-filtered" v) by auto with markers.
    rewrite bool_decide_eq_true_2 by done.
    by rewrite bool_decide_eq_true_2 by (by eexists).
  - rewrite bool_decide_eq_false_2; [done|]. by intros [? ?].
Qed.

Lemma hiddenRule_matches_marked_witness :
  let s := initialize ["bob"; "carol"] false
             (construct Sample.three_cards Sample.three_cards_attrs true) in
  Script.ruled_out s = [20; 30].
Proof.
  intros s.
  rewrite (hiddenRule_matches_marked s); [vm_compute; reflexivity|].
  apply three_cards_reachable.
Defined.

(** ** Trimming *)

Section Trim.
Import Str.

Implicit Types (s : string) (l : list Ascii.ascii).

Lemma list_of_rev_app s1 s2 :
  String.list_ascii_of_string (String.rev_app s1 s2)
  = reverse (String.list_ascii_of_string s1) ++ String.list_ascii_of_string s2.
Proof.
  revert s2. induction s1 as [|a s1 IH]; intros s2; [done|].
  cbn [String.rev_app String.list_ascii_of_string]. rewrite IH, reverse_cons, <-app_assoc. done.
Qed.

Lemma list_of_rev s :
  String.list_ascii_of_string (String.rev s) = reverse (String.list_ascii_of_string s).
Proof. unfold String.rev. rewrite list_of_rev_app. cbn. by rewrite app_nil_r. Qed.

Lemma string_of_list_inj s1 s2 :
  String.list_ascii_of_string s1 = String.list_ascii_of_string s2 → s1 = s2.
Proof.
  intros H. rewrite <-(String.string_of_list_ascii_of_string s1),
    <-(String.string_of_list_ascii_of_string s2). by rewrite H.
Qed.

(** trimStart drops the white space in front, and nothing else. *)
Lemma trimStart_split s :
  ∃ pre, String.list_ascii_of_string s = pre ++ String.list_ascii_of_string (trimStart s)
         ∧ Forall (λ a, js_whitespace a = true) pre
         ∧ ∀ a, head (String.list_ascii_of_string (trimStart s)) = Some a →
                js_whitespace a = false.
Proof.
  induction s as [|a s (pre & Heq & Hpre & Hhd)].
  - exists []. by repeat split.
  - cbn [trimStart]. destruct (js_whitespace a) eqn:Ha.
    + exists (a :: pre). cbn. rewrite <-Heq. repeat split; [by constructor|done].
    + exists []. repeat split; [done|]. cbn. by intros ? [= <-].
Qed.

Lemma trimStart_clean s :
  (∀ a, head (String.list_ascii_of_string s) = Some a → js_whitespace a = false) →
  trimStart s = s.
Proof.
  destruct s as [|a s]; [done|]. intros H. cbn.
  by rewrite (H a eq_refl).
Qed.

Lemma trimStart_white s :
  Forall (λ a, js_whitespace a = true) (String.list_ascii_of_string s) → trimStart s = "".
Proof.
  induction s as [|a s IH]; [done|]. cbn. intros [Ha Hs]%Forall_cons.
  rewrite Ha. by apply IH.
Qed.

(** trim takes the white space off both ends: what is left begins and
    ends with another character, if it is not empty. *)
Lemma trim_split s :
  ∃ pre post,
    String.list_ascii_of_string s = pre ++ String.list_ascii_of_string (trim s) ++ post
    ∧ Forall (λ a, js_whitespace a = true) pre
    ∧ Forall (λ a, js_whitespace a = true) post
    ∧ (∀ a, head (String.list_ascii_of_string (trim s)) = Some a → js_whitespace a = false)
    ∧ (∀ a, last (String.list_ascii_of_string (trim s)) = Some a → js_whitespace a = false).
Proof.
  unfold trim.
  destruct (trimStart_split s) as (pre & Heq & Hpre & Hhd).
  destruct (trimStart_split (String.rev (trimStart s))) as (post & Heq2 & Hpost & Hhd2).
  set (b := trimStart (String.rev (trimStart s))) in *.
  rewrite list_of_rev in Heq2.
  apply (f_equal reverse) in Heq2. rewrite reverse_involutive, reverse_app in Heq2.
  exists pre, (reverse post). rewrite list_of_rev, Heq, Heq2.
  repeat split; [done|by apply Forall_reverse| |].
  - intros a Ha. destruct (reverse (String.list_ascii_of_string b)) as [|x m] eqn:Hm; [done|].
    injection Ha as ->. apply Hhd. by rewrite Heq2.
  - intros a Ha. rewrite last_reverse in Ha. by apply Hhd2.
Qed.

Lemma trim_clean s :
  (∀ a, head (String.list_ascii_of_string s) = Some a → js_whitespace a = false) →
  (∀ a, last (String.list_ascii_of_string s) = Some a → js_whitespace a = false) →
  trim s = s.
Proof.
  intros Hhd Hlast. unfold trim. rewrite (trimStart_clean s Hhd).
  rewrite (trimStart_clean (String.rev s)).
  - apply string_of_list_inj. by rewrite !list_of_rev, reverse_involutive.
  - intros a. rewrite list_of_rev, head_reverse. apply Hlast.
Qed.

Lemma trim_idem s : trim (trim s) = trim s.
Proof.
  destruct (trim_split s) as (pre & post & _ & _ & _ & Hhd & Hlast).
  by apply trim_clean.
Qed.

(** A string of white space, and no other, trims to the empty string. *)
Lemma trim_empty s :
  trim s = "" ↔ Forall (λ a, js_whitespace a = true) (String.list_ascii_of_string s).
Proof.
  split.
  - intros H. destruct (trim_split s) as (pre & post & Heq & Hpre & Hpost & _).
    rewrite H in Heq. cbn in Heq. rewrite Heq. by apply Forall_app.
  - intros H. unfold trim. by rewrite (trimStart_white s H).
Qed.

End Trim.

(** ** The background script *)

Section BackgroundScript.
Import Background.

Lemma background_validate_recognized (message : Js.Value) :
  Background.validate message = inr true ↔ Background.recognized message = true.
Proof.
  unfold Background.validate, Background.recognized.
  destruct message as [| |b|z|x|items|fields];
    try (cbn; rewrite ?orb_true_r; by split).
  cbn [Js.truthy Js.typeof negb orb Js.prop Js.includes existsb].
  rewrite bool_decide_eq_true_2 by done. cbn [negb]. rewrite orb_false_r.
  destruct (Js.is_str (Js.assoc "action" fields) "updateBadge"); cbn [negb andb];
    [|split; intros; discriminate].
  destruct (Js.assoc "text" fields); cbn; try (split; intros; discriminate).
  destruct (Js.assoc "color" fields) as [| |b|z|x|items|fs]; cbn;
    try destruct b; try destruct (z =? 0)%Z; cbn; try done;
    try (split; intros; discriminate).
  destruct (bool_decide (x = "")); done.
Qed.

Lemma background_validate_throws (message : Js.Value) :
  Background.recognized message = false →
  ∃ error, Background.validate message = inl error.
Proof.
  intros H. destruct (Background.validate message) as [error|b] eqn:Hv; [by eexists|].
  assert (b = true) as ->.
  { revert Hv. unfold Background.validate.
    repeat match goal with |- context [if ?c then _ else _] => destruct c end;
      congruence. }
  apply background_validate_recognized in Hv. congruence.
Qed.

Lemma background_validate_true (message : Js.Value) (b : bool) :
  Background.validate message = inr b → b = true.
Proof.
  unfold Background.validate.
  repeat match goal with |- context [if ?c then _ else _] => destruct c end;
    congruence.
Qed.

(** What a recognized message holds. *)
Lemma recognized_fields (message : Js.Value) :
  Background.recognized message = true →
  Js.is_str (Js.prop message "action") "updateBadge" = true
  ∧ (∃ txt, Js.prop message "text" = Js.Str txt)
  ∧ (Js.truthy (Js.prop message "color") = true →
     ∃ c, Js.prop message "color" = Js.Str c ∧ c ≠ "").
Proof.
  destruct message as [| |b|z|x|items|fields]; try discriminate.
  cbn [Background.recognized Js.prop].
  intros [[Ha Ht]%andb_true_iff Hc]%andb_true_iff.
  split; [done|]. split.
  - destruct (Js.assoc "text" fields); try discriminate. by eexists.
  - intros Htr. destruct (Js.assoc "color" fields) as [| |b|z|x|items|fs];
      try (rewrite Htr in Hc; discriminate).
    exists x. split; [done|]. cbn in Htr.
    apply negb_true_iff, bool_decide_eq_false in Htr. done.
Qed.

Lemma updateBadgeForTab_calls (tabId : nat) (text color : Js.Value) (s : Background.State) :
  calls (updateBadgeForTab tabId text color s)
  = calls s ++ SetBadgeText text (Some tabId)
               :: (if Js.truthy color
                   then [SetBadgeBackgroundColor color (Some tabId)] else []).
Proof.
  unfold updateBadgeForTab. destruct (Js.truthy color); cbn; [|done].
  by rewrite <-app_assoc.
Qed.

Lemma updateBadgeForTab_states (tabId : nat) (text color : Js.Value) (s : Background.State) :
  tabBadgeStates (updateBadgeForTab tabId text color s)
  = <[tabId := (text, color)]> (tabBadgeStates s).
Proof. unfold updateBadgeForTab. by destruct (Js.truthy color). Qed.

(** onMessage on a recognized message from a tab. *)
Lemma onMessage_recognized (message : Js.Value) (tab : Chrome.Tab) (s : Background.State) :
  Background.recognized message = true →
  onMessage message (Some tab) s
  = updateBadgeForTab (Chrome.id tab) (Js.prop message "text")
      (Js.prop message "color") s.
Proof.
  intros Hr. unfold onMessage.
  destruct (recognized_fields message Hr) as (-> & _).
  apply background_validate_recognized in Hr. by rewrite Hr.
Qed.

Lemma onMessage_unrecognized (message : Js.Value) (sender : option Chrome.Tab)
    (s : Background.State) :
  Background.recognized message = false →
  ∃ error, Background.validate message = inl error
           ∧ onMessage message sender s
             = Background.console_error ("Invalid message received: " +:+ error) s.
Proof.
  intros Hn. destruct (background_validate_throws message Hn) as [error He].
  exists error. split; [done|]. unfold onMessage. by rewrite He.
Qed.

(** The calls an event adds. *)
Lemma calls_handle (s : Background.State) (ev : Event) :
  ∃ new, calls (handle s ev) = calls s ++ new ∧ Forall well_typed new.
Proof.
  destruct ev as [message sender|tabId|tabId status tab|]; cbn [handle].
  - destruct (Background.recognized message) eqn:Hr.
    + destruct sender as [tab|].
      * rewrite (onMessage_recognized _ _ _ Hr), updateBadgeForTab_calls.
        eexists. split; [done|].
        destruct (recognized_fields message Hr) as (_ & [txt ->] & Hc).
        constructor; [done|].
        destruct (Js.truthy (Js.prop message "color")); [|done].
        destruct (Hc eq_refl) as (c & -> & Hne). by repeat constructor.
      * exists []. rewrite app_nil_r. split; [|done].
        unfold onMessage. by destruct (Background.validate message).
    + destruct (onMessage_unrecognized message sender s Hr) as (error & _ & ->).
      exists []. by rewrite app_nil_r.
  - exists []. by rewrite app_nil_r.
  - unfold onUpdated.
    destruct (bool_decide (status = Some "loading") && negb (Chrome.url_includes tab "fab.com")).
    + exists [SetBadgeText (Js.Str "") (Some tabId)]. repeat split; by repeat constructor.
    + exists []. by rewrite app_nil_r.
  - exists [SetBadgeBackgroundColor (Js.Str "#f44336") None].
    repeat split; by repeat constructor.
Qed.

Lemma text_calls_app tabId l1 l2 :
  text_calls tabId (l1 ++ l2) = text_calls tabId l1 ++ text_calls tabId l2.
Proof. apply omap_app. Qed.

Lemma color_calls_app tabId l1 l2 :
  color_calls tabId (l1 ++ l2) = color_calls tabId l1 ++ color_calls tabId l2.
Proof. apply omap_app. Qed.

Lemma run_snoc (events : list Event) (ev : Event) :
  run (events ++ [ev]) = handle (run events) ev.
Proof. unfold run. by rewrite foldl_app. Qed.

(** The entry of a tab tells the last text set for it, and the last
    colour when the entry has one. *)
Lemma mirrors_handle (s : Background.State) (ev : Event) :
  (∀ tabId text color,
     tabBadgeStates s !! tabId = Some (text, color) →
     last (text_calls tabId (calls s)) = Some text
     ∧ (Js.truthy color = true → last (color_calls tabId (calls s)) = Some color)) →
  ∀ tabId text color,
    tabBadgeStates (handle s ev) !! tabId = Some (text, color) →
    last (text_calls tabId (calls (handle s ev))) = Some text
    ∧ (Js.truthy color = true →
       last (color_calls tabId (calls (handle s ev))) = Some color).
Proof.
  intros IH tabId text color.
  destruct ev as [message sender|removed|updated status tab|]; cbn [handle].
  - destruct (Background.recognized message) eqn:Hr.
    + destruct sender as [tab|].
      * rewrite (onMessage_recognized _ _ _ Hr), updateBadgeForTab_states,
          updateBadgeForTab_calls, text_calls_app, color_calls_app.
        destruct (decide (Chrome.id tab = tabId)) as [->|Hne].
        -- rewrite lookup_insert_eq. intros [= <- <-]. cbn.
           rewrite bool_decide_eq_true_2 by done.
           destruct (Js.truthy (Js.prop message "color")) eqn:Hc; cbn;
             rewrite ?bool_decide_eq_true_2 by done;
             rewrite ?last_snoc; split; done.
        -- rewrite lookup_insert_ne by done. intros Hl.
           cbn. rewrite (bool_decide_eq_false_2 (Chrome.id tab = tabId)) by done.
           destruct (Js.truthy (Js.prop message "color")); cbn;
             rewrite ?(bool_decide_eq_false_2 (Chrome.id tab = tabId)) by done;
             rewrite ?app_nil_r; by apply IH.
      * unfold onMessage. destruct (Background.validate message); apply IH.
    + destruct (onMessage_unrecognized message sender s Hr) as (error & _ & ->).
      apply IH.
  - unfold onRemoved. cbn. intros Hl.
    apply lookup_delete_Some in Hl as [_ Hl]. by apply IH.
  - unfold onUpdated.
    destruct (bool_decide (status = Some "loading") && negb (Chrome.url_includes tab "fab.com"));
      [|apply IH].
    cbn [tabBadgeStates calls set_tabBadgeStates call]. intros Hl.
    apply lookup_delete_Some in Hl as [Hne Hl].
    rewrite text_calls_app, color_calls_app. cbn.
    rewrite (bool_decide_eq_false_2 (updated = tabId)) by done.
    rewrite !app_nil_r. by apply IH.
  - cbn [tabBadgeStates calls onInstalled call].
    rewrite text_calls_app, color_calls_app. cbn. rewrite !app_nil_r. apply IH.
Qed.

End BackgroundScript.

(** X9. background.js, MessageValidator.validate and the onMessage
    listener: the validator accepts exactly the objects whose action is
    updateBadge, whose text is a string and whose color is falsy or a
    string. A message of another shape is rejected: the listener catches
    the error and writes it to the console, calls nothing of chrome.action
    and leaves the table of tabs as it is. A recognized message that no tab
    sent changes nothing. *)
Theorem background_rejects (message : Js.Value) (sender : option Chrome.Tab)
    (s : Background.State) :
  (Background.validate message = inr true ↔ Background.recognized message = true)
  ∧ (Background.recognized message = false →
     ∃ error,
       Background.validate message = inl error
       ∧ Background.onMessage message sender s
         = Background.console_error ("Invalid message received: " +:+ error) s
       ∧ Background.calls (Background.onMessage message sender s) = Background.calls s
       ∧ Background.tabBadgeStates (Background.onMessage message sender s)
         = Background.tabBadgeStates s)
  ∧ (Background.recognized message = true →
     Background.onMessage message None s = s).
Proof.
  split; [apply background_validate_recognized|]. split.
  - intros Hn.
    destruct (onMessage_unrecognized message sender s Hn) as (error & He & ->).
    by exists error.
  - intros Hr. apply background_validate_recognized in Hr.
    unfold Background.onMessage. by rewrite Hr.
Qed.

(** X10. updateBadge of the content script and the onMessage listener of
    the background script: the message updateBadge builds, in any state of
    the engine, passes the background validator; when a tab sent it, the
    listener sets the badge text of that tab to the message's text and its
    badge colour to the message's colour, in this order, and records both
    for the tab. So the badge of the tab shows the count in decimal when
    the count is shown and positive, and is empty otherwise. *)
Theorem badge_reaches_tab (e : Engine.State) (tab : Chrome.Tab)
    (s : Background.State) :
  let m := badgeMessage e in
  let s' := Background.onMessage (Background.badge_value m) (Some tab) s in
  Background.validate (Background.badge_value m) = inr true
  ∧ Background.calls s'
    = Background.calls s
      ++ [Background.SetBadgeText (Js.Str (text m)) (Some (Chrome.id tab));
          Background.SetBadgeBackgroundColor (Js.Str (color m)) (Some (Chrome.id tab))]
  ∧ Background.tabBadgeStates s'
    = <[Chrome.id tab := (Js.Str (text m), Js.Str (color m))]>
        (Background.tabBadgeStates s)
  ∧ Background.console s' = Background.console s
  ∧ text m = (if showBlockedCount e && bool_decide (0 < blockedCount e)%Z
              then Str.decimal (blockedCount e) else "").
Proof.
  intros m s'.
  assert (Background.recognized (Background.badge_value m) = true) as Hr by done.
  assert (Js.truthy (Js.Str (color m)) = true) as Hc.
  { unfold m, badgeMessage.
    destruct (showBlockedCount e); [|done].
    by destruct (bool_decide (0 < blockedCount e)%Z). }
  split; [by apply background_validate_recognized|].
  unfold s'. rewrite (onMessage_recognized _ _ _ Hr).
  rewrite updateBadgeForTab_calls, updateBadgeForTab_states.
  change (Js.prop (Background.badge_value m) "text") with (Js.Str (text m)).
  change (Js.prop (Background.badge_value m) "color") with (Js.Str (color m)).
  rewrite Hc. repeat split.
  - unfold Background.updateBadgeForTab. by rewrite Hc.
  - unfold m, badgeMessage. destruct (showBlockedCount e); [|done].
    by destruct (bool_decide (0 < blockedCount e)%Z).
Qed.

(** X11. background.js, every listener: whatever messages and tab events
    reach the background script, in whatever order, each call it makes of
    chrome.action.setBadgeText passes a string, and each call of
    chrome.action.setBadgeBackgroundColor a string that is not empty. *)
Theorem background_calls_well_typed (events : list Background.Event) :
  Forall Background.well_typed (Background.calls (Background.run events)).
Proof.
  induction events as [|ev events IH] using rev_ind; [by constructor|].
  rewrite run_snoc.
  destruct (calls_handle (Background.run events) ev) as (new & -> & Hnew).
  by apply Forall_app.
Qed.

(** X12. background.js, tabBadgeStates: after any sequence of messages
    and tab events, the entry the table holds for a tab is the text of the
    last setBadgeText made for that tab, and, when the entry's colour is
    not falsy, the colour of the last setBadgeBackgroundColor made for it;
    a tab that was closed, or that began to load a page outside fab.com,
    has no entry. *)
Theorem background_state_mirrors_calls (events : list Background.Event)
    (tabId : nat) :
  (∀ text color,
     Background.tabBadgeStates (Background.run events) !! tabId = Some (text, color) →
     last (Background.text_calls tabId (Background.calls (Background.run events)))
     = Some text
     ∧ (Js.truthy color = true →
        last (Background.color_calls tabId (Background.calls (Background.run events)))
        = Some color))
  ∧ Background.tabBadgeStates
      (Background.run (events ++ [Background.Removed tabId])) !! tabId = None
  ∧ (∀ tab, Chrome.url_includes tab "fab.com" = false →
       let s' := Background.run (events ++ [Background.Updated tabId (Some "loading") tab]) in
       Background.tabBadgeStates s' !! tabId = None
       ∧ last (Background.text_calls tabId (Background.calls s')) = Some (Js.Str "")).
Proof.
  split; [|split].
  - revert tabId. induction events as [|ev events IH] using rev_ind.
    + intros tabId text color. unfold Background.run. cbn. by rewrite lookup_empty.
    + intros tabId. rewrite run_snoc. by apply mirrors_handle.
  - rewrite run_snoc. cbn. apply lookup_delete_eq.
  - intros tab Hurl s'. unfold s'. rewrite run_snoc. cbn [Background.handle].
    unfold Background.onUpdated. rewrite Hurl, bool_decide_eq_true_2 by done.
    cbn [andb negb Background.tabBadgeStates Background.set_tabBadgeStates
         Background.calls Background.call].
    split; [apply lookup_delete_eq|].
    rewrite text_calls_app. cbn. rewrite bool_decide_eq_true_2 by done.
    by rewrite last_snoc.
Qed.

(** ** The popup: names and files *)

Section Names.
Import Popup Kept.

Lemma every_Forall (P : Ascii.ascii → bool) (s : string) :
  every P s = true ↔ Forall (λ a, P a = true) (String.list_ascii_of_string s).
Proof.
  induction s as [|a s IH]; cbn; [by split; [constructor|]|].
  rewrite andb_true_iff, Forall_cons, IH. done.
Qed.

(** sanitizeUsername on a string, by its trimmed text. *)
Lemma sanitizeUsername_Str (raw name : string) :
  sanitizeUsername (Js.Str raw) = inr name
  ↔ name = Str.trim raw ∧ name ≠ "" ∧ String.length name ≤ 100
    ∧ every validChar name = true.
Proof.
  unfold sanitizeUsername, validPattern.
  destruct (bool_decide (Str.trim raw = "")) eqn:He.
  { apply bool_decide_eq_true in He. split; [done|]. intros (-> & Hne & _). done. }
  apply bool_decide_eq_false in He. cbn [negb andb].
  destruct (bool_decide (100 < String.length (Str.trim raw))) eqn:Hl.
  { apply bool_decide_eq_true in Hl. split; [done|]. intros (-> & _ & Hle & _). lia. }
  apply bool_decide_eq_false in Hl.
  destruct (every validChar (Str.trim raw)) eqn:Hv; cbn [negb].
  - split; [|by intros (-> & _)].
    intros [= <-]. repeat split; [done|lia|done].
  - split; [done|]. intros (-> & _ & _ & Hv'). congruence.
Qed.

Lemma sanitizeUsername_string (username : Js.Value) (name : string) :
  sanitizeUsername username = inr name → ∃ raw, username = Js.Str raw.
Proof. destruct username; try done. by eexists. Qed.

Lemma sanitized_trim (username : Js.Value) (name : string) :
  sanitizeUsername username = inr name → sanitized name.
Proof.
  intros H. destruct (sanitizeUsername_string _ _ H) as [raw ->].
  apply sanitizeUsername_Str in H as (-> & Hne & Hl & Hv).
  apply sanitizeUsername_Str. by rewrite trim_idem.
Qed.

Lemma sanitized_not_empty (name : string) : sanitized name → name ≠ "".
Proof. intros H%sanitizeUsername_Str. tauto. Qed.

(** The strings of an array, as sanitizeJSON filters them. *)
Lemma filter_typeof_string (items : list Js.Value) :
  filter (λ u, Js.typeof u = "string") items = Js.Str <$> Js.strings (Js.Arr items).
Proof.
  induction items as [|v items IH]; [done|].
  cbn [Js.strings omap] in *. rewrite filter_cons.
  destruct v; cbn; rewrite ?decide_False by done; try done.
  rewrite decide_True by done. cbn. by rewrite IH.
Qed.

Lemma map_throwing_inr {X Y} (f : X → string + Y) (l : list X) (ys : list Y) :
  map_throwing f l = inr ys ↔ Forall2 (λ x y, f x = inr y) l ys.
Proof.
  revert ys. induction l as [|x l IH]; intros ys; cbn.
  - split; [intros [= <-]; constructor|by intros ->%Forall2_nil_inv_l].
  - destruct (f x) as [e|y] eqn:Hx.
    { split; [done|]. intros (y & ys' & Hy & _ & _)%Forall2_cons_inv_l. congruence. }
    destruct (map_throwing f l) as [e|ys'] eqn:Hl.
    { split; [done|]. intros (y' & ys' & _ & Hys & _)%Forall2_cons_inv_l.
      apply IH in Hys. congruence. }
    split.
    + intros [= <-]. constructor; [done|]. by apply IH.
    + intros (y' & ys'' & Hy & Hys & ->)%Forall2_cons_inv_l.
      apply IH in Hys. congruence.
Qed.

(** The first member that throws decides the error. *)
Lemma map_throwing_inl {X Y} (f : X → string + Y) (l : list X) (error : string) :
  map_throwing f l = inl error
  ↔ ∃ l1 x l2, l = l1 ++ x :: l2 ∧ Forall (λ z, ∃ y, f z = inr y) l1
               ∧ f x = inl error.
Proof.
  induction l as [|x l IH]; cbn.
  - split; [done|]. by intros ([|??] & ? & ? & ? & _).
  - destruct (f x) as [e|y] eqn:Hx.
    + split.
      * intros [= ->]. exists [], x, l. by repeat split.
      * intros ([|z l1] & x' & l2 & Heq & Hl1 & Hx').
        -- injection Heq as <- _. congruence.
        -- injection Heq as <- _. apply Forall_cons in Hl1 as [[y Hy] _]. congruence.
    + destruct (map_throwing f l) as [e|ys'] eqn:Hl.
      * split.
        -- intros [= ->]. destruct (proj1 IH eq_refl) as (l1 & x' & l2 & -> & Hl1 & Hx').
           exists (x :: l1), x', l2. repeat split; [|done].
           constructor; [by eexists|done].
        -- intros ([|z l1] & x' & l2 & Heq & Hl1 & Hx').
           ++ injection Heq as <- _. congruence.
           ++ injection Heq as <- ->. apply Forall_cons in Hl1 as [_ Hl1].
              f_equal. assert (inl e = inl error :> string + list Y) as [= ->]; [|done].
              apply IH. by exists l1, x', l2.
      * split; [done|].
        intros ([|z l1] & x' & l2 & Heq & Hl1 & Hx').
        -- injection Heq as <- _. congruence.
        -- injection Heq as <- ->. apply Forall_cons in Hl1 as [_ Hl1].
           assert (inr ys' = inl error :> string + list Y); [|done].
           apply IH. by exists l1, x', l2.
Qed.

(** sanitizeJSON on a parsed value, by its usernames field. *)
Lemma sanitizeJSON_usernames (parsed : Js.Value) (items : list Js.Value) :
  Js.prop parsed "usernames" = Js.Arr items →
  sanitizeJSON (Some parsed)
  = map_throwing sanitizeUsername (Js.Str <$> Js.strings (Js.Arr items)).
Proof.
  intros Hp. unfold sanitizeJSON.
  destruct parsed as [| |b|z|x|l|fields]; try discriminate.
  cbn [Js.truthy Js.typeof negb orb]. rewrite bool_decide_eq_true_2 by done.
  cbn [negb]. rewrite Hp. by rewrite filter_typeof_string.
Qed.

Lemma sanitizeJSON_inr (parsed : option Js.Value) (names : list string) :
  sanitizeJSON parsed = inr names →
  ∃ v items, parsed = Some v ∧ Js.prop v "usernames" = Js.Arr items.
Proof.
  destruct parsed as [v|]; [|done]. unfold sanitizeJSON.
  destruct (negb (Js.truthy v) || negb (bool_decide (Js.typeof v = "object"))); [done|].
  destruct (Js.prop v "usernames") as [| | | | |items|] eqn:Hp; try done.
  intros _. by exists v, items.
Qed.

Lemma sanitizeJSON_sanitized (parsed : option Js.Value) (names : list string) :
  sanitizeJSON parsed = inr names → Forall sanitized names.
Proof.
  intros H. destruct (sanitizeJSON_inr _ _ H) as (v & items & -> & Hp).
  rewrite (sanitizeJSON_usernames _ _ Hp) in H.
  apply map_throwing_inr in H.
  induction H as [|x y l ys Hxy _ IH]; constructor; [|done].
  by eapply sanitized_trim.
Qed.

(** *** Removing duplicates *)

Lemma unique_snoc (l : list string) (x : string) :
  unique (l ++ [x]) = if bool_decide (x ∈ unique l) then unique l else unique l ++ [x].
Proof. unfold unique. by rewrite foldl_app. Qed.

Lemma elem_of_unique (l : list string) (x : string) : x ∈ unique l ↔ x ∈ l.
Proof.
  induction l as [|y l IH] using rev_ind; [done|].
  rewrite unique_snoc. case_bool_decide as Hy; set_solver.
Qed.

Lemma NoDup_unique (l : list string) : NoDup (unique l).
Proof.
  induction l as [|y l IH] using rev_ind; [constructor|].
  rewrite unique_snoc. case_bool_decide as Hy; [done|].
  apply NoDup_app. repeat split; [done| |apply NoDup_singleton].
  intros x Hx ->%list_elem_of_singleton. done.
Qed.

Lemma unique_NoDup (l : list string) : NoDup l → unique l = l.
Proof.
  induction l as [|y l IH] using rev_ind; [done|].
  intros (Hl & Hy & _)%NoDup_app. rewrite unique_snoc, (IH Hl).
  rewrite bool_decide_eq_false_2; [done|].
  intros Hin. apply (Hy y Hin). by apply list_elem_of_singleton.
Qed.

Lemma unique_cons (x : string) (l : list string) :
  unique (x :: l) = x :: filter (λ y, y ≠ x) (unique l).
Proof.
  induction l as [|y l IH] using rev_ind.
  { unfold unique. cbn. by rewrite bool_decide_eq_false_2 by set_solver. }
  rewrite app_comm_cons, !unique_snoc, IH.
  destruct (decide (y = x)) as [->|Hne].
  - rewrite bool_decide_eq_true_2 by set_solver.
    case_bool_decide; [done|].
    rewrite filter_app, filter_cons_False, filter_nil, app_nil_r by naive_solver. done.
  - case_bool_decide as H1.
    + apply elem_of_cons in H1 as [?|H1]; [done|].
      apply list_elem_of_filter in H1 as [_ H1].
      by rewrite bool_decide_eq_true_2.
    + rewrite bool_decide_eq_false_2.
      * rewrite filter_app, filter_cons_True, filter_nil by done. done.
      * intros Hin. apply H1. apply elem_of_cons. right.
        by apply list_elem_of_filter.
Qed.

Lemma well_kept_unique (l : list string) :
  Forall sanitized l → well_kept (unique l).
Proof.
  intros H. split; [apply NoDup_unique|].
  apply Forall_forall. intros x Hx.
  rewrite Forall_forall in H. apply H. by apply (elem_of_unique l x).
Qed.

End Names.

(** ** The popup: its handlers *)

Section PopupHandlers.
Import Popup Kept.

Lemma store_view_eq (s s' : Popup.State) :
  store_view s' = store_view s →
  stored_usernames s' = stored_usernames s
  ∧ stored_showCount s' = stored_showCount s.
Proof. unfold store_view. by intros [= -> ->]. Qed.

Lemma renderUsernames_list (l : list string) (s : Popup.State) :
  list_view (renderUsernames l s) = rendered l.
Proof.
  unfold renderUsernames, rendered, list_view.
  destruct l as [|x l]; [done|].
  rewrite bool_decide_eq_false_2 by done.
  rewrite (bool_decide_eq_false_2 (x :: l = [])) by done.
  set (s0 := set_emptyMessage_show _ _).
  assert (∀ l' st,
            usernameCount st = usernameCount s0 →
            emptyMessage_show st = emptyMessage_show s0 →
            let st' := foldl (λ s username,
                         set_usernameList (usernameList s ++ [username]) s) st l' in
            usernameList st' = usernameList st ++ l'
            ∧ usernameCount st' = usernameCount s0
            ∧ emptyMessage_show st' = emptyMessage_show s0) as H.
  { induction l' as [|y l' IH]; intros st H1 H2; cbn [foldl].
    - by rewrite app_nil_r.
    - destruct (IH (set_usernameList (usernameList st ++ [y]) st) H1 H2) as (-> & -> & ->).
      cbn. by rewrite <-app_assoc. }
  destruct (H (x :: l) s0 eq_refl eq_refl) as (-> & -> & ->). done.
Qed.

Lemma renderUsernames_views (l : list string) (s : Popup.State) :
  let s' := renderUsernames l s in
  store_view s' = store_view s ∧ browser_view s' = browser_view s
  ∧ timer_view s' = timer_view s ∧ sent s' = sent s.
Proof.
  unfold renderUsernames. case_bool_decide; [done|].
  apply (foldl_invariant
    (λ st, store_view st = store_view s ∧ browser_view st = browser_view s
           ∧ timer_view st = timer_view s ∧ sent st = sent s)); [done|].
  by intros st x (<- & <- & <- & <-).
Qed.

Lemma showStatus_views (message type : string) (s : Popup.State) :
  let s' := showStatus message type s in
  store_view s' = store_view s ∧ list_view s' = list_view s
  ∧ browser_view s' = browser_view s ∧ sent s' = sent s.
Proof.
  unfold showStatus. destruct (statusTimer s) as [id|]; [|done].
  by case_bool_decide.
Qed.

Lemma console_error_views (line : string) (s : Popup.State) :
  let s' := Popup.console_error line s in
  store_view s' = store_view s ∧ list_view s' = list_view s
  ∧ browser_view s' = browser_view s ∧ timer_view s' = timer_view s
  ∧ sent s' = sent s.
Proof. done. Qed.

Lemma fab_tab_condition (tab : Chrome.Tab) :
  match Chrome.url tab with
  | Some u => negb (bool_decide (u = "")) && Str.includes u "fab.com"
  | None => false
  end = Chrome.url_includes tab "fab.com".
Proof.
  unfold Chrome.url_includes. destruct (Chrome.url tab) as [u|]; [|done].
  case_bool_decide as Hu; [|done]. by rewrite Hu.
Qed.

Lemma notifyContentScript_views (message : Js.Value) (s : Popup.State) :
  let s' := notifyContentScript message s in
  store_view s' = store_view s ∧ list_view s' = list_view s
  ∧ browser_view s' = browser_view s ∧ timer_view s' = timer_view s.
Proof.
  unfold notifyContentScript, notify_failed.
  repeat (case_match; try done).
Qed.

(** A message with an action goes to the tab of fab.com, if there is
    one. *)
Lemma notifyContentScript_sent (fields : list (string * Js.Value)) (s : Popup.State) :
  Js.truthy (Js.assoc "action" fields) = true →
  sent (notifyContentScript (Js.Obj fields) s)
  = sent s ++ notified (Js.Obj fields) s.
Proof.
  intros Ha. unfold notifyContentScript, notified, fab_tab, notify_failed.
  cbn [Js.truthy Js.typeof Js.prop negb orb]. rewrite Ha.
  rewrite bool_decide_eq_true_2 by done. cbn [negb].
  destruct (runtime_ok s); cbn [negb andb]; [|by rewrite app_nil_r].
  destruct (query_error s) as [error|].
  { rewrite bool_decide_eq_false_2 by done. rewrite app_nil_r.
    by destruct (expected error). }
  rewrite bool_decide_eq_true_2 by done.
  destruct (active_tab s) as [tab|]; [|by rewrite app_nil_r].
  rewrite fab_tab_condition.
  destruct (Chrome.url_includes tab "fab.com"); [|by rewrite app_nil_r].
  cbn. destruct (send_error s) as [error|]; [|done]. by destruct (expected error).
Qed.

Lemma notify_updateFilters (l : list string) (s : Popup.State) :
  sent (notifyContentScript (updateFilters l) s)
  = sent s ++ notified (updateFilters l) s.
Proof. by apply notifyContentScript_sent. Qed.

Lemma notify_updateShowCount (b : bool) (s : Popup.State) :
  sent (notifyContentScript (updateShowCount b) s)
  = sent s ++ notified (updateShowCount b) s.
Proof. by apply notifyContentScript_sent. Qed.

Lemma notified_view (message : Js.Value) (s s' : Popup.State) :
  browser_view s' = browser_view s → notified message s' = notified message s.
Proof.
  unfold browser_view, notified, fab_tab. by intros [= _ _ -> _ -> -> _].
Qed.

Lemma saved_stored (s s' : Popup.State) :
  stored_usernames s' = stored_usernames s → saved_usernames s' = saved_usernames s.
Proof. unfold saved_usernames. by intros ->. Qed.

(** The end of every handler that replaces the list. *)
Lemma updated_finish (l : list string) (message type : string) (s st : Popup.State) :
  stored_usernames st = Some l →
  stored_showCount st = stored_showCount s →
  list_view st = rendered l →
  browser_view st = browser_view s → sent st = sent s →
  updated l s (notifyContentScript (updateFilters l) (showStatus message type st)).
Proof.
  intros H1 H2 H3 H4 H5.
  set (s3 := showStatus message type st).
  destruct (showStatus_views message type st) as (S1 & S2 & S3 & S4).
  destruct (notifyContentScript_views (updateFilters l) s3) as (N1 & N2 & N3 & N4).
  fold s3 in S1, S2, S3, S4.
  assert (browser_view s3 = browser_view s) as Hb3 by (by rewrite S3).
  unfold updated. rewrite notify_updateFilters, (notified_view _ _ _ Hb3).
  rewrite N3, Hb3, N2, S2, H3, S4, H5.
  apply store_view_eq in N1 as [-> ->]. apply store_view_eq in S1 as [-> ->].
  by rewrite H1, H2.
Qed.

Lemma stored_rendered (l : list string) (s st : Popup.State) :
  stored_showCount st = stored_showCount s →
  browser_view st = browser_view s → sent st = sent s →
  let st' := renderUsernames l (set_stored_usernames (Some l) st) in
  stored_usernames st' = Some l
  ∧ stored_showCount st' = stored_showCount s
  ∧ list_view st' = rendered l
  ∧ browser_view st' = browser_view s ∧ sent st' = sent s.
Proof.
  intros H2 H4 H5 st'.
  destruct (renderUsernames_views l (set_stored_usernames (Some l) st))
    as (R1 & R2 & R3 & R4).
  fold st' in R1, R2, R3, R4. apply store_view_eq in R1 as [-> ->].
  rewrite R2, R4. unfold st'. rewrite renderUsernames_list. by repeat split.
Qed.

Lemma failed_unchanged (message type line : string) (s : Popup.State) :
  let s' := showStatus message type (Popup.console_error line s) in
  unchanged s s' ∧ sent s' = sent s ∧ stored_showCount s' = stored_showCount s.
Proof.
  intros s'.
  destruct (showStatus_views message type (Popup.console_error line s))
    as (S1 & S2 & S3 & S4).
  fold s' in S1, S2, S3, S4. apply store_view_eq in S1 as [S1 S1'].
  unfold unchanged. by rewrite S1, S1', S2, S3, S4.
Qed.

Lemma addUsername_unfold (s : Popup.State) :
  addUsername s
  = match sanitizeUsername (Js.Str (usernameInput s)) with
    | inl error => showInputError error (clearInputError s)
    | inr username =>
        match get_error s with
        | Some error => showInputError error (clearInputError s)
        | None =>
            if bool_decide (username ∈ saved_usernames s)
            then showInputError "Username already in filter list" (clearInputError s)
            else
              match set_error s with
              | Some error => showInputError error (clearInputError s)
              | None =>
                  notifyContentScript (updateFilters (saved_usernames s ++ [username]))
                    (showStatus "Username added to filter" "success"
                       (set_usernameInput ""
                          (renderUsernames (saved_usernames s ++ [username])
                             (set_stored_usernames
                                (Some (saved_usernames s ++ [username]))
                                (clearInputError s)))))
              end
        end
    end.
Proof. done. Qed.

Lemma addUsername_success (s : Popup.State) (name : string) :
  sanitizeUsername (Js.Str (usernameInput s)) = inr name →
  name ∉ saved_usernames s →
  get_error s = None → set_error s = None →
  updated (saved_usernames s ++ [name]) s (addUsername s).
Proof.
  intros Hn Hni Hg Hs. rewrite addUsername_unfold, Hn, Hg, Hs.
  rewrite bool_decide_eq_false_2 by done.
  set (l := saved_usernames s ++ [name]).
  destruct (stored_rendered l s (clearInputError s)) as (H1 & H2 & H3 & H4 & H5);
    try done.
  by apply updated_finish.
Qed.

Lemma addUsername_effect (s : Popup.State) :
  let s' := addUsername s in
  unchanged s s' ∧ sent s' = sent s ∧ stored_showCount s' = stored_showCount s
  ∨ ∃ name,
      sanitizeUsername (Js.Str (usernameInput s)) = inr name
      ∧ (name ∉ saved_usernames s)
      ∧ get_error s = None ∧ set_error s = None
      ∧ updated (saved_usernames s ++ [name]) s s'.
Proof.
  cbv zeta.
  destruct (sanitizeUsername (Js.Str (usernameInput s))) as [error|name] eqn:Hn;
    [left; by rewrite addUsername_unfold, Hn|].
  destruct (get_error s) eqn:Hg; [left; by rewrite addUsername_unfold, Hn, Hg|].
  destruct (decide (name ∈ saved_usernames s)) as [Hin|Hin].
  { left. by rewrite addUsername_unfold, Hn, Hg, bool_decide_eq_true_2. }
  destruct (set_error s) eqn:Hs.
  { left. by rewrite addUsername_unfold, Hn, Hg, bool_decide_eq_false_2, Hs. }
  right. exists name. do 4 (split; [done|]). by apply addUsername_success.
Qed.

Lemma indexOf_Some (l : list string) (x : string) (i : nat) :
  indexOf l x = Some i ↔ l !! i = Some x ∧ ∀ j, j < i → l !! j ≠ Some x.
Proof.
  unfold indexOf. split.
  - intros H. apply fmap_Some in H as ([j y] & Hf & ->).
    apply list_find_Some in Hf as (Hy & -> & Hbefore). split; [done|].
    intros j' Hlt Hj'. by eapply Hbefore.
  - intros [Hi Hbefore]. apply fmap_Some. exists (i, x). split; [|done].
    apply list_find_Some. repeat split; [done|].
    intros j y Hj Hlt ->. by eapply Hbefore.
Qed.

Lemma indexOf_None (l : list string) (x : string) : indexOf l x = None ↔ x ∉ l.
Proof.
  unfold indexOf. rewrite fmap_None, list_find_None, Forall_forall.
  split; [intros H Hin; by eapply H|].
  intros H y Hy ->. done.
Qed.

Lemma removeUsername_success (username : string) (index : nat) (s : Popup.State) :
  indexOf (saved_usernames s) username = Some index →
  get_error s = None → set_error s = None →
  updated (delete index (saved_usernames s)) s (removeUsername username s).
Proof.
  intros Hi Hg Hs. unfold removeUsername. rewrite Hg, Hi, Hs.
  set (l := delete index (saved_usernames s)).
  destruct (stored_rendered l s s) as (H1 & H2 & H3 & H4 & H5); try done.
  cbv zeta. by apply updated_finish.
Qed.

Lemma removeUsername_effect (username : string) (s : Popup.State) :
  let s' := removeUsername username s in
  unchanged s s' ∧ sent s' = sent s ∧ stored_showCount s' = stored_showCount s
  ∨ ∃ index,
      indexOf (saved_usernames s) username = Some index
      ∧ get_error s = None ∧ set_error s = None
      ∧ updated (delete index (saved_usernames s)) s s'.
Proof.
  cbv zeta.
  destruct (get_error s) eqn:Hg.
  { left. unfold removeUsername. rewrite Hg. apply failed_unchanged. }
  destruct (indexOf (saved_usernames s) username) as [index|] eqn:Hi.
  2: { left. unfold removeUsername. by rewrite Hg, Hi. }
  destruct (set_error s) eqn:Hs.
  { left. unfold removeUsername. rewrite Hg, Hi, Hs. apply failed_unchanged. }
  right. exists index. do 3 (split; [done|]). by apply removeUsername_success.
Qed.

Lemma clearAll_effect (confirmed : bool) (s : Popup.State) :
  let s' := clearAll confirmed s in
  unchanged s s' ∧ sent s' = sent s ∧ stored_showCount s' = stored_showCount s
  ∨ confirmed = true ∧ set_error s = None ∧ updated [] s s'.
Proof.
  unfold clearAll. destruct confirmed; [|by left]. cbn [negb].
  destruct (set_error s); [left; apply failed_unchanged|].
  right. do 2 (split; [done|]).
  destruct (stored_rendered [] s s) as (H1 & H2 & H3 & H4 & H5); try done.
  cbv zeta. by apply updated_finish.
Qed.

Lemma updated_fileInput (l : list string) (value : string) (s s' : Popup.State) :
  updated l s s' → updated l s (set_fileInput value s').
Proof. done. Qed.

Lemma unchanged_fileInput (value : string) (s s' : Popup.State) :
  unchanged s s' ∧ sent s' = sent s ∧ stored_showCount s' = stored_showCount s →
  unchanged s (set_fileInput value s')
  ∧ sent (set_fileInput value s') = sent s
  ∧ stored_showCount (set_fileInput value s') = stored_showCount s.
Proof. done. Qed.

Lemma importList_success (parsed : option Js.Value) (usernames : list string)
    (s : Popup.State) :
  sanitizeJSON parsed = inr usernames → set_error s = None →
  updated (unique usernames) s (importList (Some (inr parsed)) s).
Proof.
  intros Hj He. unfold importList. rewrite Hj, He.
  apply updated_fileInput.
  set (l := unique usernames).
  destruct (stored_rendered l s s) as (H1 & H2 & H3 & H4 & H5); try done.
  cbv zeta. by apply updated_finish.
Qed.

Lemma importList_effect (file : option (string + option Js.Value)) (s : Popup.State) :
  let s' := importList file s in
  unchanged s s' ∧ sent s' = sent s ∧ stored_showCount s' = stored_showCount s
  ∨ ∃ parsed usernames,
      file = Some (inr parsed) ∧ sanitizeJSON parsed = inr usernames
      ∧ set_error s = None
      ∧ updated (unique usernames) s s'.
Proof.
  cbv zeta. destruct file as [[error|parsed]|]; [| |by left].
  { left. unfold importList. pose proof (failed_unchanged
      (if bool_decide (error = "") then "Failed to import file" else error)
      "error" ("Import error: " +:+ error) s) as H.
    cbv zeta. by apply unchanged_fileInput. }
  destruct (sanitizeJSON parsed) as [error|usernames] eqn:Hj.
  { left. unfold importList. rewrite Hj. pose proof (failed_unchanged
      (if bool_decide (error = "") then "Failed to import file" else error)
      "error" ("Import error: " +:+ error) s) as H.
    cbv zeta. by apply unchanged_fileInput. }
  destruct (set_error s) as [error|] eqn:He.
  { left. unfold importList. rewrite Hj, He. pose proof (failed_unchanged
      (if bool_decide (error = "") then "Failed to import file" else error)
      "error" ("Import error: " +:+ error) s) as H.
    cbv zeta. by apply unchanged_fileInput. }
  right. exists parsed, usernames. do 3 (split; [done|]).
  by apply importList_success.
Qed.

Lemma saveShowCountSetting_effect (s : Popup.State) :
  let s' := saveShowCountSetting s in
  unchanged s s'
  ∧ (sent s' = sent s
     ∨ sent s' = sent s ++ notified (updateShowCount (showCountCheckbox s)) s).
Proof.
  unfold saveShowCountSetting.
  destruct (set_error s).
  { destruct (failed_unchanged "Failed to save setting" "error"
                ("Failed to save setting: " +:+ s0) s) as (H1 & H2 & H3).
    split; [done|by left]. }
  set (st := set_stored_showCount _ s).
  destruct (notifyContentScript_views (updateShowCount (showCountCheckbox s)) st)
    as (N1 & N2 & N3 & N4).
  apply store_view_eq in N1 as [N1 _].
  split.
  - unfold unchanged. by rewrite N1, N2, N3.
  - right. by rewrite notify_updateShowCount.
Qed.

Lemma exportList_unchanged (s : Popup.State) :
  let s' := exportList s in
  unchanged s s' ∧ sent s' = sent s ∧ stored_showCount s' = stored_showCount s.
Proof.
  unfold exportList. destruct (get_error s); [apply failed_unchanged|].
  match goal with |- context [showStatus ?m ?t ?st] =>
    destruct (showStatus_views m t st) as (S1 & S2 & S3 & S4) end.
  cbv zeta. apply store_view_eq in S1 as [S1 S1'].
  unfold unchanged. by rewrite S1, S1', S2, S3, S4.
Qed.

Lemma loadData_shows (s : Popup.State) :
  get_error s = None → shows_store (loadData s).
Proof.
  intros He. unfold loadData, shows_store. rewrite He.
  rewrite renderUsernames_list.
  destruct (renderUsernames_views (saved_usernames s)
              (set_showCountCheckbox (default false (stored_showCount s)) s))
    as (R1 & _).
  apply store_view_eq in R1 as [R1 _].
  by rewrite (saved_stored _ _ R1).
Qed.

Lemma loadData_unchanged (s : Popup.State) :
  stored_usernames (loadData s) = stored_usernames s
  ∧ browser_view (loadData s) = browser_view s ∧ sent (loadData s) = sent s.
Proof.
  unfold loadData. destruct (get_error s).
  - destruct (failed_unchanged "Failed to load saved data" "error"
                ("Failed to load data: " +:+ s0) s) as ((H1 & H2 & H3) & H4 & H5).
    done.
  - destruct (renderUsernames_views (saved_usernames s)
                (set_showCountCheckbox (default false (stored_showCount s)) s))
      as (R1 & R2 & _ & R4).
    apply store_view_eq in R1 as [R1 _]. done.
Qed.

(** What a step does to the list: nothing, or it replaces it by a list
    that is well kept if the old one was. *)
Lemma step_effect (s s' : Popup.State) :
  Popup.step s s' →
  stored_usernames s' = stored_usernames s ∧ list_view s' = list_view s
  ∧ (sent s' = sent s
     ∨ ∃ b, sent s' = sent s ++ notified (updateShowCount b) s)
  ∨ ∃ l, updated l s s' ∧ (well_kept (saved_usernames s) → well_kept l).
Proof.
  destruct 1 as [s value|s|s key|s index|s confirmed|s|s file value|s checked
                 |s dt|s id due fn Hin Hdue|s e1 e2 e3 e4 rt tab date].
  - left. repeat split; by left.
  - destruct (addUsername_effect s) as [((H1 & H2 & H3) & H4 & H5)|(name & Hn & Hni & _ & _ & Hu)].
    + left. repeat split; [done..|by left].
    + right. eexists. split; [done|]. intros [Hnd Hs]. split.
      * apply NoDup_app. repeat split; [done| |apply NoDup_singleton].
        intros x Hx ->%list_elem_of_singleton. done.
      * apply Forall_app. split; [done|]. constructor; [|done].
        by eapply sanitized_trim.
  - unfold handleKeyPress. case_bool_decide; [|left; repeat split; by left].
    destruct (addUsername_effect s) as [((H1 & H2 & H3) & H4 & H5)|(name & Hn & Hni & _ & _ & Hu)].
    + left. repeat split; [done..|by left].
    + right. eexists. split; [done|]. intros [Hnd Hs]. split.
      * apply NoDup_app. repeat split; [done| |apply NoDup_singleton].
        intros x Hx ->%list_elem_of_singleton. done.
      * apply Forall_app. split; [done|]. constructor; [|done].
        by eapply sanitized_trim.
  - unfold handleRemoveClick.
    destruct (usernameList s !! index) as [username|]; [|left; repeat split; by left].
    destruct (removeUsername_effect username s)
      as [((H1 & H2 & H3) & H4 & H5)|(i & Hi & _ & _ & Hu)].
    + left. repeat split; [done..|by left].
    + right. eexists. split; [done|]. intros [Hnd Hs]. split.
      * eapply sublist_NoDup; [done|apply sublist_delete].
      * by apply Forall_delete.
  - destruct (clearAll_effect confirmed s) as [((H1 & H2 & H3) & H4 & H5)|(_ & _ & Hu)].
    + left. repeat split; [done..|by left].
    + right. exists []. split; [done|]. intros _. split; constructor.
  - destruct (exportList_unchanged s) as ((H1 & H2 & H3) & H4 & H5).
    left. repeat split; [done..|by left].
  - destruct (importList_effect file (set_fileInput value s))
      as [((H1 & H2 & H3) & H4 & H5)|(parsed & usernames & _ & Hj & _ & Hu)].
    + left. repeat split; [done..|by left].
    + right. eexists. split; [exact Hu|]. intros _.
      apply well_kept_unique. by eapply sanitizeJSON_sanitized.
  - destruct (saveShowCountSetting_effect (set_showCountCheckbox checked s))
      as ((H1 & H2 & H3) & H4).
    left. repeat split; [done..|].
    destruct H4 as [H4|H4]; [by left|right]. by exists checked.
  - left. repeat split; by left.
  - left. unfold fireTimer, runCallback. destruct fn; repeat split; by left.
  - left. repeat split; by left.
Qed.

End PopupHandlers.

(** ** The popup: its timeouts *)

Section PopupTimers.
Import Popup Kept.

(** The fields of a state after the setters. *)
Ltac popup_fields :=
  cbn [fst snd stored_usernames stored_showCount get_error set_error
       query_error send_error runtime_ok active_tab today sent downloads
       object_urls next_url usernameInput inputError usernameList usernameCount
       emptyMessage_show showCountCheckbox fileInput status_text status_class
       statusTimer clock timers next_timer rm_timers console set_stored_usernames
       set_stored_showCount set_get_error set_set_error set_query_error
       set_send_error set_runtime_ok set_active_tab set_today set_sent
       set_downloads set_object_urls set_next_url set_usernameInput
       set_inputError set_usernameList set_usernameCount set_emptyMessage_show
       set_showCountCheckbox set_fileInput set_status_text set_status_class
       set_statusTimer set_clock set_timers set_next_timer set_rm_timers
       set_console].
Ltac popup_fields_in H :=
  cbn [fst snd stored_usernames stored_showCount get_error set_error
       query_error send_error runtime_ok active_tab today sent downloads
       object_urls next_url usernameInput inputError usernameList usernameCount
       emptyMessage_show showCountCheckbox fileInput status_text status_class
       statusTimer clock timers next_timer rm_timers console set_stored_usernames
       set_stored_showCount set_get_error set_set_error set_query_error
       set_send_error set_runtime_ok set_active_tab set_today set_sent
       set_downloads set_object_urls set_next_url set_usernameInput
       set_inputError set_usernameList set_usernameCount set_emptyMessage_show
       set_showCountCheckbox set_fileInput set_status_text set_status_class
       set_statusTimer set_clock set_timers set_next_timer set_rm_timers
       set_console] in H.

Lemma tokens_status_show (type : string) :
  "show" ∈ Str.tokens ("status show " +:+ type).
Proof.
  change (Str.tokens ("status show " +:+ type))
    with (["status"; "show"] ++ Str.tokens type).
  set_solver.
Qed.

Lemma same_id_same_timer (l : list (nat * nat * Callback)) (x y : nat * nat * Callback) :
  NoDup l.*1.*1 → x ∈ l → y ∈ l → x.1.1 = y.1.1 → x = y.
Proof.
  induction l as [|z l IH]; [by intros _ ?%elem_of_nil|].
  cbn. intros [Hz Hl]%NoDup_cons Hx Hy Heq.
  apply elem_of_cons in Hx as [->|Hx]; apply elem_of_cons in Hy as [->|Hy]; try done.
  - exfalso. apply Hz. rewrite Heq. apply list_elem_of_fmap. exists y.1.
    split; [done|]. apply list_elem_of_fmap. by exists y.
  - exfalso. apply Hz. rewrite <-Heq. apply list_elem_of_fmap. exists x.1.
    split; [done|]. apply list_elem_of_fmap. by exists x.
  - by apply IH.
Qed.

Lemma timers_in_order_view (s s' : Popup.State) :
  timer_view s' = timer_view s → timers_in_order s → timers_in_order s'.
Proof.
  unfold timer_view, timers_in_order.
  by intros [= -> -> -> -> -> ->].
Qed.

(** Clearing a timeout keeps the others, by their identifiers. *)
Lemma elem_of_clearTimeout (id : nat) (tm : nat * nat * Callback) (s : Popup.State) :
  tm ∈ timers (clearTimeout id s) ↔ tm ∈ timers s ∧ tm.1.1 ≠ id.
Proof.
  unfold clearTimeout. cbn [timers set_timers].
  rewrite list_elem_of_filter. tauto.
Qed.

Lemma NoDup_clearTimeout (id : nat) (s : Popup.State) :
  NoDup (timers s).*1.*1 → NoDup (timers (clearTimeout id s)).*1.*1.
Proof.
  intros H. eapply sublist_NoDup; [exact H|].
  unfold clearTimeout. cbn [timers set_timers].
  apply fmap_sublist, fmap_sublist, sublist_filter.
Qed.

(** A new timeout. *)
Lemma setTimeout_timers (fn : Callback) (delay : nat) (s : Popup.State) :
  let s' := (setTimeout fn delay s).2 in
  timers s' = timers s ++ [(next_timer s, clock s + delay, fn)]
  ∧ next_timer s' = S (next_timer s)
  ∧ clock s' = clock s ∧ statusTimer s' = statusTimer s
  ∧ status_class s' = status_class s ∧ object_urls s' = object_urls s.
Proof. done. Qed.

(** showStatus keeps the timeouts in order, and the one status timeout
    it leaves is due 3000 ms from now. *)
Lemma showStatus_in_order (message type : string) (s : Popup.State) :
  timers_in_order s →
  timers_in_order (showStatus message type s)
  ∧ ∀ id due, (id, due, HideStatus) ∈ timers (showStatus message type s) →
              due = clock s + 3000.
Proof.
  intros (Hnd & Hlt & Hn & Hd1 & Hd2 & Hurl).
  unfold showStatus.
  set (s1 := match statusTimer s with
             | Some id => if bool_decide (id = 0) then s else clearTimeout id s
             | None => s
             end).
  assert (NoDup (timers s1).*1.*1
          ∧ (∀ tm, tm ∈ timers s1 → tm ∈ timers s)
          ∧ (∀ id due, (id, due, HideStatus) ∉ timers s1)
          ∧ (∀ id due url, (id, due, RevokeObjectURL url) ∈ timers s →
                           (id, due, RevokeObjectURL url) ∈ timers s1)
          ∧ next_timer s1 = next_timer s ∧ clock s1 = clock s
          ∧ object_urls s1 = object_urls s) as (Hnd1 & Hsub & Hno & Hkeep & Hn1 & Hc1 & Hu1).
  { unfold s1. destruct (statusTimer s) as [id|] eqn:Hst.
    - destruct (Hd2 id eq_refl) as [due Hin].
      destruct (Hlt _ Hin) as [Hpos _]. cbn in Hpos.
      rewrite bool_decide_eq_false_2 by lia.
      split; [by apply NoDup_clearTimeout|].
      split; [by intros tm [? _]%elem_of_clearTimeout|].
      split.
      { intros id' due' [Hin' Hne]%elem_of_clearTimeout.
        destruct (Hd1 _ _ Hin') as [Hst' _]. cbn in Hne. congruence. }
      split; [|done].
      intros id' due' url Hin'. apply elem_of_clearTimeout. split; [done|].
      cbn. intros ->.
      by pose proof (same_id_same_timer _ _ _ Hnd Hin Hin' eq_refl).
    - split; [done|]. split; [done|]. split; [|done].
      intros id due Hin. by destruct (Hd1 _ _ Hin) as [? _]. }
  clearbody s1. unfold timers_in_order, setTimeout. popup_fields.
  rewrite Hn1, Hc1, Hu1.
  split; [|intros id due [Hin|[= -> ->]%list_elem_of_singleton]%elem_of_app;
           [by apply Hno in Hin|done]].
  split.
  { rewrite !fmap_app. cbn. apply NoDup_app. split; [done|].
    split; [|apply NoDup_singleton].
    intros i Hi ->%list_elem_of_singleton.
    apply list_elem_of_fmap in Hi as (p & Hi & Hp).
    apply list_elem_of_fmap in Hp as (tm & -> & Htm).
    destruct (Hlt _ (Hsub _ Htm)). lia. }
  split.
  { intros tm [Htm| ->%list_elem_of_singleton]%elem_of_app.
    - destruct (Hlt _ (Hsub _ Htm)). lia.
    - cbn. lia. }
  split; [lia|]. split.
  { intros id due [Hin|[= -> ->]%list_elem_of_singleton]%elem_of_app.
    - by apply Hno in Hin.
    - split; [done|]. split; [lia|apply tokens_status_show]. }
  split.
  { intros id [= Hid]. subst id. eexists. apply elem_of_app. right.
    by apply list_elem_of_singleton. }
  intros url Hu. destruct (Hurl url Hu) as (id & due & Hin & Hdue).
  exists id, due. split; [|done]. apply elem_of_app. left. by apply Hkeep.
Qed.

Lemma timers_in_order_showStatus (message type : string) (s : Popup.State) :
  timers_in_order s → timers_in_order (showStatus message type s).
Proof. intros H. by apply showStatus_in_order. Qed.

Lemma timers_in_order_notify (message : Js.Value) (s : Popup.State) :
  timers_in_order s → timers_in_order (notifyContentScript message s).
Proof.
  apply timers_in_order_view. by destruct (notifyContentScript_views message s) as (_ & _ & _ & ->).
Qed.

Lemma timers_in_order_render (l : list string) (s : Popup.State) :
  timers_in_order s → timers_in_order (renderUsernames l s).
Proof.
  apply timers_in_order_view. by destruct (renderUsernames_views l s) as (_ & _ & -> & _).
Qed.

Lemma timers_in_order_exportList (s : Popup.State) :
  timers_in_order s → timers_in_order (exportList s).
Proof.
  intros H. unfold exportList.
  destruct (get_error s).
  { apply timers_in_order_showStatus. revert H. by apply timers_in_order_view. }
  apply timers_in_order_showStatus.
  destruct H as (Hnd & Hlt & Hn & Hd1 & Hd2 & Hurl).
  unfold timers_in_order, setTimeout. popup_fields.
  split.
  { rewrite !fmap_app. cbn. apply NoDup_app. split; [done|].
    split; [|apply NoDup_singleton].
    intros i Hi ->%list_elem_of_singleton.
    apply list_elem_of_fmap in Hi as (p & Hi & Hp).
    apply list_elem_of_fmap in Hp as (tm & -> & Htm).
    destruct (Hlt _ Htm). lia. }
  split.
  { intros tm [Htm| ->%list_elem_of_singleton]%elem_of_app.
    - destruct (Hlt _ Htm). lia.
    - cbn. lia. }
  split; [lia|]. split.
  { intros id due [Hin|[=]%list_elem_of_singleton]%elem_of_app. by apply Hd1. }
  split.
  { intros id Hid. destruct (Hd2 id Hid) as [due Hin]. exists due.
    apply elem_of_app. by left. }
  intros url [Hu| ->%list_elem_of_singleton]%elem_of_app.
  - destruct (Hurl url Hu) as (id & due & Hin & Hdue).
    exists id, due. split; [|done]. apply elem_of_app. by left.
  - eexists _, _. split; [|done]. apply elem_of_app. right.
    by apply list_elem_of_singleton.
Qed.

Lemma timers_in_order_fireTimer (id due : nat) (fn : Callback) (s : Popup.State) :
  (id, due, fn) ∈ timers s →
  timers_in_order s → timers_in_order (fireTimer id fn s).
Proof.
  intros Hin (Hnd & Hlt & Hn & Hd1 & Hd2 & Hurl).
  assert (∀ i d f, (i, d, f) ∈ timers s → f ≠ fn →
                   (i, d, f) ∈ timers (clearTimeout id s)) as Hkeep.
  { intros i d f Hi Hf. apply elem_of_clearTimeout. split; [done|].
    cbn. intros ->.
    pose proof (same_id_same_timer _ _ _ Hnd Hin Hi eq_refl). congruence. }
  assert (∀ tm, tm ∈ timers (clearTimeout id s) → tm ∈ timers s ∧ tm.1.1 ≠ id)
    as Hsub by (by intros tm ?%elem_of_clearTimeout).
  pose proof (NoDup_clearTimeout id s Hnd) as Hnd'.
  unfold fireTimer, runCallback, timers_in_order.
  destruct fn as [|url0]; popup_fields;
    change (next_timer (clearTimeout id s)) with (next_timer s);
    change (clock (clearTimeout id s)) with (clock s);
    change (statusTimer (clearTimeout id s)) with (statusTimer s);
    change (status_class (clearTimeout id s)) with (status_class s);
    change (object_urls (clearTimeout id s)) with (object_urls s).
  - split; [done|]. split; [by intros tm [Htm _]%Hsub; apply Hlt|].
    split; [done|]. split.
    { intros id' due' [Hin' Hne]%Hsub. cbn in Hne.
      destruct (Hd1 _ _ Hin') as [H1 _]. destruct (Hd1 _ _ Hin) as [H2 _].
      congruence. }
    split; [done|].
    intros url Hu. destruct (Hurl url Hu) as (i & d & Hi & Hd).
    exists i, d. split; [|done]. by apply Hkeep.
  - split; [done|]. split; [by intros tm [Htm _]%Hsub; apply Hlt|].
    split; [done|]. split.
    { intros id' due' [Hin' _]%Hsub. by apply Hd1. }
    split.
    { intros id' Hst. destruct (Hd2 id' Hst) as [due' Hin']. exists due'.
      by apply Hkeep. }
    intros url [Hne Hu]%list_elem_of_filter.
    destruct (Hurl url Hu) as (i & d & Hi & Hd).
    exists i, d. split; [|done]. apply Hkeep; [done|]. congruence.
Qed.

Lemma timer_view_usernameInput (value : string) (s : Popup.State) :
  timer_view (set_usernameInput value s) = timer_view s.
Proof. done. Qed.

Lemma timer_view_fileInput (value : string) (s : Popup.State) :
  timer_view (set_fileInput value s) = timer_view s.
Proof. done. Qed.

(** The timeouts stay in order at every step of the popup. *)
Lemma timers_in_order_step (s s' : Popup.State) :
  Popup.step s s' → timers_in_order s → timers_in_order s'.
Proof.
  destruct 1 as [s value|s|s key|s index|s confirmed|s|s file value|s checked
                 |s dt|s id due fn Hin Hdue|s e1 e2 e3 e4 rt tab date]; intros H.
  - revert H. by apply timers_in_order_view.
  - unfold addUsername.
    repeat case_match;
      try (revert H; by apply timers_in_order_view).
    apply timers_in_order_notify, timers_in_order_showStatus.
    apply (timers_in_order_view _ _ (timer_view_usernameInput _ _)).
    apply timers_in_order_render. revert H. by apply timers_in_order_view.
  - unfold handleKeyPress. case_bool_decide; [|done].
    unfold addUsername.
    repeat case_match;
      try (revert H; by apply timers_in_order_view).
    apply timers_in_order_notify, timers_in_order_showStatus.
    apply (timers_in_order_view _ _ (timer_view_usernameInput _ _)).
    apply timers_in_order_render. revert H. by apply timers_in_order_view.
  - unfold handleRemoveClick. destruct (usernameList s !! index); [|done].
    unfold removeUsername.
    repeat case_match; try done;
      try (apply timers_in_order_showStatus; revert H; by apply timers_in_order_view).
    apply timers_in_order_notify, timers_in_order_showStatus.
    apply timers_in_order_render. revert H. by apply timers_in_order_view.
  - unfold clearAll.
    repeat case_match; try done;
      try (apply timers_in_order_showStatus; revert H; by apply timers_in_order_view).
    apply timers_in_order_notify, timers_in_order_showStatus.
    apply timers_in_order_render. revert H. by apply timers_in_order_view.
  - by apply timers_in_order_exportList.
  - assert (timers_in_order (set_fileInput value s)) as H'
      by (revert H; by apply timers_in_order_view).
    unfold importList. destruct file as [text|]; [|done].
    apply (timers_in_order_view _ _ (timer_view_fileInput _ _)).
    repeat case_match;
      try (apply timers_in_order_showStatus; revert H'; by apply timers_in_order_view).
    apply timers_in_order_notify, timers_in_order_showStatus.
    apply timers_in_order_render. revert H'. by apply timers_in_order_view.
  - assert (timers_in_order (set_showCountCheckbox checked s)) as H'
      by (revert H; by apply timers_in_order_view).
    unfold saveShowCountSetting.
    case_match.
    + apply timers_in_order_showStatus. revert H'. by apply timers_in_order_view.
    + apply timers_in_order_notify. revert H'. by apply timers_in_order_view.
  - destruct H as (Hnd & Hlt & Hn & Hd1 & Hd2 & Hurl).
    unfold timers_in_order. popup_fields.
    split; [done|]. split; [done|]. split; [done|]. split.
    { intros id due Hin. destruct (Hd1 _ _ Hin) as (? & ? & ?).
      split; [done|]. split; [lia|done]. }
    split; [done|].
    intros url Hu. destruct (Hurl url Hu) as (i & d & Hi & Hd).
    exists i, d. split; [done|lia].
  - by eapply timers_in_order_fireTimer.
  - revert H. by apply timers_in_order_view.
Qed.

Lemma timers_in_order_loaded (s : Popup.State) :
  loaded s → timers_in_order (Popup.initialize s).
Proof.
  intros (Hst & _ & Ht & Hn & _ & _ & Hu & _).
  assert (timers_in_order s) as H.
  { unfold timers_in_order. rewrite Ht, Hu, Hst.
    split; [constructor|]. split; [by intros ? ?%elem_of_nil|].
    split; [done|]. split; [by intros ?? ?%elem_of_nil|].
    split; [done|]. by intros ? ?%elem_of_nil. }
  unfold Popup.initialize, loadData. destruct (get_error s).
  - apply timers_in_order_showStatus. revert H. by apply timers_in_order_view.
  - apply timers_in_order_render. revert H. by apply timers_in_order_view.
Qed.

Lemma timers_in_order_reachable (s : Popup.State) :
  Popup.reachable s → timers_in_order s.
Proof.
  induction 1 as [s Hs|s s' _ IH Hstep]; [by apply timers_in_order_loaded|].
  by eapply timers_in_order_step.
Qed.

End PopupTimers.

(** ** The popup: what it accepts *)

(** X13. popup, InputValidator.sanitizeUsername: a value it accepts is a
    string, and the name returned is that string trimmed; the name is not
    empty, has at most 100 characters, all of them letters, digits,
    underscores, hyphens, dots or spaces, and it neither begins nor ends
    with white space: trimming it again, and sanitizing it again, give the
    same name. *)
Theorem sanitizeUsername_fixed (username : Js.Value) (name : string) :
  Popup.sanitizeUsername username = inr name →
  (∃ raw, username = Js.Str raw ∧ name = Str.trim raw)
  ∧ name ≠ "" ∧ String.length name ≤ 100
  ∧ Popup.every Popup.validChar name = true
  ∧ Str.trim name = name
  ∧ Popup.sanitizeUsername (Js.Str name) = inr name.
Proof.
  intros H. destruct (sanitizeUsername_string _ _ H) as [raw ->].
  pose proof (sanitized_trim _ _ H) as Hfix.
  apply sanitizeUsername_Str in H as (-> & Hne & Hl & Hv).
  split; [by exists raw|]. by rewrite trim_idem.
Qed.

Lemma sanitizeUsername_fixed_witness :
  Popup.sanitizeUsername (Js.Str "  bob smith ") = inr "bob smith"
  ∧ Str.trim "bob smith" = "bob smith"
  ∧ Popup.sanitizeUsername (Js.Str "bob smith") = inr "bob smith".
Proof.
  split; [reflexivity|].
  apply (sanitizeUsername_fixed (Js.Str "  bob smith ") "bob smith"). reflexivity.
Defined.

(** X14. popup, InputValidator.sanitizeUsername: a value that is not a
    string is rejected as such; a string is rejected as empty exactly when
    it holds nothing but white space (the empty string too); a string
    whose trimmed text has more than 100 characters is rejected for its
    length, whatever its characters. *)
Theorem sanitizeUsername_rejects_blank (username : Js.Value) :
  (Js.typeof username ≠ "string" →
   Popup.sanitizeUsername username = inl "Username must be a string")
  ∧ ∀ raw, username = Js.Str raw →
      (Popup.sanitizeUsername username = inl "Username cannot be empty"
       ↔ Popup.every Str.js_whitespace raw = true)
      ∧ (100 < String.length (Str.trim raw) →
         Popup.sanitizeUsername username
         = inl "Username cannot exceed 100 characters").
Proof.
  split; [by destruct username|].
  intros raw ->. unfold Popup.sanitizeUsername.
  change ("Username cannot exceed " +:+ Str.decimal (Z.of_nat 100) +:+ " characters")
    with "Username cannot exceed 100 characters".
  rewrite every_Forall, <-trim_empty.
  split.
  - case_bool_decide as He; [done|]. split; [|done].
    repeat case_match; done.
  - intros Hl. rewrite bool_decide_eq_false_2.
    + by rewrite bool_decide_eq_true_2.
    + intros He. rewrite He in Hl. cbn in Hl. lia.
Qed.

(** X15. popup, InputValidator.sanitizeJSON: for a parsed value whose
    usernames field is an array, the members that are not strings are
    left out and every string member is sanitized: the result is the list
    of the sanitized names, in order, when sanitizeUsername accepts every
    string member; and when it rejects one, the whole call throws, with
    the error of the first string member rejected. *)
Theorem sanitizeJSON_all_or_nothing (parsed : Js.Value) (items : list Js.Value) :
  Js.prop parsed "usernames" = Js.Arr items →
  let raws := Js.strings (Js.Arr items) in
  (∀ names,
     Popup.sanitizeJSON (Some parsed) = inr names
     ↔ Forall2 (λ raw name, Popup.sanitizeUsername (Js.Str raw) = inr name) raws names)
  ∧ (∀ error,
       Popup.sanitizeJSON (Some parsed) = inl error
       ↔ ∃ before raw after,
           raws = before ++ raw :: after
           ∧ Forall (λ r, ∃ name, Popup.sanitizeUsername (Js.Str r) = inr name) before
           ∧ Popup.sanitizeUsername (Js.Str raw) = inl error).
Proof.
  intros Hp raws. rewrite (sanitizeJSON_usernames _ _ Hp). fold raws. split.
  - intros names. rewrite map_throwing_inr. by rewrite Forall2_fmap_l.
  - intros error. rewrite map_throwing_inl. split.
    + intros (l1 & x & l2 & Heq & Hl1 & Hx).
      apply fmap_app_inv in Heq as (before & rest & -> & Hrest & ->).
      symmetry in Hrest. apply fmap_cons_inv in Hrest as (raw & after & -> & -> & ->).
      exists before, raw, after. split; [done|]. split; [|done].
      rewrite Forall_forall in Hl1. apply Forall_forall. intros r Hr.
      apply Hl1, list_elem_of_fmap. by exists r.
    + intros (before & raw & after & -> & Hb & Hx).
      exists (Js.Str <$> before), (Js.Str raw), (Js.Str <$> after).
      rewrite fmap_app, fmap_cons. split; [done|]. split; [|done].
      rewrite Forall_forall in Hb. apply Forall_forall.
      intros v (r & -> & Hr)%list_elem_of_fmap. by apply Hb.
Qed.

Lemma sanitizeJSON_all_or_nothing_witness :
  let parsed := Js.Obj [("usernames", Js.Arr [Js.Str " ann "; Js.Num 7; Js.Str "bob"])] in
  Popup.sanitizeJSON (Some parsed) = inr ["ann"; "bob"]
  ∧ Popup.sanitizeJSON
      (Some (Js.Obj [("usernames", Js.Arr [Js.Str "ann"; Js.Str "<b>"; Js.Str ""])]))
    = inl "Username can only contain letters, numbers, underscores, hyphens, spaces, and dots".
Proof.
  intros parsed. split; [|reflexivity].
  apply (sanitizeJSON_all_or_nothing parsed
           [Js.Str " ann "; Js.Num 7; Js.Str "bob"] eq_refl).
  by repeat constructor.
Defined.

(** ** The popup: the list it keeps *)

Section PopupList.
Import Kept.

Lemma updated_saved (l : list string) (s s' : Popup.State) :
  updated l s s' → Popup.saved_usernames s' = l.
Proof. intros (H & _). unfold Popup.saved_usernames. by rewrite H. Qed.

Lemma shows_store_step (s s' : Popup.State) :
  Popup.step s s' → shows_store s → shows_store s'.
Proof.
  intros Hstep Hs. unfold shows_store in *.
  destruct (step_effect s s' Hstep) as [(H1 & H2 & _)|(l & Hu & _)].
  - by rewrite H2, (saved_stored _ _ H1).
  - rewrite (updated_saved _ _ _ Hu). by destruct Hu as (_ & _ & -> & _).
Qed.

Lemma recognized_updateFilters (l : list string) :
  Spec.recognized (Popup.updateFilters l) = true.
Proof.
  unfold Popup.updateFilters, Spec.recognized. cbn [Js.assoc].
  rewrite !decide_True by done. rewrite decide_False by done.
  rewrite decide_True by done. cbn [Js.is_str].
  rewrite bool_decide_eq_true_2 by done. by rewrite array_of_strings_fmap.
Qed.

Lemma recognized_updateShowCount (b : bool) :
  Spec.recognized (Popup.updateShowCount b) = true.
Proof. done. Qed.

Lemma notified_recognized (message : Js.Value) (s : Popup.State) :
  Spec.recognized message = true →
  Forall (λ m, Spec.recognized m.2 = true ∧ fab_tab s = Some m.1)
    (notified message s)
  ∧ length (notified message s) ≤ 1.
Proof.
  intros Hr. unfold notified. destruct (fab_tab s); cbn; [|split; [done|lia]].
  split; [|lia]. by repeat constructor.
Qed.

End PopupList.

(** X16. popup, importList: choosing a file either replaces the list by
    the sanitized names of the file, each once and in the order of their
    first occurrence (stored, shown, and sent to the tab of fab.com in a
    message updateFilters), or leaves the list stored, the list shown and
    the messages sent as they are: when the file cannot be read or
    parsed, when sanitizeJSON throws, or when the store refuses the
    write. The list it stores holds no name twice and only sanitized
    names, whatever the store held before. *)
Theorem importList_replaces_or_keeps (file : option (string + option Js.Value))
    (s : Popup.State) :
  let s' := Popup.importList file s in
  (Popup.stored_usernames s' = Popup.stored_usernames s
   ∧ Kept.list_view s' = Kept.list_view s
   ∧ Popup.sent s' = Popup.sent s)
  ∨ ∃ parsed usernames,
      file = Some (inr parsed)
      ∧ Popup.sanitizeJSON parsed = inr usernames
      ∧ Popup.set_error s = None
      ∧ Popup.stored_usernames s' = Some (Popup.unique usernames)
      ∧ Kept.list_view s' = Kept.rendered (Popup.unique usernames)
      ∧ Popup.sent s'
        = Popup.sent s
          ++ Kept.notified (Popup.updateFilters (Popup.unique usernames)) s
      ∧ Kept.well_kept (Popup.unique usernames)
      ∧ (∀ x usernames', usernames = x :: usernames' →
           Popup.unique usernames
           = x :: filter (λ y, y ≠ x) (Popup.unique usernames')).
Proof.
  intros s'.
  destruct (importList_effect file s)
    as [((H1 & H2 & H3) & H4 & H5)|(parsed & usernames & Hf & Hj & He & Hu)].
  - left. by repeat split.
  - right. exists parsed, usernames.
    destruct Hu as (U1 & U2 & U3 & U4 & U5).
    do 6 (split; [done|]). split.
    + apply well_kept_unique. by eapply sanitizeJSON_sanitized.
    + intros x usernames' ->. apply unique_cons.
Qed.

(** X17. popup, addUsername, removeUsername, clearAll, importList: along
    any run of the popup (clicks, key presses, files chosen, edits of the
    input, timeouts, changes of the tab or of what the browser answers),
    nothing else writing the store, a stored list that holds no name twice
    and only names the sanitizer leaves as they are stays such a list; in
    particular the empty name is never stored. *)
Theorem popup_store_well_kept (s s' : Popup.State) :
  rtc Popup.step s s' →
  Kept.well_kept (Popup.saved_usernames s) →
  Kept.well_kept (Popup.saved_usernames s') ∧ "" ∉ Popup.saved_usernames s'.
Proof.
  intros Hrun Hs.
  assert (Kept.well_kept (Popup.saved_usernames s')) as H.
  { induction Hrun as [s|s s1 s' Hstep _ IH]; [done|]. apply IH.
    destruct (step_effect s s1 Hstep) as [(H1 & _)|(l & Hu & Hl)].
    - by rewrite (saved_stored _ _ H1).
    - rewrite (updated_saved _ _ _ Hu). by apply Hl. }
  split; [done|]. intros Hin. destruct H as [_ H].
  rewrite Forall_forall in H. by apply (sanitized_not_empty _ (H _ Hin)).
Qed.

Lemma popup_store_well_kept_witness :
  let s := Sample2.popup in
  let s1 := Popup.clearInputError (Popup.set_usernameInput " alice " s) in
  let s2 := Popup.addUsername s1 in
  Popup.saved_usernames s2 = ["bob"; "carol"; "alice"]
  ∧ Kept.well_kept (Popup.saved_usernames s2)
  ∧ "" ∉ Popup.saved_usernames s2.
Proof.
  intros s s1 s2. split; [by vm_compute|].
  apply (popup_store_well_kept s s2).
  - eapply rtc_l; [apply Popup.step_input|]. eapply rtc_l; [apply Popup.step_add|].
    apply rtc_refl.
  - split; [by repeat constructor; set_solver|].
    repeat constructor; by vm_compute.
Defined.

(** X18. popup, loadData and renderUsernames: once loadData has read the
    store, along any run of the popup, nothing else writing the store, the
    items of the list shown are the names stored, in the same order, the
    count shown is their number in decimal, and the empty-list message
    has the class show exactly when no name is stored. *)
Theorem popup_shows_store (s0 s : Popup.State) :
  Popup.get_error s0 = None →
  rtc Popup.step (Popup.initialize s0) s →
  Popup.usernameList s = Popup.saved_usernames s
  ∧ Popup.usernameCount s
    = Str.decimal (Z.of_nat (length (Popup.saved_usernames s)))
  ∧ Popup.emptyMessage_show s = bool_decide (Popup.saved_usernames s = []).
Proof.
  intros He Hrun.
  assert (Kept.shows_store s) as H.
  { remember (Popup.initialize s0) as s1 eqn:Hs1.
    assert (Kept.shows_store s1) as H1 by (subst s1; by apply loadData_shows).
    clear Hs1. induction Hrun as [s|s s1 s' Hstep _ IH]; [done|].
    apply IH. by eapply shows_store_step. }
  unfold Kept.shows_store, Kept.list_view, Kept.rendered in H.
  by injection H as -> -> ->.
Qed.

Lemma popup_shows_store_witness :
  let s := Popup.handleRemoveClick 0 (Popup.initialize Sample2.popup) in
  Popup.saved_usernames s = ["carol"]
  ∧ Popup.usernameList s = Popup.saved_usernames s
  ∧ Popup.usernameCount s = "1"
  ∧ Popup.emptyMessage_show s = false.
Proof.
  intros s. split; [by vm_compute|].
  destruct (popup_shows_store Sample2.popup s eq_refl) as (H1 & H2 & H3).
  - apply rtc_once, Popup.step_remove.
  - split; [exact H1|]. split; [by vm_compute|by vm_compute].
Defined.

(** X19. popup, notifyContentScript and the handlers: a step of the popup
    sends at most one message, to the active tab and only when the
    extension context is valid and the tab's URL contains fab.com; the
    message has one of the two shapes the content script recognizes; and
    whenever the step changes the list stored, the message is sent if
    there is such a tab, and it is updateFilters with the list now
    stored. *)
Theorem popup_notifies_updates (s s' : Popup.State) :
  Popup.step s s' →
  ∃ new,
    Popup.sent s' = Popup.sent s ++ new
    ∧ length new ≤ 1
    ∧ Forall (λ m, Spec.recognized m.2 = true ∧ Kept.fab_tab s = Some m.1) new
    ∧ (Popup.stored_usernames s' ≠ Popup.stored_usernames s →
       new = Kept.notified (Popup.updateFilters (Popup.saved_usernames s')) s).
Proof.
  intros Hstep.
  destruct (step_effect s s' Hstep) as [(H1 & H2 & [H3|[b H3]])|(l & Hu & _)].
  - exists []. rewrite app_nil_r. repeat split; [done|cbn; lia|done|done].
  - exists (Kept.notified (Popup.updateShowCount b) s).
    destruct (notified_recognized (Popup.updateShowCount b) s
                (recognized_updateShowCount b)) as [Hf Hl].
    repeat split; done.
  - exists (Kept.notified (Popup.updateFilters l) s).
    destruct (notified_recognized (Popup.updateFilters l) s
                (recognized_updateFilters l)) as [Hf Hl].
    rewrite (updated_saved _ _ _ Hu). destruct Hu as (_ & _ & _ & _ & ->).
    repeat split; done.
Qed.

Lemma popup_notifies_updates_witness :
  let s := Popup.initialize Sample2.popup in
  let s' := Popup.clearAll true s in
  Popup.sent s' = [(7, Popup.updateFilters [])]
  ∧ ∃ new,
      Popup.sent s' = Popup.sent s ++ new
      ∧ length new ≤ 1
      ∧ Forall (λ m, Spec.recognized m.2 = true ∧ Kept.fab_tab s = Some m.1) new
      ∧ (Popup.stored_usernames s' ≠ Popup.stored_usernames s →
         new = Kept.notified (Popup.updateFilters (Popup.saved_usernames s')) s).
Proof.
  intros s s'. split; [by vm_compute|].
  apply (popup_notifies_updates s s'), Popup.step_clear.
Defined.

(** ** The popup and the content script *)

Section PopupEngine.
Import Kept.

(** With no empty name in the set, a seller in the set has a name. *)
Lemma named_seller_in_seller_in (U : gset string) t A card :
  "" ∉ U → Spec.named_seller_in U t A card = Spec.seller_in U t A card.
Proof.
  intros HU. unfold Spec.named_seller_in, Spec.seller_in.
  destruct (sellerName t A card.1) as [name|]; [|done].
  case_bool_decide as Hn; [|done]. subst name. cbn.
  by rewrite bool_decide_eq_false_2.
Qed.

End PopupEngine.

(** X20. popup and content script, from sanitizeUsername to
    resetAndRefilter: when the list of a message updateFilters is one the
    popup keeps (no name twice, every name sanitized), the content script
    accepts the message in every state it reaches, and afterwards its
    filtered set is the list, the hidden marker is on the containers of
    exactly the cards whose seller is in the list, and the count is their
    number: no card is left out for a blank name, since the list holds
    none. *)
Theorem kept_list_hides_sellers (e : Engine.State) (l : list string) :
  reachable page_changes e →
  Kept.well_kept l →
  let U : gset string := list_to_set l in
  let cards := Spec.cards (tree e) (attrs e) in
  let hidden := filter (λ card, Spec.seller_in U (tree e) (attrs e) card) cards in
  let e' := handleMessage (Popup.updateFilters l) e in
  validate (Popup.updateFilters l) = inr true
  ∧ filteredUsernames e' = U
  ∧ blockedCount e' = Z.of_nat (length hidden)
  ∧ ∀ x, x ∈ elements (tree e) →
         hasAttribute (attrs e') x "data-filtered" = bool_decide (x ∈ hidden.*2).
Proof.
  intros Hreach [_ Hl] U cards hidden e'.
  assert ("" ∉ U) as HU.
  { unfold U. rewrite elem_of_list_to_set. intros Hin.
    rewrite Forall_forall in Hl. by apply (sanitized_not_empty _ (Hl _ Hin)). }
  split; [apply validate_recognized, recognized_updateFilters|].
  assert (e' = resetAndRefilter (set_filteredUsernames U e)) as He'.
  { unfold e'. by apply handleMessage_updateFilters. }
  pose proof (markers_true_reachable e Hreach) as Hm.
  destruct (resetAndRefilter_effect (set_filteredUsernames U e) Hm)
    as (mid & Hs' & Hrest & _ & _ & _ & _ & _ & Htree & Hcount & _ & Hhid & _).
  cbn [tree attrs set_filteredUsernames] in Hcount, Hhid.
  assert (filter (λ card, hides (set_filteredUsernames U e) card) cards = hidden)
    as Hfilter.
  { unfold hidden. apply list_filter_iff. intros card. unfold hides.
    cbn [filteredUsernames tree attrs set_filteredUsernames].
    by rewrite named_seller_in_seller_in. }
  fold cards in Hcount, Hhid. rewrite Hfilter in Hcount, Hhid.
  rewrite He'. split; [|split; [done|done]].
  rewrite Hs'. unfold filterExistingContent.
  destruct (updateBadge_engine (scan Document mid)) as (_ & _ & Hb).
  rewrite (rest_view_filteredUsernames _ _ Hb). cbn [filteredUsernames set_outbox].
  destruct (scan_frame Document mid) as [Hsc _].
  rewrite (rest_view_filteredUsernames _ _ Hsc), (rest_view_filteredUsernames _ _ Hrest).
  done.
Qed.

Lemma kept_list_hides_sellers_witness :
  let e := initialize [] false
             (construct Sample.three_cards Sample.three_cards_attrs true) in
  let e' := handleMessage (Popup.updateFilters ["bob"; "carol"]) e in
  blockedCount e' = 2%Z
  ∧ hasAttribute (attrs e') 20 "data-filtered" = true
  ∧ filteredUsernames e' = list_to_set ["bob"; "carol"].
Proof.
  intros e e'.
  destruct (kept_list_hides_sellers e ["bob"; "carol"]) as (_ & H1 & H2 & H3).
  - apply three_cards_reachable.
  - split; [by repeat constructor; set_solver|]. repeat constructor; by vm_compute.
  - split; [by vm_compute|]. split; [by vm_compute|exact H1].
Defined.

(** ** The popup: adding and removing a name *)

Section AddRemove.
Import Kept.

Lemma browser_view_errors (s s' : Popup.State) :
  browser_view s' = browser_view s →
  Popup.get_error s' = Popup.get_error s ∧ Popup.set_error s' = Popup.set_error s.
Proof. unfold browser_view. by intros [= -> -> _ _ _ _ _]. Qed.

Lemma indexOf_snoc (l : list string) (x : string) :
  x ∉ l → Popup.indexOf (l ++ [x]) x = Some (length l).
Proof.
  intros Hx. apply indexOf_Some. split.
  - by rewrite lookup_app_r, Nat.sub_diag by lia.
  - intros j Hj Hl. rewrite lookup_app_l in Hl by done.
    apply Hx. by eapply list_elem_of_lookup_2.
Qed.

Lemma delete_snoc (l : list string) (x : string) : delete (length l) (l ++ [x]) = l.
Proof.
  induction l as [|y l IH]; [done|]. cbn. f_equal. exact IH.
Qed.

Lemma showStatus_usernameInput (message type : string) (s : Popup.State) :
  Popup.usernameInput (Popup.showStatus message type s) = Popup.usernameInput s.
Proof.
  unfold Popup.showStatus. destruct (Popup.statusTimer s) as [id|]; [|done].
  by case_bool_decide.
Qed.

Lemma notifyContentScript_usernameInput (message : Js.Value) (s : Popup.State) :
  Popup.usernameInput (Popup.notifyContentScript message s) = Popup.usernameInput s.
Proof.
  unfold Popup.notifyContentScript, Popup.notify_failed.
  repeat (case_match; try done).
Qed.

End AddRemove.

(** X21. popup, addUsername and removeUsername: with the store answering,
    adding a name the sanitizer accepts and the list does not hold appends
    the sanitized name to the list stored, empties the input and sends the
    new list; adding the same name again changes neither the list stored
    nor what was sent, and tells that the name is in the list; removing the
    name added gives back the list as it was. *)
Theorem popup_add_then_remove (s : Popup.State) (name : string) :
  Popup.get_error s = None → Popup.set_error s = None →
  Popup.sanitizeUsername (Js.Str (Popup.usernameInput s)) = inr name →
  name ∉ Popup.saved_usernames s →
  let s1 := Popup.addUsername s in
  let s2 := Popup.addUsername (Popup.set_usernameInput (Popup.usernameInput s) s1) in
  let s3 := Popup.removeUsername name s1 in
  Popup.saved_usernames s1 = Popup.saved_usernames s ++ [name]
  ∧ Popup.usernameInput s1 = ""
  ∧ Popup.sent s1
    = Popup.sent s ++ Kept.notified (Popup.updateFilters (Popup.saved_usernames s1)) s
  ∧ Popup.stored_usernames s2 = Popup.stored_usernames s1
  ∧ Popup.sent s2 = Popup.sent s1
  ∧ Popup.inputError s2 = "Username already in filter list"
  ∧ Popup.saved_usernames s3 = Popup.saved_usernames s.
Proof.
  intros Hg Hs Hn Hni s1 s2 s3.
  pose proof (addUsername_success s name Hn Hni Hg Hs) as Hu. fold s1 in Hu.
  pose proof (updated_saved _ _ _ Hu) as Hsaved.
  destruct Hu as (U1 & U2 & U3 & U4 & U5).
  destruct (browser_view_errors _ _ U4) as [Hg1 Hs1].
  split; [done|]. split.
  { unfold s1. rewrite addUsername_unfold, Hn, Hg, Hs.
    rewrite bool_decide_eq_false_2 by done.
    by rewrite notifyContentScript_usernameInput, showStatus_usernameInput. }
  split; [by rewrite Hsaved|].
  assert (Popup.stored_usernames s2 = Popup.stored_usernames s1
          ∧ Popup.sent s2 = Popup.sent s1
          ∧ Popup.inputError s2 = "Username already in filter list") as H2.
  { unfold s2. rewrite addUsername_unfold.
    change (Popup.usernameInput (Popup.set_usernameInput ?v ?x)) with v.
    change (Popup.get_error (Popup.set_usernameInput ?v ?x)) with (Popup.get_error x).
    change (Popup.saved_usernames (Popup.set_usernameInput ?v ?x))
      with (Popup.saved_usernames x).
    rewrite Hn. rewrite Hg1, Hg, Hsaved.
    rewrite bool_decide_eq_true_2 by set_solver. done. }
  destruct H2 as (-> & -> & ->). do 3 (split; [done|]).
  assert (Popup.indexOf (Popup.saved_usernames s1) name
          = Some (length (Popup.saved_usernames s))) as Hi
    by (rewrite Hsaved; by apply indexOf_snoc).
  rewrite <-Hg1 in Hg. rewrite <-Hs1 in Hs.
  pose proof (removeUsername_success name _ s1 Hi Hg Hs) as Hu. fold s3 in Hu.
  rewrite (updated_saved _ _ _ Hu). by rewrite Hsaved, delete_snoc.
Qed.

Lemma popup_add_then_remove_witness :
  let s := Popup.set_usernameInput " alice " (Popup.initialize Sample2.popup) in
  let s1 := Popup.addUsername s in
  let s3 := Popup.removeUsername "alice" s1 in
  Popup.saved_usernames s1 = ["bob"; "carol"; "alice"]
  ∧ Popup.saved_usernames s3 = ["bob"; "carol"].
Proof.
  intros s s1 s3.
  destruct (popup_add_then_remove s "alice") as (H1 & _ & _ & _ & _ & _ & H7);
    [done|done|by vm_compute|by vm_compute; set_solver|].
  split; [exact H1|exact H7].
Defined.

(** ** The popup: the status line, exports and imports *)

(** X22. popup, showStatus: in every state of an open popup at most one
    timeout of the status line is pending; it is the one statusTimer
    names, it is due within 3000 ms, and the status line has the class
    show while it is pending. showStatus cancels the timeout of an earlier
    message, so that the one pending after it is due 3000 ms after this
    call; when it fires, statusTimer is null again and no timeout of the
    status line is left. *)
Theorem popup_status_timeout (s : Popup.State) :
  Popup.reachable s →
  (∀ x y, x ∈ Popup.timers s → y ∈ Popup.timers s →
          x.2 = Popup.HideStatus → y.2 = Popup.HideStatus → x = y)
  ∧ (∀ id due, (id, due, Popup.HideStatus) ∈ Popup.timers s →
       Popup.statusTimer s = Some id ∧ due ≤ Popup.clock s + 3000
       ∧ "show" ∈ Str.tokens (Popup.status_class s))
  ∧ (∀ message type id due,
       (id, due, Popup.HideStatus) ∈ Popup.timers (Popup.showStatus message type s) →
       due = Popup.clock s + 3000)
  ∧ (∀ id due, (id, due, Popup.HideStatus) ∈ Popup.timers s →
       let s' := Popup.fireTimer id Popup.HideStatus s in
       Popup.statusTimer s' = None
       ∧ ∀ id' due', (id', due', Popup.HideStatus) ∉ Popup.timers s').
Proof.
  intros Hreach. pose proof (timers_in_order_reachable s Hreach) as Hord.
  pose proof Hord as (Hnd & Hlt & Hn & Hd1 & Hd2 & Hurl).
  split.
  { intros [[i d] f] [[i' d'] f'] Hx Hy Hf Hf'. cbn in Hf, Hf'. subst f f'.
    destruct (Hd1 _ _ Hx) as [H1 _]. destruct (Hd1 _ _ Hy) as [H2 _].
    apply (same_id_same_timer _ _ _ Hnd Hx Hy). cbn. congruence. }
  split; [exact Hd1|]. split.
  { intros message type id due. by apply showStatus_in_order. }
  intros id due Hin s'.
  pose proof (timers_in_order_fireTimer id due Popup.HideStatus s Hin Hord)
    as (_ & _ & _ & Hd1' & _).
  fold s' in Hd1'. split; [done|].
  intros id' due' Hin'. by destruct (Hd1' _ _ Hin') as [? _].
Qed.

Lemma popup_status_timeout_witness :
  let s0 := Popup.initialize Sample2.popup in
  let s1 := Popup.clearAll true s0 in
  let s2 := Popup.set_clock (Popup.clock s1 + 1000) s1 in
  let s3 := Popup.exportList s2 in
  Popup.timers s1 = [(1, 3000, Popup.HideStatus)]
  ∧ Popup.timers s3 = [(2, 1100, Popup.RevokeObjectURL 1); (3, 4000, Popup.HideStatus)]
  ∧ Popup.status_text s3 = "Filter list exported"
  ∧ ∀ id due, (id, due, Popup.HideStatus) ∈ Popup.timers s3 →
      Popup.statusTimer s3 = Some id ∧ due ≤ Popup.clock s3 + 3000
      ∧ "show" ∈ Str.tokens (Popup.status_class s3).
Proof.
  intros s0 s1 s2 s3. split; [by vm_compute|]. split; [by vm_compute|].
  split; [by vm_compute|].
  destruct (popup_status_timeout s3) as (_ & H & _); [|exact H].
  eapply Popup.reach_step; [|apply Popup.step_export].
  eapply Popup.reach_step; [|apply Popup.step_tick].
  eapply Popup.reach_step; [|apply Popup.step_clear].
  apply Popup.reach_open. unfold Popup.loaded. cbn. repeat split; lia.
Defined.

Section ExportFile.
Import Kept.

Lemma showStatus_downloads (message type : string) (s : Popup.State) :
  Popup.downloads (Popup.showStatus message type s) = Popup.downloads s
  ∧ Popup.object_urls (Popup.showStatus message type s) = Popup.object_urls s.
Proof.
  unfold Popup.showStatus. destruct (Popup.statusTimer s) as [id|]; [|done].
  by case_bool_decide.
Qed.

Lemma sanitizeJSON_exportData (l : list string) :
  Forall sanitized l → Popup.sanitizeJSON (Some (Popup.exportData l)) = inr l.
Proof.
  intros Hl.
  rewrite (sanitizeJSON_usernames _ (Js.Str <$> l)) by done.
  rewrite strings_of_strings. apply map_throwing_inr, Forall2_fmap_l.
  induction Hl; by constructor.
Qed.

End ExportFile.

(** X23. popup, exportList: with the store answering, exportList starts
    one download, named after the day, of the JSON text of an object
    whose usernames field is the list stored, through an object URL it
    creates; and in every state of an open popup, each object URL that has
    not been revoked has a timeout pending that revokes it, due within
    100 ms. *)
Theorem popup_object_urls_revoked (s : Popup.State) :
  Popup.reachable s →
  (∀ url, url ∈ Popup.object_urls s →
     ∃ id due, (id, due, Popup.RevokeObjectURL url) ∈ Popup.timers s
               ∧ due ≤ Popup.clock s + 100
               ∧ url ∉ Popup.object_urls
                         (Popup.fireTimer id (Popup.RevokeObjectURL url) s))
  ∧ (Popup.get_error s = None →
     Popup.downloads (Popup.exportList s)
     = Popup.downloads s
       ++ [{| Popup.href := Popup.next_url s;
              Popup.download := "fab-filter-usernames-" +:+ Popup.today s +:+ ".json";
              Popup.content := Popup.exportData (Popup.saved_usernames s) |}]
     ∧ Popup.object_urls (Popup.exportList s)
       = Popup.object_urls s ++ [Popup.next_url s]).
Proof.
  intros Hreach. pose proof (timers_in_order_reachable s Hreach) as Hord.
  destruct Hord as (Hnd & Hlt & Hn & Hd1 & Hd2 & Hurl).
  split.
  - intros url Hu. destruct (Hurl url Hu) as (id & due & Hin & Hdue).
    exists id, due. split; [done|]. split; [done|].
    unfold Popup.fireTimer, Popup.runCallback. cbn.
    intros [Hne _]%list_elem_of_filter. done.
  - intros He. unfold Popup.exportList. rewrite He.
    match goal with |- context [Popup.showStatus ?m ?t ?st] =>
      destruct (showStatus_downloads m t st) as [-> ->] end.
    done.
Qed.

Lemma popup_object_urls_revoked_witness :
  let s := Popup.exportList (Popup.initialize Sample2.popup) in
  Popup.object_urls s = [1]
  ∧ Popup.object_urls
      (Popup.fireTimer 1 (Popup.RevokeObjectURL 1) (Popup.set_clock 100 s)) = []
  ∧ ∀ url, url ∈ Popup.object_urls s →
      ∃ id due, (id, due, Popup.RevokeObjectURL url) ∈ Popup.timers s
                ∧ due ≤ Popup.clock s + 100
                ∧ url ∉ Popup.object_urls
                          (Popup.fireTimer id (Popup.RevokeObjectURL url) s).
Proof.
  intros s. split; [by vm_compute|]. split; [by vm_compute|].
  destruct (popup_object_urls_revoked s) as (H & _); [|exact H].
  eapply Popup.reach_step; [|apply Popup.step_export].
  apply Popup.reach_open. unfold Popup.loaded. cbn. repeat split; lia.
Defined.

(** X24. popup, exportList and importList: the object exportList
    serialises for a list that holds no name twice and only sanitized
    names is read back by sanitizeJSON as that list; so importing the file
    exported (its text parsing back to the object) stores, shows and sends
    the list that was exported. *)
Theorem export_import_round_trip (l : list string) (s : Popup.State) :
  Kept.well_kept l →
  Popup.set_error s = None →
  let file := Some (inr (Some (Popup.exportData l))) in
  let s' := Popup.importList file s in
  Popup.sanitizeJSON (Some (Popup.exportData l)) = inr l
  ∧ Popup.stored_usernames s' = Some l
  ∧ Popup.usernameList s' = l
  ∧ Popup.sent s' = Popup.sent s ++ Kept.notified (Popup.updateFilters l) s.
Proof.
  intros [Hnd Hl] He file s'.
  pose proof (sanitizeJSON_exportData l Hl) as Hj. split; [done|].
  pose proof (importList_success _ _ s Hj He) as Hu. fold file s' in Hu.
  rewrite (unique_NoDup l Hnd) in Hu.
  destruct Hu as (U1 & _ & U3 & _ & U5).
  unfold Kept.list_view, Kept.rendered in U3. injection U3 as U3 _ _.
  split; [exact U1|]. split; [exact U3|exact U5].
Qed.

Lemma export_import_round_trip_witness :
  let s := Popup.initialize Sample2.popup in
  let exported := Popup.exportList s in
  let cleared := Popup.clearAll true exported in
  let file := (Popup.content <$> last (Popup.downloads exported)) in
  let s' := Popup.importList (Some (inr file)) cleared in
  Popup.saved_usernames cleared = []
  ∧ file = Some (Popup.exportData ["bob"; "carol"])
  ∧ Popup.stored_usernames s' = Some ["bob"; "carol"].
Proof.
  intros s exported cleared file s'. split; [by vm_compute|]. split; [by vm_compute|].
  destruct (export_import_round_trip ["bob"; "carol"] cleared) as (_ & H & _).
  - split; [by repeat constructor; set_solver|]. repeat constructor; by vm_compute.
  - by vm_compute.
  - exact H.
Defined.
